(** * Bid ranking, bid integrity, bid lifecycle and order phases

    A shallow embedding of [routes/bidding.js] and [routes/orders.js] of the
    import/export marketplace, with the properties its specification states
    about them.

    Conventions of the embedding.
    - A JavaScript number that takes part in arithmetic (a price, a
      quantity, a delivery time, a score) is a binary64 number, the kernel's
      [float]: [*], [-], [<] and [===] are the IEEE operations, a numeric
      literal of the source denotes the nearest binary64 number, and NaN,
      the infinities and the two zeros are values like any other.  Instants
      (milliseconds since the epoch, what a [Date] and [toISOString] carry)
      and counters are integers ([Z]); a [Date] is built from a number by
      [JS.timeClip].
    - Strings are [string]; [===] on strings is [String.eqb] or a decided
      equality.  A field that may be [undefined] or [null] is an [option].
    - The module-level arrays [bids], [requirements], [users] and [orders]
      are lists; [arr[i] = v] and [arr[i].f = v] are [<[i:=_]>], [find] and
      [findIndex] are [list_find].
    - A request handler is a function from the store to a reply and the next
      store, and one call is one transition: [acceptBid], [withdrawBid] and
      [cancelOrder] never await, [submitBid] and [updateOrderPhase] await
      their validation before they read the store, and [updateBid], which
      awaits its validation between its checks and its write, is taken
      without another call in between.  [now] is the instant read by the
      call, the identifiers drawn from [uuidv4] are arguments.
    - [Math.random] reads an explicit stream of draws.
    - Where the specification speaks of amounts as exact quantities, its
      reading is written down over the rationals ([Spec]) and compared with
      what the code computes. *)

From Stdlib Require Import QArith ZArith PArith Bool Ascii String List Lia.
From Stdlib Require Import Sorting.Permutation Sorting.Sorted.
From Stdlib Require Import Floats.Floats.
From stdpp Require Import base list strings numbers relations.

(* A decimal literal of the source denotes the nearest binary64 number. *)
Set Warnings "-inexact-float".

Local Open Scope string_scope.
Local Open Scope Z_scope.

(** ** JavaScript helpers *)

Module JS.

(** [x !== x]: the number is NaN. *)
Definition isNaN (x : float) : bool := negb (x =? x)%float.

(** A number is falsy exactly when it is zero (of either sign) or NaN. *)
Definition truthy (x : float) : bool := negb (x =? 0)%float && negb (isNaN x).

(** The number nearest to an integer (ties to even): what [parseInt] reads
    from the decimal digits of the integer, and what an instant is as a
    number. *)
Definition ofZ (z : Z) : float := SF2Prim (binary_normalize prec emax z 0 false).

(** [Math.floor]. *)
Definition floor (x : float) : float :=
  match Prim2SF x with
  | S754_finite s m e =>
      if (0 <=? e)%Z then x
      else
        let q := Z.shiftr (Zpos m) (- e) in
        if (Z.shiftl q (- e) =? Zpos m)%Z then x
        else if s then ofZ (- (q + 1)) else ofZ q
  | _ => x
  end.

(** [Math.min] of two numbers: NaN if either is, and the negative zero
    before the positive one. *)
Definition min (a b : float) : float :=
  if isNaN a || isNaN b then nan
  else if (a <? b)%float then a
  else if (b <? a)%float then b
  else if get_sign a then a else b.

(** The time value of [new Date(v)]: the integer part of [v], or nothing
    (an invalid date) when [v] is not finite or lies more than 8.64e15
    milliseconds from the epoch. *)
Definition timeClip (v : float) : option Z :=
  match Prim2SF v with
  | S754_zero _ => Some 0%Z
  | S754_finite s m e =>
      let t := if (0 <=? e)%Z then Z.shiftl (Zpos m) e
               else Z.shiftr (Zpos m) (- e) in
      if (t <=? 8640000000000000)%Z then Some (if s then (- t)%Z else t)
      else None
  | _ => None
  end.

(** The exact value of a finite number. *)
Definition exact (x : float) : option Q :=
  match Prim2SF x with
  | S754_zero _ => Some 0%Q
  | S754_finite s m e =>
      let q := if (0 <=? e)%Z then inject_Z (Zpos m * 2 ^ e)
               else Qmake (Zpos m) (Z.to_pos (2 ^ (- e))) in
      Some (if s then Qopp q else q)
  | _ => None
  end.

(** [table[key]] on an object literal: the value the literal gives the key,
    a member every object inherits from [Object.prototype], or undefined. *)
Inductive Member (A : Type) : Type :=
| Own (v : A)
| Inherited
| Undefined.
Arguments Own {A} v.
Arguments Inherited {A}.
Arguments Undefined {A}.

(** The names of [Object.prototype]. *)
Definition inherited : list string :=
  [ "constructor"; "__defineGetter__"; "__defineSetter__"; "hasOwnProperty";
    "__lookupGetter__"; "__lookupSetter__"; "isPrototypeOf";
    "propertyIsEnumerable"; "toString"; "valueOf"; "__proto__";
    "toLocaleString" ].

Fixpoint own {A : Type} (table : list (string * A)) (key : string) : option A :=
  match table with
  | [] => None
  | (k, v) :: rest => if String.eqb k key then Some v else own rest key
  end.

Definition prop {A : Type} (table : list (string * A)) (key : string) : Member A :=
  match own table key with
  | Some v => Own v
  | None => if bool_decide (key ∈ inherited) then Inherited else Undefined
  end.

(** [x || d] as an operand of a product, where [x] is [table[key]] of a
    table of numbers: a falsy number and undefined give [d]; an inherited
    member is a function or an object, which is truthy and is NaN as a
    number. *)
Definition or_num (x : Member float) (d : float) : float :=
  match x with
  | Own v => if truthy v then v else d
  | Inherited => nan
  | Undefined => d
  end.

(** [x || d] where [x] is an integer or [undefined]. *)
Definition or_int (x : option Z) (d : Z) : Z :=
  match x with
  | Some v => if v =? 0 then d else v
  | None => d
  end.

(** [s || d] on strings: the empty string is falsy. *)
Definition or_str (s d : string) : string :=
  if String.eqb s "" then d else s.

(** [arr.indexOf(x)], [-1] when absent. *)
Fixpoint indexOf {A : Type} `{EqDecision A} (arr : list A) (x : A) : Z :=
  match arr with
  | [] => -1
  | y :: rest =>
      if decide (y = x) then 0
      else let i := indexOf rest x in if i <? 0 then -1 else i + 1
  end.
Global Arguments indexOf : simpl never.

(** [arr.find(p)] and [arr.findIndex(p)]. *)
Definition find {A : Type} (P : A → Prop) `{∀ x, Decision (P x)}
    (arr : list A) : option A :=
  snd <$> list_find P arr.

Definition findIndex {A : Type} (P : A → Prop) `{∀ x, Decision (P x)}
    (arr : list A) : option nat :=
  fst <$> list_find P arr.

End JS.

(** ** Counting *)

Section Counting.
Context {A : Type} (P : A → Prop) `{∀ x, Decision (P x)}.

(** The number of elements of a list that satisfy [P]. *)
Definition count (l : list A) : nat := length (filter P l).

(** What one element adds to [count]. *)
Definition one_if (x : A) : nat := if decide (P x) then 1%nat else 0%nat.
End Counting.
Global Arguments count : simpl never.
Global Arguments one_if : simpl never.

(** ** Currency and time normalizer *)

Module Normalizer.

Definition exchangeRates : list (string * float) :=
  [ ("USD", 1%float); ("EUR", 1.1%float); ("INR", 0.012%float);
    ("GBP", 1.25%float); ("JPY", 0.0067%float); ("CNY", 0.14%float) ].

Definition convertToUSD (price : float) (currency : string) : float :=
  (price * JS.or_num (JS.prop exchangeRates currency) 1)%float.

Definition multipliers : list (string * float) :=
  [ ("days", 1%float); ("weeks", 7%float); ("months", 30%float) ].

Definition convertToDays (time : float) (unit : string) : float :=
  (time * JS.or_num (JS.prop multipliers unit) 1)%float.

End Normalizer.

(** ** The specification's reading of the amounts *)

Module Spec.

(** Modelled from the spec: the rate of a currency (USD 1, EUR 1.1,
    INR 0.012, any other code 1) and the amount in the base currency, as
    exact quantities. *)
Definition rate (currency : string) : Q :=
  if String.eqb currency "USD" then 1
  else if String.eqb currency "EUR" then 1.1
  else if String.eqb currency "INR" then 0.012
  else if String.eqb currency "GBP" then 1.25
  else if String.eqb currency "JPY" then 0.0067
  else if String.eqb currency "CNY" then 0.14
  else 1.

Definition inBase (price : Q) (currency : string) : Q := price * rate currency.

(** Modelled from the spec: "reject if candidate < 10% of target", both in
    the base currency. *)
Definition suspiciouslyLow (price : Q) (currency : string)
    (targetPrice : Q) (targetCurrency : string) : Prop :=
  (inBase price currency < inBase targetPrice targetCurrency * (1 # 10))%Q.
End Spec.

(** ** Signs of binary64 numbers *)

Module Binary64.

(** A number that is neither zero nor NaN and has the sign [s] ([true] for
    negative), as [Prim2SF] shows it. *)
Definition strictly (s : bool) (x : spec_float) : Prop :=
  match x with
  | S754_infinity s' | S754_finite s' _ _ => s' = s
  | _ => False
  end.
End Binary64.

(** ** Records of the stores *)

Module User.
Record t := mk {
  id : string;
  role : string;
  createdAt : Z
}.
End User.

Module Requirement.
Record t := mk {
  id : string;
  importerId : string;
  title : string;
  description : string;
  category : string;
  quantity : float;
  unit : string;
  targetPrice : option float;
  currency : string;
  deliveryLocation : string;
  paymentTerms : string;
  deliveryTerms : string;
  bidDeadline : option Z;
  status : string;
  bidCount : option Z;
  awardedBidId : option string;
  updatedAt : Z
}.

(** [r.bidCount = n; r.updatedAt = now] *)
Definition set_bidCount (n : Z) (now : Z) (r : t) : t :=
  mk (id r) (importerId r) (title r) (description r) (category r)
     (quantity r) (unit r) (targetPrice r) (currency r) (deliveryLocation r)
     (paymentTerms r) (deliveryTerms r) (bidDeadline r) (status r)
     (Some n) (awardedBidId r) now.

(** [r.status = 'awarded'; r.awardedBidId = bidId; r.updatedAt = now] *)
Definition award (bidId : string) (now : Z) (r : t) : t :=
  mk (id r) (importerId r) (title r) (description r) (category r)
     (quantity r) (unit r) (targetPrice r) (currency r) (deliveryLocation r)
     (paymentTerms r) (deliveryTerms r) (bidDeadline r) "awarded"
     (bidCount r) (Some bidId) now.
End Requirement.

Module Bid.
Record t := mk {
  id : string;
  requirementId : string;
  exporterId : string;
  price : float;
  currency : string;
  deliveryTime : float;
  deliveryTimeUnit : string;
  paymentTerms : string;
  deliveryTerms : string;
  additionalNotes : string;
  validUntil : option Z;
  status : string;
  createdAt : Z;
  updatedAt : Z;
  acceptedAt : option Z
}.

(** [b.status = st; b.updatedAt = now] *)
Definition set_status (st : string) (now : Z) (b : t) : t :=
  mk (id b) (requirementId b) (exporterId b) (price b) (currency b)
     (deliveryTime b) (deliveryTimeUnit b) (paymentTerms b) (deliveryTerms b)
     (additionalNotes b) (validUntil b) st (createdAt b) now (acceptedAt b).

(** [b.status = 'accepted'; b.acceptedAt = now; b.updatedAt = now] *)
Definition accept (now : Z) (b : t) : t :=
  mk (id b) (requirementId b) (exporterId b) (price b) (currency b)
     (deliveryTime b) (deliveryTimeUnit b) (paymentTerms b) (deliveryTerms b)
     (additionalNotes b) (validUntil b) "accepted" (createdAt b) now (Some now).
End Bid.

(** A reply of a handler: [res.status(code).json({message, ...payload})],
    [res.status(code).json({error})], or the 400 reply that carries the
    validator's [errors] array. *)
Inductive Reply (A : Type) : Type :=
| Ok (code : Z) (message : string) (payload : A)
| Error (code : Z) (error : string)
| ValidationErrors.
Arguments Ok {A} code message payload.
Arguments Error {A} code error.
Arguments ValidationErrors {A}.

Definition replyCode {A : Type} (r : Reply A) : Z :=
  match r with
  | Ok c _ _ => c
  | Error c _ => c
  | ValidationErrors => 400
  end.

(** A reply of a read handler: [res.json(body)], or
    [res.status(code).json({error})]. *)
Inductive Answer (A : Type) : Type :=
| Json (body : A)
| Failure (code : Z) (error : string).
Arguments Json {A} body.
Arguments Failure {A} code error.

(** ** routes/bidding.js *)

Module Bidding.
Import Normalizer.

(** The source of [Math.random]: the draws to come and how many were taken. *)
Record World := mkWorld {
  draws : nat → float;
  cursor : nat
}.

Definition Math_random (w : World) : float * World :=
  (draws w (cursor w), mkWorld (draws w) (S (cursor w))).

(** [getExporterReliability]; [now] is what [new Date()] reads. *)
Definition getExporterReliability (users : list User.t) (now : Z)
    (exporterId : string) (w : World) : float * World :=
  match JS.find (λ u, User.id u = exporterId) users with
  | None => (5%float, w)
  | Some exporter =>
      let accountAge :=
        JS.floor ((JS.ofZ now - JS.ofZ (User.createdAt exporter))
                  / (1000 * 60 * 60 * 24))%float in
      let baseScore := JS.min (accountAge / 30)%float 5%float in
      let '(r, w') := Math_random w in
      (JS.min (baseScore + r * 5)%float 10%float, w')
  end.

(** The comparison function that [rankBids] hands to [sort]. *)
Definition compareBids (users : list User.t) (now : Z) (a b : Bid.t)
    (w : World) : float * World :=
  let aPriceUSD := convertToUSD (Bid.price a) (Bid.currency a) in
  let bPriceUSD := convertToUSD (Bid.price b) (Bid.currency b) in
  if negb (aPriceUSD =? bPriceUSD)%float then ((aPriceUSD - bPriceUSD)%float, w)
  else
    let aDeliveryDays := convertToDays (Bid.deliveryTime a) (Bid.deliveryTimeUnit a) in
    let bDeliveryDays := convertToDays (Bid.deliveryTime b) (Bid.deliveryTimeUnit b) in
    if negb (aDeliveryDays =? bDeliveryDays)%float
    then ((aDeliveryDays - bDeliveryDays)%float, w)
    else
      let '(aReliability, w1) := getExporterReliability users now (Bid.exporterId a) w in
      let '(bReliability, w2) := getExporterReliability users now (Bid.exporterId b) w1 in
      ((bReliability - aReliability)%float, w2).

(** [Array.prototype.sort(comparefn)].  The language fixes the result for a
    consistent comparison function (sorted, and stable since ES2019) and
    leaves the sequence of calls to the engine; the model is an insertion
    sort from left to right: each element in turn is compared with the
    elements already placed and goes before the first one for which
    [comparefn] answers a negative number (an answer that is NaN counts as
    zero). *)
Section Sort.
Context {A : Type} (comparefn : A → A → World → float * World).

Fixpoint sort_insert (x : A) (placed : list A) (w : World) : list A * World :=
  match placed with
  | [] => ([x], w)
  | y :: rest =>
      let '(v, w1) := comparefn x y w in
      if (v <? 0)%float then (x :: y :: rest, w1)
      else let '(rest', w2) := sort_insert x rest w1 in (y :: rest', w2)
  end.

Fixpoint sort_from (placed : list A) (todo : list A) (w : World) : list A * World :=
  match todo with
  | [] => (placed, w)
  | x :: todo' =>
      let '(placed', w1) := sort_insert x placed w in
      sort_from placed' todo' w1
  end.

Definition Array_sort (arr : list A) (w : World) : list A * World :=
  sort_from [] arr w.
End Sort.

Definition rankBids (users : list User.t) (now : Z) (bids : list Bid.t)
    (w : World) : list Bid.t * World :=
  Array_sort (compareBids users now) bids w.

(** The objects [getBidsForRequirement] builds from the ranked bids:
    [{...bid, rank, priceUSD, deliveryDays, exporterReliability}]. *)
Record RankedBid := mkRanked {
  bid : Bid.t;
  rank : Z;
  priceUSD : float;
  deliveryDays : float;
  exporterReliability : float
}.

Fixpoint addRanking (users : list User.t) (now : Z) (index : Z)
    (ranked : list Bid.t) (w : World) : list RankedBid * World :=
  match ranked with
  | [] => ([], w)
  | b :: rest =>
      let '(rel, w1) := getExporterReliability users now (Bid.exporterId b) w in
      let '(rest', w2) := addRanking users now (index + 1) rest w1 in
      (mkRanked b (index + 1)
         (convertToUSD (Bid.price b) (Bid.currency b))
         (convertToDays (Bid.deliveryTime b) (Bid.deliveryTimeUnit b))
         rel :: rest', w2)
  end.

(** The ranking branch of [getBidsForRequirement]. *)
Definition rankedBids (users : list User.t) (now : Z) (bids : list Bid.t)
    (w : World) : list RankedBid * World :=
  let '(ranked, w1) := rankBids users now bids w in
  addRanking users now 0 ranked w1.

(** The two keys [compareBids] looks at before the reliability. *)
Definition priceOf (b : Bid.t) : float :=
  convertToUSD (Bid.price b) (Bid.currency b).

Definition daysOf (b : Bid.t) : float :=
  convertToDays (Bid.deliveryTime b) (Bid.deliveryTimeUnit b).

(** Both keys of a bid are numbers (neither is NaN). *)
Definition numbered (b : Bid.t) : Prop :=
  JS.isNaN (priceOf b) = false ∧ JS.isNaN (daysOf b) = false.

(** [a] is strictly cheaper than [b], or as cheap and strictly faster. *)
Definition beforeb (a b : Bid.t) : bool :=
  (priceOf a <? priceOf b)%float
  || ((priceOf a =? priceOf b)%float && (daysOf a <? daysOf b)%float).

(** [a] and [b] have the same normalized price and delivery time. *)
Definition tieb (a b : Bid.t) : bool :=
  (priceOf a =? priceOf b)%float && (daysOf a =? daysOf b)%float.

(** [b] does not come strictly before [a] by the two keys. *)
Definition notAfter (a b : Bid.t) : Prop := beforeb b a = false.

(** Ascending normalized price, then ascending normalized delivery time. *)
Definition keyLe (a b : Bid.t) : Prop :=
  (priceOf a <? priceOf b)%float = true
  ∨ ((priceOf a =? priceOf b)%float = true
     ∧ (daysOf a <=? daysOf b)%float = true).

(** The stable insertion sort by the two keys, to compare [rankBids] with. *)
Fixpoint placeByKey (x : Bid.t) (placed : list Bid.t) : list Bid.t :=
  match placed with
  | [] => [x]
  | y :: rest => if beforeb x y then x :: y :: rest else y :: placeByKey x rest
  end.

Fixpoint sortByKeyFrom (placed todo : list Bid.t) : list Bid.t :=
  match todo with
  | [] => placed
  | x :: todo' => sortByKeyFrom (placeByKey x placed) todo'
  end.

Definition sortByKey (bids : list Bid.t) : list Bid.t := sortByKeyFrom [] bids.

(** The exporter of a bid has no record in [users]. *)
Definition unknownExporter (users : list User.t) (b : Bid.t) : Prop :=
  JS.find (λ u, User.id u = Bid.exporterId b) users = None.

(** No two bids of the list tie on both keys, except bids of exporters
    without a user record. *)
Definition tiesUnscored (users : list User.t) (bids : list Bid.t) : Prop :=
  ForallOrdPairs
    (λ a b, tieb a b = true → unknownExporter users a ∧ unknownExporter users b)
    bids.

(** The bids of a list that tie with [z] on both keys, in the order of the
    list. *)
Definition tiedWith (z : Bid.t) (bids : list Bid.t) : list Bid.t :=
  filter (λ b, Is_true (tieb z b)) bids.

(** [validateBidIntegrity]; the module-level [requirements] is an argument. *)
Inductive Integrity : Type :=
| Valid
| NotValid (reason : string).

Definition validateBidIntegrity (requirements : list Requirement.t)
    (newBid : Bid.t) (existingBids : list Bid.t) : Integrity :=
  let exporterBids :=
    filter (λ b, Bid.exporterId b = Bid.exporterId newBid
                 ∧ Bid.requirementId b = Bid.requirementId newBid) existingBids in
  if (0 <? Z.of_nat (length exporterBids))
  then NotValid "Exporter has already submitted a bid for this requirement"
  else
    match JS.find (λ r, Requirement.id r = Bid.requirementId newBid) requirements with
    | Some requirement =>
        match Requirement.targetPrice requirement with
        | Some targetPrice =>
            if JS.truthy targetPrice then
              let targetPriceUSD := convertToUSD targetPrice (Requirement.currency requirement) in
              let bidPriceUSD := convertToUSD (Bid.price newBid) (Bid.currency newBid) in
              if (bidPriceUSD <? targetPriceUSD * 0.1)%float
              then NotValid "Bid price is suspiciously low"
              else Valid
            else Valid
        | None => Valid
        end
    | None => Valid
    end.

(** The request body of [submitBid] and [updateBid], as JSON carries it and
    after the sanitizers of [bidValidation] ([trim], [toDate]) have run:
    [price] is the number [parseFloat] reads, [deliveryTime] the integer
    whose digits [parseInt] reads. *)
Module Payload.
Record t := mk {
  requirementId : string;
  price : float;
  currency : string;
  deliveryTime : Z;
  deliveryTimeUnit : string;
  paymentTerms : option string;
  deliveryTerms : option string;
  additionalNotes : option string;
  validUntil : option Z
}.
End Payload.

(** [isUUID] of the validator: 8-4-4-4-12 hexadecimal digits. *)
Definition isHexDigit (c : ascii) : bool :=
  let n := Z.of_nat (nat_of_ascii c) in
  ((48 <=? n) && (n <=? 57)) || ((65 <=? n) && (n <=? 70)) || ((97 <=? n) && (n <=? 102)).

Fixpoint uuidShape (groups : list nat) (left : nat) (s : string) : bool :=
  match s, left with
  | EmptyString, O => match groups with [] => true | _ => false end
  | String c rest, O =>
      match groups with
      | g :: groups' => if Ascii.eqb c "-"%char then uuidShape groups' g rest else false
      | [] => false
      end
  | String c rest, S left' => isHexDigit c && uuidShape groups left' rest
  | EmptyString, S _ => false
  end.

Definition isUUID (s : string) : bool := uuidShape [4; 4; 4; 12]%nat 8%nat s.

Definition isIn (s : string) (allowed : list string) : bool :=
  bool_decide (s ∈ allowed).

Definition bidValidation (body : Payload.t) : bool :=
  negb (String.eqb (Payload.requirementId body) "")
  && isUUID (Payload.requirementId body)
  && (0 <=? Payload.price body)%float
  && isIn (Payload.currency body) ["USD"; "EUR"; "INR"; "GBP"; "JPY"; "CNY"]
  && (1 <=? Payload.deliveryTime body)
  && isIn (Payload.deliveryTimeUnit body) ["days"; "weeks"; "months"]
  && match Payload.additionalNotes body with
     | Some notes => Z.of_nat (String.length notes) <=? 1000
     | None => true
     end.

(** The two arrays the bid handlers read and write. *)
Record Store := mkStore {
  bids : list Bid.t;
  requirements : list Requirement.t
}.

(** [now > bidDeadline] on dates; an absent or invalid deadline compares
    false. *)
Definition deadlinePassed (now : Z) (bidDeadline : option Z) : bool :=
  match bidDeadline with
  | Some d => d <? now
  | None => false
  end.

Definition submitBid (userId : string) (now : Z) (uuid : string)
    (body : Payload.t) (s : Store) : Reply Bid.t * Store :=
  if negb (bidValidation body) then (ValidationErrors, s)
  else
    let requirementId := Payload.requirementId body in
    match JS.find (λ r, Requirement.id r = requirementId) (requirements s) with
    | None => (Error 404 "Requirement not found", s)
    | Some requirement =>
        if decide (Requirement.status requirement ≠ "active")
        then (Error 400 "Requirement is not accepting bids", s)
        else if deadlinePassed now (Requirement.bidDeadline requirement)
        then (Error 400 "Bid deadline has passed", s)
        else if decide (Requirement.importerId requirement = userId)
        then (Error 400 "Cannot bid on your own requirement", s)
        else
          let newBid :=
            Bid.mk uuid requirementId userId (Payload.price body)
              (Payload.currency body) (JS.ofZ (Payload.deliveryTime body))
              (Payload.deliveryTimeUnit body)
              (default "" (Payload.paymentTerms body))
              (default "" (Payload.deliveryTerms body))
              (default "" (Payload.additionalNotes body))
              (Payload.validUntil body) "active" now now None in
          match validateBidIntegrity (requirements s) newBid (bids s) with
          | NotValid reason => (Error 400 reason, s)
          | Valid =>
              let bids' := (bids s ++ [newBid])%list in
              let requirements' :=
                match JS.findIndex (λ r, Requirement.id r = requirementId) (requirements s) with
                | Some requirementIndex =>
                    alter (λ r, Requirement.set_bidCount
                                  (JS.or_int (Requirement.bidCount r) 0 + 1) now r)
                          requirementIndex (requirements s)
                | None => requirements s
                end in
              (Ok 201 "Bid submitted successfully" newBid,
               mkStore bids' requirements')
          end
    end.

Definition updateBid (userId : string) (now : Z) (id : string)
    (body : Payload.t) (s : Store) : Reply (option Bid.t) * Store :=
  match list_find (λ b, Bid.id b = id ∧ Bid.exporterId b = userId) (bids s) with
  | None => (Error 404 "Bid not found or unauthorized", s)
  | Some (bidIndex, bid) =>
      if decide (Bid.status bid ≠ "active")
      then (Error 400 "Cannot update inactive bid", s)
      else
        match JS.find (λ r, Requirement.id r = Bid.requirementId bid) (requirements s) with
        | None => (Error 400 "Requirement is no longer accepting bids", s)
        | Some requirement =>
            if decide (Requirement.status requirement ≠ "active")
            then (Error 400 "Requirement is no longer accepting bids", s)
            else if deadlinePassed now (Requirement.bidDeadline requirement)
            then (Error 400 "Bid deadline has passed", s)
            else if negb (bidValidation body) then (ValidationErrors, s)
            else
              let updated :=
                Bid.mk (Bid.id bid) (Bid.requirementId bid) (Bid.exporterId bid)
                  (if JS.truthy (Payload.price body) then Payload.price body
                   else Bid.price bid)
                  (JS.or_str (Payload.currency body) (Bid.currency bid))
                  (if Payload.deliveryTime body =? 0 then Bid.deliveryTime bid
                   else JS.ofZ (Payload.deliveryTime body))
                  (JS.or_str (Payload.deliveryTimeUnit body) (Bid.deliveryTimeUnit bid))
                  (default (Bid.paymentTerms bid) (Payload.paymentTerms body))
                  (default (Bid.deliveryTerms bid) (Payload.deliveryTerms body))
                  (default (Bid.additionalNotes bid) (Payload.additionalNotes body))
                  (match Payload.validUntil body with
                   | Some v => Some v
                   | None => Bid.validUntil bid
                   end)
                  (Bid.status bid) (Bid.createdAt bid) now (Bid.acceptedAt bid) in
              let bids' := <[bidIndex := updated]> (bids s) in
              (Ok 200 "Bid updated successfully" (bids' !! bidIndex),
               mkStore bids' (requirements s))
        end
  end.

Definition withdrawBid (userId : string) (now : Z) (id : string)
    (s : Store) : Reply (option Bid.t) * Store :=
  match list_find (λ b, Bid.id b = id ∧ Bid.exporterId b = userId) (bids s) with
  | None => (Error 404 "Bid not found or unauthorized", s)
  | Some (bidIndex, bid) =>
      if decide (Bid.status bid ≠ "active")
      then (Error 400 "Cannot withdraw inactive bid", s)
      else
        let bids' := alter (Bid.set_status "withdrawn" now) bidIndex (bids s) in
        let requirements' :=
          match JS.findIndex (λ r, Requirement.id r = Bid.requirementId bid) (requirements s) with
          | Some requirementIndex =>
              alter (λ r, Requirement.set_bidCount
                            (Z.max (JS.or_int (Requirement.bidCount r) 1 - 1) 0) now r)
                    requirementIndex (requirements s)
          | None => requirements s
          end in
        (Ok 200 "Bid withdrawn successfully" (bids' !! bidIndex),
         mkStore bids' requirements')
  end.

(** The checks of [submitBid] that come before the integrity check all
    pass: the body is valid, the requirement exists, is active and before its
    deadline, and is not the caller's own. *)
Definition admissible (userId : string) (now : Z) (body : Payload.t)
    (s : Store) : Prop :=
  bidValidation body = true
  ∧ ∃ requirement,
      JS.find (λ r, Requirement.id r = Payload.requirementId body) (requirements s)
        = Some requirement
      ∧ Requirement.status requirement = "active"
      ∧ deadlinePassed now (Requirement.bidDeadline requirement) = false
      ∧ Requirement.importerId requirement ≠ userId.

(** The callback of the [forEach] in [acceptBid]. *)
Definition rejectSibling (requirementId id : string) (now : Z) (b : Bid.t) : Bid.t :=
  if decide (Bid.requirementId b = requirementId ∧ Bid.id b ≠ id
             ∧ Bid.status b = "active")
  then Bid.set_status "rejected" now b
  else b.

Definition acceptBid (userId : string) (now : Z) (id : string) (s : Store)
    : Reply (option Bid.t * option Requirement.t) * Store :=
  match JS.find (λ b, Bid.id b = id) (bids s) with
  | None => (Error 404 "Bid not found", s)
  | Some bid =>
      match JS.find (λ r, Requirement.id r = Bid.requirementId bid) (requirements s) with
      | None => (Error 403 "Unauthorized to accept this bid", s)
      | Some requirement =>
          if decide (Requirement.importerId requirement ≠ userId)
          then (Error 403 "Unauthorized to accept this bid", s)
          else if decide (Requirement.status requirement ≠ "active")
          then (Error 400 "Requirement is not active", s)
          else if decide (Bid.status bid ≠ "active")
          then (Error 400 "Bid is not active", s)
          else
            match JS.findIndex (λ b, Bid.id b = id) (bids s) with
            | None => (Error 500 "Internal server error", s)
            | Some bidIndex =>
                let accepted := alter (Bid.accept now) bidIndex (bids s) in
                let bids' := rejectSibling (Bid.requirementId bid) id now <$> accepted in
                let requirementIndex :=
                  JS.findIndex (λ r, Requirement.id r = Bid.requirementId bid) (requirements s) in
                let requirements' :=
                  match requirementIndex with
                  | Some i => alter (Requirement.award id now) i (requirements s)
                  | None => requirements s
                  end in
                (Ok 200 "Bid accepted successfully"
                   (bids' !! bidIndex, requirementIndex ≫= λ i, requirements' !! i),
                 mkStore bids' requirements')
            end
      end
  end.

(** One call of a handler that can change [bids] or [requirements]. *)
Inductive step : Store → Store → Prop :=
| step_submit userId now uuid body s :
    step s (snd (submitBid userId now uuid body s))
| step_update userId now id body s :
    step s (snd (updateBid userId now id body s))
| step_withdraw userId now id s :
    step s (snd (withdrawBid userId now id s))
| step_accept userId now id s :
    step s (snd (acceptBid userId now id s)).

(** The stores the handlers can build from a store without accepted bids,
    such as the one the modules start with (its bids are 'submitted'). *)
Definition initial (s : Store) : Prop :=
  ∀ b, b ∈ bids s → Bid.status b ≠ "accepted".

Definition reachable (s : Store) : Prop :=
  ∃ s0, initial s0 ∧ rtc step s0 s.

(** The bids on requirement [R] that have status accepted. *)
Definition acceptedOn (R : string) (s : Store) : list Bid.t :=
  filter (λ b, Bid.requirementId b = R ∧ Bid.status b = "accepted") (bids s).

(** An existing bid of the same exporter on the same requirement. *)
Definition sameExporterBid (newBid b : Bid.t) : Prop :=
  Bid.exporterId b = Bid.exporterId newBid
  ∧ Bid.requirementId b = Bid.requirementId newBid.

(** A bid on requirement [R] that has status accepted. *)
Definition acceptedFor (R : string) (b : Bid.t) : Prop :=
  Bid.requirementId b = R ∧ Bid.status b = "accepted".

Global Instance acceptedFor_dec R b : Decision (acceptedFor R b).
Proof. unfold acceptedFor. apply _. Defined.

(** The invariant of the bid store: a requirement has at most one accepted
    bid, and a requirement with an accepted bid is found and is no longer
    active. *)
Definition awardedOnce (s : Store) : Prop :=
  ∀ R,
    (count (acceptedFor R) (bids s) <= 1)%nat
    ∧ ((0 < count (acceptedFor R) (bids s))%nat →
       ∃ r, JS.find (λ r, Requirement.id r = R) (requirements s) = Some r
            ∧ Requirement.status r ≠ "active").

(** What a handler does to [requirements]: nothing, or fields of one
    element are assigned, its [id] never and its [status] only to
    ['awarded']. *)
Inductive requirementsChange (reqs : list Requirement.t)
    : list Requirement.t → Prop :=
| requirements_same : requirementsChange reqs reqs
| requirements_alter f i :
    (∀ r, Requirement.id (f r) = Requirement.id r) →
    (∀ r, Requirement.status (f r) = Requirement.status r
          ∨ Requirement.status (f r) = "awarded") →
    requirementsChange reqs (alter f i reqs).

(** What the handlers do to a stored bid: they never assign its identifier,
    its requirement, its exporter or its creation instant, and they assign
    other fields only while the bid is active; the status they give is
    active, withdrawn, accepted or rejected. *)
Definition bidChange (b b' : Bid.t) : Prop :=
  Bid.id b' = Bid.id b
  ∧ Bid.requirementId b' = Bid.requirementId b
  ∧ Bid.exporterId b' = Bid.exporterId b
  ∧ Bid.createdAt b' = Bid.createdAt b
  ∧ (b' = b
     ∨ (Bid.status b = "active"
        ∧ Bid.status b' ∈ ["active"; "withdrawn"; "accepted"; "rejected"])).

(** A bid on requirement [R] that was not withdrawn. *)
Definition standing (R : string) (b : Bid.t) : Prop :=
  Bid.requirementId b = R ∧ Bid.status b ≠ "withdrawn".

Global Instance standing_dec R b : Decision (standing R b).
Proof. unfold standing. apply _. Defined.

(** The [bidCount] of every requirement that [find] reaches is the number
    of bids on it that were not withdrawn. *)
Definition countsAgree (s : Store) : Prop :=
  ∀ R r,
    JS.find (λ r, Requirement.id r = R) (requirements s) = Some r →
    JS.or_int (Requirement.bidCount r) 0 = Z.of_nat (count (standing R) (bids s)).
End Bidding.

(** ** routes/orders.js *)

Module Phase.
Inductive t : Type :=
| confirmation | payment | production | inspection | shipping | delivery.

Global Instance eq_dec : EqDecision t.
Proof. solve_decision. Defined.
End Phase.

Module Document.
Record t := mk {
  id : string;
  filename : string;
  originalName : string;
  path : string;
  size : Z;
  uploadedBy : string;
  uploadedAt : Z
}.
End Document.

(** One entry of [order.phases]. *)
Module PhaseRecord.
Record t := mk {
  status : string;
  startedAt : option Z;
  completedAt : option Z;
  documents : list Document.t;
  notes : string;
  updatedBy : option string
}.

Definition not_started : t := mk "not_started" None None [] "" None.

(** [p.status = 'completed'; p.completedAt = now; p.updatedBy = userId] *)
Definition complete (now : Z) (userId : string) (p : t) : t :=
  mk "completed" (startedAt p) (Some now) (documents p) (notes p) (Some userId).

(** [p.status = 'pending'; p.startedAt = now; p.updatedBy = userId] *)
Definition start (now : Z) (userId : string) (p : t) : t :=
  mk "pending" (Some now) (completedAt p) (documents p) (notes p) (Some userId).

Definition set_notes (n : string) (p : t) : t :=
  mk (status p) (startedAt p) (completedAt p) (documents p) n (updatedBy p).

(** [p.documents.push(...docs)] *)
Definition push_documents (docs : list Document.t) (p : t) : t :=
  mk (status p) (startedAt p) (completedAt p) (documents p ++ docs)%list
     (notes p) (updatedBy p).

Definition set_updatedBy (userId : string) (p : t) : t :=
  mk (status p) (startedAt p) (completedAt p) (documents p) (notes p) (Some userId).
End PhaseRecord.

(** The object [order.phases], one key per phase. *)
Module Phases.
Record t := mk {
  confirmation : PhaseRecord.t;
  payment : PhaseRecord.t;
  production : PhaseRecord.t;
  inspection : PhaseRecord.t;
  shipping : PhaseRecord.t;
  delivery : PhaseRecord.t
}.

(** [phases[phase]] *)
Definition get (ps : t) (phase : Phase.t) : PhaseRecord.t :=
  match phase with
  | Phase.confirmation => confirmation ps
  | Phase.payment => payment ps
  | Phase.production => production ps
  | Phase.inspection => inspection ps
  | Phase.shipping => shipping ps
  | Phase.delivery => delivery ps
  end.

(** [phases[phase]] after the assignments [f] to its fields. *)
Definition alter (f : PhaseRecord.t → PhaseRecord.t) (phase : Phase.t) (ps : t) : t :=
  match phase with
  | Phase.confirmation =>
      mk (f (confirmation ps)) (payment ps) (production ps) (inspection ps) (shipping ps) (delivery ps)
  | Phase.payment =>
      mk (confirmation ps) (f (payment ps)) (production ps) (inspection ps) (shipping ps) (delivery ps)
  | Phase.production =>
      mk (confirmation ps) (payment ps) (f (production ps)) (inspection ps) (shipping ps) (delivery ps)
  | Phase.inspection =>
      mk (confirmation ps) (payment ps) (production ps) (f (inspection ps)) (shipping ps) (delivery ps)
  | Phase.shipping =>
      mk (confirmation ps) (payment ps) (production ps) (inspection ps) (f (shipping ps)) (delivery ps)
  | Phase.delivery =>
      mk (confirmation ps) (payment ps) (production ps) (inspection ps) (shipping ps) (f (delivery ps))
  end.
End Phases.

Module Order.
Record t := mk {
  id : string;
  bidId : string;
  requirementId : string;
  exporterId : string;
  importerId : string;
  title : string;
  description : string;
  category : string;
  quantity : float;
  unit : string;
  price : float;
  currency : string;
  totalValue : float;
  deliveryLocation : string;
  deliveryTime : float;
  deliveryTimeUnit : string;
  estimatedDelivery : Z;
  paymentTerms : string;
  deliveryTerms : string;
  currentPhase : Phase.t;
  status : string;
  phases : Phases.t;
  createdAt : Z;
  updatedAt : Z;
  cancellationReason : option string;
  cancelledBy : option string;
  cancelledAt : option Z
}.

(** The order with its mutable fields replaced. *)
Definition rebuild (o : t) (estimatedDelivery' : Z) (currentPhase' : Phase.t)
    (status' : string) (phases' : Phases.t) (updatedAt' : Z)
    (reason : option string) (by_ : option string) (at_ : option Z) : t :=
  mk (id o) (bidId o) (requirementId o) (exporterId o) (importerId o)
     (title o) (description o) (category o) (quantity o) (unit o) (price o)
     (currency o) (totalValue o) (deliveryLocation o) (deliveryTime o)
     (deliveryTimeUnit o) estimatedDelivery' (paymentTerms o) (deliveryTerms o)
     currentPhase' status' phases' (createdAt o) updatedAt' reason by_ at_.

Definition set_phases (ps : Phases.t) (o : t) : t :=
  rebuild o (estimatedDelivery o) (currentPhase o) (status o) ps (updatedAt o)
    (cancellationReason o) (cancelledBy o) (cancelledAt o).

Definition set_currentPhase (p : Phase.t) (o : t) : t :=
  rebuild o (estimatedDelivery o) p (status o) (phases o) (updatedAt o)
    (cancellationReason o) (cancelledBy o) (cancelledAt o).

Definition set_status (st : string) (o : t) : t :=
  rebuild o (estimatedDelivery o) (currentPhase o) st (phases o) (updatedAt o)
    (cancellationReason o) (cancelledBy o) (cancelledAt o).

Definition set_estimatedDelivery (d : Z) (o : t) : t :=
  rebuild o d (currentPhase o) (status o) (phases o) (updatedAt o)
    (cancellationReason o) (cancelledBy o) (cancelledAt o).

Definition set_updatedAt (now : Z) (o : t) : t :=
  rebuild o (estimatedDelivery o) (currentPhase o) (status o) (phases o) now
    (cancellationReason o) (cancelledBy o) (cancelledAt o).

(** [o.status = 'cancelled'; o.cancellationReason = reason;
     o.cancelledBy = userId; o.cancelledAt = now; o.updatedAt = now] *)
Definition cancel (reason userId : string) (now : Z) (o : t) : t :=
  rebuild o (estimatedDelivery o) (currentPhase o) "cancelled" (phases o) now
    (Some reason) (Some userId) (Some now).

(** [o.phases[phase]] after the assignments [f]. *)
Definition alter_phase (f : PhaseRecord.t → PhaseRecord.t) (phase : Phase.t) (o : t) : t :=
  set_phases (Phases.alter f phase (phases o)) o.
End Order.

Module Orders.

Definition ORDER_PHASES : list Phase.t :=
  [Phase.confirmation; Phase.payment; Phase.production; Phase.inspection;
   Phase.shipping; Phase.delivery].

Definition phaseName (p : Phase.t) : string :=
  match p with
  | Phase.confirmation => "confirmation"
  | Phase.payment => "payment"
  | Phase.production => "production"
  | Phase.inspection => "inspection"
  | Phase.shipping => "shipping"
  | Phase.delivery => "delivery"
  end.

(** The phase a string names, if it is one of [ORDER_PHASES]. *)
Definition phaseOfName (name : string) : option Phase.t :=
  JS.find (λ p, phaseName p = name) ORDER_PHASES.

(** The request body of [updateOrderPhase]. *)
Module Update.
Record t := mk {
  phase : option string;
  status : option string;
  notes : option string;
  estimatedDelivery : option Z
}.
End Update.

Definition orderUpdateValidation (body : Update.t) : bool :=
  match Update.phase body with
  | Some name => bool_decide (is_Some (phaseOfName name))
  | None => true
  end
  && match Update.status body with
     | Some st => Bidding.isIn st ["active"; "completed"; "cancelled"; "disputed"]
     | None => true
     end
  && match Update.notes body with
     | Some n => Z.of_nat (String.length n) <=? 2000
     | None => true
     end.

(** A file of [req.files], with the identifier [uuidv4] gives it. *)
Record Upload := mkUpload {
  uuid : string;
  filename : string;
  originalname : string;
  path : string;
  size : Z
}.

Definition toDocument (userId : string) (now : Z) (file : Upload) : Document.t :=
  Document.mk (uuid file) (filename file) (originalname file) (path file)
    (size file) userId now.

(** What a call of [createOrderFromBid] does: return the order or throw. *)
Inductive Outcome : Type :=
| Returned (order : Order.t)
| Thrown (message : string).

(** [createOrderFromBid], called with a bid identifier; [now] is what
    [Date.now()] and [new Date()] read.  [toISOString] throws the RangeError
    "Invalid time value" on an invalid date, before anything is pushed. *)
Definition createOrderFromBid (bids : list Bid.t)
    (requirements : list Requirement.t) (users : list User.t)
    (now : Z) (uuid : string) (bidId : string) (orders : list Order.t)
    : Outcome * list Order.t :=
  match JS.find (λ b, Bid.id b = bidId ∧ Bid.status b = "accepted") bids with
  | None => (Thrown "Accepted bid not found", orders)
  | Some bid =>
      match JS.find (λ r, Requirement.id r = Bid.requirementId bid) requirements with
      | None => (Thrown "Requirement not found", orders)
      | Some requirement =>
          match JS.find (λ u, User.id u = Bid.exporterId bid) users,
                JS.find (λ u, User.id u = Requirement.importerId requirement) users with
          | Some exporter, Some importer =>
              match JS.timeClip
                      (JS.ofZ now
                       + Bid.deliveryTime bid
                         * (if decide (Bid.deliveryTimeUnit bid = "days") then 1
                            else if decide (Bid.deliveryTimeUnit bid = "weeks") then 7
                            else 30)
                         * 24 * 60 * 60 * 1000)%float with
              | None => (Thrown "Invalid time value", orders)
              | Some estimatedDelivery =>
                  let started :=
                    PhaseRecord.mk "pending" (Some now) None [] "" None in
                  let newOrder :=
                    Order.mk uuid (Bid.id bid) (Requirement.id requirement)
                      (Bid.exporterId bid) (Requirement.importerId requirement)
                      (Requirement.title requirement)
                      (Requirement.description requirement)
                      (Requirement.category requirement)
                      (Requirement.quantity requirement)
                      (Requirement.unit requirement)
                      (Bid.price bid) (Bid.currency bid)
                      (Bid.price bid * Requirement.quantity requirement)%float
                      (Requirement.deliveryLocation requirement)
                      (Bid.deliveryTime bid) (Bid.deliveryTimeUnit bid)
                      estimatedDelivery
                      (JS.or_str (Bid.paymentTerms bid)
                         (JS.or_str (Requirement.paymentTerms requirement) ""))
                      (JS.or_str (Bid.deliveryTerms bid)
                         (JS.or_str (Requirement.deliveryTerms requirement) ""))
                      Phase.confirmation "active"
                      (Phases.mk started PhaseRecord.not_started
                         PhaseRecord.not_started PhaseRecord.not_started
                         PhaseRecord.not_started PhaseRecord.not_started)
                      now now None None None in
                  (Returned newOrder, (orders ++ [newOrder])%list)
              end
          | _, _ => (Thrown "User not found", orders)
          end
      end
  end.

(** The predicate of the [findIndex] the order handlers share. *)
Definition partyTo (id userId : string) (o : Order.t) : Prop :=
  Order.id o = id ∧ (Order.exporterId o = userId ∨ Order.importerId o = userId).

Global Instance partyTo_dec id userId o : Decision (partyTo id userId o).
Proof. unfold partyTo. apply _. Defined.

(** The body of [if (phase) { ... }] in [updateOrderPhase], past its two
    checks. *)
Definition advance (userId : string) (now : Z) (phase : Phase.t) (order : Order.t)
    : Order.t :=
  let currentPhaseIndex := JS.indexOf ORDER_PHASES (Order.currentPhase order) in
  let newPhaseIndex := JS.indexOf ORDER_PHASES phase in
  let order1 :=
    if decide (PhaseRecord.status (Phases.get (Order.phases order) (Order.currentPhase order))
               = "pending")
    then Order.alter_phase (PhaseRecord.complete now userId) (Order.currentPhase order) order
    else order in
  if currentPhaseIndex <? newPhaseIndex
  then Order.alter_phase (PhaseRecord.start now userId) phase
         (Order.set_currentPhase phase order1)
  else order1.

(** The rest of [updateOrderPhase], from the notes to the completion check. *)
Definition annotate (userId : string) (now : Z) (body : Update.t)
    (documents : list Document.t) (order : Order.t) : Order.t :=
  let order1 :=
    match Update.notes body with
    | Some n =>
        if String.eqb n "" then order
        else Order.alter_phase (PhaseRecord.set_notes n) (Order.currentPhase order) order
    | None => order
    end in
  let order2 :=
    if 0 <? Z.of_nat (length documents)
    then Order.alter_phase (PhaseRecord.push_documents documents)
           (Order.currentPhase order1) order1
    else order1 in
  let order3 :=
    match Update.estimatedDelivery body with
    | Some d => Order.set_estimatedDelivery d order2
    | None => order2
    end in
  let order4 :=
    Order.set_updatedAt now
      (Order.alter_phase (PhaseRecord.set_updatedBy userId)
         (Order.currentPhase order3) order3) in
  if decide (Order.currentPhase order4 = Phase.delivery
             ∧ PhaseRecord.status (Phases.delivery (Order.phases order4)) = "completed")
  then Order.set_status "completed" order4
  else order4.

(** The order [updateOrderPhase] stores once its checks have passed. *)
Definition updated (userId : string) (now : Z) (body : Update.t)
    (files : option (list Upload)) (o : Order.t) : Order.t :=
  annotate userId now body
    (match files with
     | Some fs => toDocument userId now <$> fs
     | None => []
     end)
    (match Update.phase body ≫= phaseOfName with
     | Some phase => advance userId now phase o
     | None => o
     end).

Definition updateOrderPhase (userId : string) (now : Z) (id : string)
    (body : Update.t) (files : option (list Upload)) (orders : list Order.t)
    : Reply Order.t * list Order.t :=
  if negb (orderUpdateValidation body) then (ValidationErrors, orders)
  else
    match list_find (partyTo id userId) orders with
    | None => (Error 404 "Order not found or unauthorized", orders)
    | Some (orderIndex, order) =>
        if decide (Order.status order ≠ "active")
        then (Error 400 "Cannot update inactive order", orders)
        else
          let documents :=
            match files with
            | Some fs => toDocument userId now <$> fs
            | None => []
            end in
          let finish (order' : Order.t) :=
            let order'' := annotate userId now body documents order' in
            (Ok 200 "Order updated successfully" order'',
             <[orderIndex := order'']> orders) in
          match Update.phase body ≫= phaseOfName with
          | Some phase =>
              let currentPhaseIndex := JS.indexOf ORDER_PHASES (Order.currentPhase order) in
              let newPhaseIndex := JS.indexOf ORDER_PHASES phase in
              if newPhaseIndex <? currentPhaseIndex
              then (Error 400 "Cannot move to previous phase", orders)
              else if currentPhaseIndex + 1 <? newPhaseIndex
              then (Error 400 "Cannot skip phases", orders)
              else finish (advance userId now phase order)
          | None => finish order
          end
    end.

Definition uploadOrderDocuments (userId : string) (now : Z) (id : string)
    (phase : string) (files : option (list Upload)) (orders : list Order.t)
    : Reply (list Document.t * string) * list Order.t :=
  match phaseOfName phase with
  | None => (Error 400 "Invalid phase", orders)
  | Some ph =>
      match list_find (partyTo id userId) orders with
      | None => (Error 404 "Order not found or unauthorized", orders)
      | Some (orderIndex, order) =>
          if decide (Order.status order ≠ "active")
          then (Error 400 "Cannot upload documents to inactive order", orders)
          else
            let documents :=
              match files with
              | Some fs => toDocument userId now <$> fs
              | None => []
              end in
            if decide (length documents = 0%nat)
            then (Error 400 "No documents uploaded", orders)
            else
              let order' :=
                Order.set_updatedAt now
                  (Order.alter_phase
                     (λ p, PhaseRecord.set_updatedBy userId
                             (PhaseRecord.push_documents documents p))
                     ph order) in
              (Ok 200 "Documents uploaded successfully" (documents, phase),
               <[orderIndex := order']> orders)
      end
  end.

Definition cancelOrder (userId : string) (now : Z) (id : string)
    (reason : option string) (orders : list Order.t)
    : Reply Order.t * list Order.t :=
  match list_find (partyTo id userId) orders with
  | None => (Error 404 "Order not found or unauthorized", orders)
  | Some (orderIndex, order) =>
      if decide (Order.status order ≠ "active")
      then (Error 400 "Cannot cancel inactive order", orders)
      else
        let currentPhaseIndex := JS.indexOf ORDER_PHASES (Order.currentPhase order) in
        if 2 <? currentPhaseIndex
        then (Error 400 "Cannot cancel order in current phase", orders)
        else
          let order' := Order.cancel (default "" reason) userId now order in
          (Ok 200 "Order cancelled successfully" order',
           <[orderIndex := order']> orders)
  end.

(** One call of a handler that can change [orders]. *)
Inductive step : list Order.t → list Order.t → Prop :=
| step_create bids requirements users now uuid bidId orders :
    step orders
      (snd (createOrderFromBid bids requirements users now uuid bidId orders))
| step_update userId now id body files orders :
    step orders (snd (updateOrderPhase userId now id body files orders))
| step_upload userId now id phase files orders :
    step orders (snd (uploadOrderDocuments userId now id phase files orders))
| step_cancel userId now id reason orders :
    step orders (snd (cancelOrder userId now id reason orders)).

(** The stores the handlers can build, from the empty array of the module. *)
Definition reachable (orders : list Order.t) : Prop := rtc step [] orders.

Definition phaseIndex (o : Order.t) : Z :=
  JS.indexOf ORDER_PHASES (Order.currentPhase o).

Definition phaseStatus (o : Order.t) (p : Phase.t) : string :=
  PhaseRecord.status (Phases.get (Order.phases o) p).

(** The shape of [order.phases] the specification states for an active
    order: the current phase is the one pending phase, the phases before it
    are completed and the phases after it are not started. *)
Definition onePending (o : Order.t) : Prop :=
  Order.status o = "active" →
  phaseStatus o (Order.currentPhase o) = "pending"
  ∧ (∀ p, phaseStatus o p = "pending" → p = Order.currentPhase o)
  ∧ (∀ p, JS.indexOf ORDER_PHASES p < phaseIndex o → phaseStatus o p = "completed")
  ∧ (∀ p, phaseIndex o < JS.indexOf ORDER_PHASES p → phaseStatus o p = "not_started").

(** The shape the handlers keep: as above, but the current phase may
    already be completed. *)
Definition phasesShape (o : Order.t) : Prop :=
  (phaseStatus o (Order.currentPhase o) = "pending"
   ∨ phaseStatus o (Order.currentPhase o) = "completed")
  ∧ (∀ p, phaseStatus o p = "pending" → p = Order.currentPhase o)
  ∧ (∀ p, JS.indexOf ORDER_PHASES p < phaseIndex o → phaseStatus o p = "completed")
  ∧ (∀ p, phaseIndex o < JS.indexOf ORDER_PHASES p → phaseStatus o p = "not_started").

Definition phasesInOrder (o : Order.t) : Prop :=
  Order.status o = "active" → phasesShape o.

(** The phases in which [cancelOrder] lets an order be cancelled, and the
    later ones. *)
Definition inWindow (p : Phase.t) : Prop :=
  p = Phase.confirmation ∨ p = Phase.payment ∨ p = Phase.production.

Definition pastWindow (p : Phase.t) : Prop :=
  p = Phase.inspection ∨ p = Phase.shipping ∨ p = Phase.delivery.

(** How a stored order relates to what a handler puts in its place. *)
Definition evolves (o o' : Order.t) : Prop :=
  Order.id o' = Order.id o
  ∧ phaseIndex o <= phaseIndex o'
  ∧ (phasesInOrder o → phasesInOrder o').

(** A call either leaves the array as it is, replaces one order by a later
    version of it, or pushes a new order that is in the creation state. *)
Inductive change (orders : list Order.t) : list Order.t → Prop :=
| change_none : change orders orders
| change_one i o o' :
    orders !! i = Some o → evolves o o' → change orders (<[i := o']> orders)
| change_push o :
    phasesShape o → phaseIndex o = 0 → change orders (orders ++ [o]).

(** What a handler puts in the place of the active order it has found:
    the order [updateOrderPhase] stores, the order with the documents
    [uploadOrderDocuments] pushes, or the order [cancelOrder] cancels. *)
Inductive revision (o : Order.t) : Order.t → Prop :=
| revision_update userId now body files :
    (∀ phase, Update.phase body ≫= phaseOfName = Some phase →
       phaseIndex o <= JS.indexOf ORDER_PHASES phase <= phaseIndex o + 1) →
    revision o (updated userId now body files o)
| revision_upload userId now documents phase :
    documents ≠ [] →
    revision o
      (Order.set_updatedAt now
         (Order.alter_phase
            (λ p, PhaseRecord.set_updatedBy userId
                    (PhaseRecord.push_documents documents p))
            phase o))
| revision_cancel reason userId now :
    phaseIndex o <= 2 →
    revision o (Order.cancel reason userId now o).

(** The order [createOrderFromBid] pushes. *)
Definition created (o : Order.t) : Prop :=
  Order.status o = "active"
  ∧ Order.currentPhase o = Phase.confirmation
  ∧ (∃ now, Phases.confirmation (Order.phases o)
            = PhaseRecord.mk "pending" (Some now) None [] "" None)
  ∧ (∀ p, p ≠ Phase.confirmation →
          Phases.get (Order.phases o) p = PhaseRecord.not_started)
  ∧ Order.cancellationReason o = None
  ∧ Order.cancelledBy o = None
  ∧ Order.cancelledAt o = None.

(** What one call does to the array: nothing, a revision of one active
    order in place, or a new order at the end. *)
Inductive effect (orders : list Order.t) : list Order.t → Prop :=
| effect_none : effect orders orders
| effect_revise i o o' :
    orders !! i = Some o → Order.status o = "active" → revision o o' →
    effect orders (<[i := o']> orders)
| effect_push o : created o → effect orders (orders ++ [o]).

(** The instants of a phase record agree with its status. *)
Definition dated (r : PhaseRecord.t) : Prop :=
  (PhaseRecord.status r = "not_started"
   ∧ PhaseRecord.startedAt r = None ∧ PhaseRecord.completedAt r = None)
  ∨ (PhaseRecord.status r = "pending"
     ∧ is_Some (PhaseRecord.startedAt r) ∧ PhaseRecord.completedAt r = None)
  ∨ (PhaseRecord.status r = "completed"
     ∧ is_Some (PhaseRecord.startedAt r) ∧ is_Some (PhaseRecord.completedAt r)).

(** The delivery phase is the current phase and is completed. *)
Definition delivered (o : Order.t) : Prop :=
  Order.currentPhase o = Phase.delivery
  ∧ phaseStatus o Phase.delivery = "completed".

(** How the fields of an order agree with one another. *)
Definition consistent (o : Order.t) : Prop :=
  phasesShape o
  ∧ (∀ p, dated (Phases.get (Order.phases o) p))
  ∧ (Order.status o = "active" ∨ Order.status o = "completed"
     ∨ Order.status o = "cancelled")
  ∧ (Order.status o = "completed" ↔ delivered o)
  ∧ (Order.status o = "cancelled" →
     phaseIndex o <= 2 ∧ is_Some (Order.cancellationReason o)
     ∧ is_Some (Order.cancelledBy o) ∧ is_Some (Order.cancelledAt o))
  ∧ (Order.status o ≠ "cancelled" →
     Order.cancellationReason o = None ∧ Order.cancelledBy o = None
     ∧ Order.cancelledAt o = None).

(** The fields of an order that no handler assigns. *)
Definition terms (o : Order.t) :=
  (Order.id o, Order.bidId o, Order.requirementId o, Order.exporterId o,
   Order.importerId o, Order.title o, Order.description o, Order.category o,
   Order.quantity o, Order.unit o, Order.price o, Order.currency o,
   Order.totalValue o, Order.deliveryLocation o, Order.deliveryTime o,
   Order.deliveryTimeUnit o, Order.paymentTerms o, Order.deliveryTerms o,
   Order.createdAt o).

(** The documents of a phase. *)
Definition documentsOf (o : Order.t) (p : Phase.t) : list Document.t :=
  PhaseRecord.documents (Phases.get (Order.phases o) p).

(** [getOrderById]: the order and the [userRole] added to it. *)
Definition getOrderById (userId id : string) (orders : list Order.t)
    : Answer (Order.t * string) :=
  match JS.find (partyTo id userId) orders with
  | None => Failure 404 "Order not found or unauthorized"
  | Some order =>
      Json (order,
            if decide (Order.exporterId order = userId) then "exporter"
            else "importer")
  end.

(** The counts and the sum of [getOrderStats]; the two fields it adds for
    an exporter are left out. *)
Module Stats.
Record t := mk {
  total : nat;
  active : nat;
  completed : nat;
  cancelled : nat;
  disputed : nat;
  phases : Phase.t → nat;
  totalValue : float
}.
End Stats.

End Orders.

(** ** Sample data *)

Module Sample.
Definition exporter : User.t := User.mk "exp-1" "exporter" 1704067200000.
Definition importer : User.t := User.mk "imp-1" "importer" 1704067200000.
Definition exporter2 : User.t := User.mk "exp-2" "exporter" 1704067200000.
Definition users : list User.t := [exporter; importer; exporter2].

Definition reqId : string := "3f2b8c1e-5d4a-4c9b-8e7f-0a1b2c3d4e5f".

Definition requirement : Requirement.t :=
  Requirement.mk reqId "imp-1" "Coffee beans" "Arabica, washed" "Food" 5000 "kg"
    (Some 4%float) "USD" "New York" "" "" (Some 2000000000000) "active"
    (Some 0) None 1700000000000.

Definition bidFor (id exporterId : string) (price : float) (currency : string)
    (deliveryTime : float) (deliveryTimeUnit status : string) : Bid.t :=
  Bid.mk id reqId exporterId price currency deliveryTime deliveryTimeUnit
    "" "" "" None status 1700000000000 1700000000000 None.

Definition payload (price : float) : Bidding.Payload.t :=
  Bidding.Payload.mk reqId price "USD" 3 "weeks" None None None None.

Definition now : Z := 1710000000000.

(** The requirement with another target price. *)
Definition asking (targetPrice : float) (currency : string) : Requirement.t :=
  Requirement.mk reqId "imp-1" "Coffee beans" "Arabica, washed" "Food" 5000 "kg"
    (Some targetPrice) currency "New York" "" "" (Some 2000000000000) "active"
    (Some 0) None 1700000000000.

(** A candidate bid in USD on the requirement, whose target price is 4.00
    USD. *)
Definition candidate (price : float) : Bid.t :=
  bidFor "cand" "exp-9" price "USD" 3 "weeks" "active".

(** One requirement open for bids, no bid yet. *)
Definition emptyStore : Bidding.Store := Bidding.mkStore [] [requirement].

(** Two active bids on the requirement. *)
Definition twoBids : Bidding.Store :=
  Bidding.mkStore
    [bidFor "bid-a" "exp-1" 4.25 "USD" 3 "weeks" "active";
     bidFor "bid-b" "exp-2" 4.5 "USD" 2 "weeks" "active"]
    [requirement].

(** [twoBids] after the importer has accepted bid-a. *)
Definition awarded : Bidding.Store :=
  snd (Bidding.acceptBid "imp-1" now "bid-a" twoBids).

Definition acceptedBid : Bid.t :=
  bidFor "bid-a" "exp-1" 4.25 "USD" 3 "weeks" "accepted".

(** An accepted bid with a delivery time of 100000000 days, and one whose
    delivery time is counted in a unit the tables do not have. *)
Definition farBid : Bid.t :=
  bidFor "bid-far" "exp-1" 4.25 "USD" 100000000 "days" "accepted".

Definition quartersBid : Bid.t :=
  bidFor "bid-q" "exp-1" 4.25 "USD" 2 "quarters" "accepted".

(** The order [createOrderFromBid] makes of [acceptedBid] at [now]. *)
Definition order : Order.t :=
  Order.mk "order-1" "bid-a" reqId "exp-1" "imp-1" "Coffee beans"
    "Arabica, washed" "Food" 5000 "kg" 4.25 "USD" (4.25 * 5000)%float
    "New York" 3 "weeks" (now + 3 * 7 * 24 * 60 * 60 * 1000) "" ""
    Phase.confirmation "active"
    (Phases.mk (PhaseRecord.mk "pending" (Some now) None [] "" None)
       PhaseRecord.not_started PhaseRecord.not_started PhaseRecord.not_started
       PhaseRecord.not_started PhaseRecord.not_started)
    now now None None None.

Definition orders : list Order.t := [order].

(** The three bids of the ranking scenario: 5 USD, 4 EUR and 450 INR. *)
Definition bidA : Bid.t := bidFor "bid-A" "exp-1" 5 "USD" 2 "weeks" "active".
Definition bidB : Bid.t := bidFor "bid-B" "exp-2" 4 "EUR" 2 "weeks" "active".
Definition bidC : Bid.t := bidFor "bid-C" "exp-3" 450 "INR" 2 "weeks" "active".

(** Two bids with the same price and delivery time, of exporters that have
    a user record. *)
Definition bidX : Bid.t := bidFor "bid-X" "exp-1" 5 "USD" 2 "weeks" "active".
Definition bidY : Bid.t := bidFor "bid-Y" "exp-2" 5 "USD" 14 "days" "active".

(** Two sources of [Math.random]: the first two draws are 0.9 then 0.1, or
    0.1 then 0.9. *)
Definition highLow : Bidding.World :=
  Bidding.mkWorld (λ n, match n with O => 0.9%float | _ => 0.1%float end) 0.

Definition lowHigh : Bidding.World :=
  Bidding.mkWorld (λ n, match n with O => 0.1%float | _ => 0.9%float end) 0.

(** The bid [submitBid] makes of [payload 4.25] for exporter exp-1. *)
Definition submittedBid : Bid.t :=
  Bid.mk "bid-1" reqId "exp-1" 4.25 "USD" 3 "weeks" "" "" "" None "active"
    now now None.

(** [emptyStore] after exporter exp-1 has submitted a bid, and after the
    exporter has withdrawn it. *)
Definition submitted : Bidding.Store :=
  snd (Bidding.submitBid "exp-1" now "bid-1" (payload 4.25) emptyStore).

Definition withdrawn : Bidding.Store :=
  snd (Bidding.withdrawBid "exp-1" (now + 1000) "bid-1" submitted).

(** Requests of [updateOrderPhase]: move to payment, and name the current
    phase again. *)
Definition toPayment : Orders.Update.t :=
  Orders.Update.mk (Some "payment") None None None.

Definition confirmAgain : Orders.Update.t :=
  Orders.Update.mk (Some "confirmation") None None None.

(** [orders] after the importer has sent [confirmAgain]. *)
Definition ordersConfirmed : list Order.t :=
  snd (Orders.updateOrderPhase "imp-1" (now + 1000) "order-1" confirmAgain None orders).

(** [orders] after the importer has cancelled the order. *)
Definition ordersCancelled : list Order.t :=
  snd (Orders.cancelOrder "imp-1" (Sample.now + 1000) "order-1"
         (Some "buyer withdrew") Sample.orders).

(** A file of an upload, and the request that attaches it. *)
Definition invoice : Orders.Upload :=
  Orders.mkUpload "doc-1" "documents-1.pdf" "invoice.pdf"
    "uploads/documents/documents-1.pdf" 52311.

Definition ordersWithInvoice : list Order.t :=
  snd (Orders.uploadOrderDocuments "exp-1" (Sample.now + 2000) "order-1" "payment"
         (Some [invoice]) Sample.orders).

(** [orders] once the order has gone through every phase up to delivery. *)
Definition naming (phase : string) : Orders.Update.t :=
  Orders.Update.mk (Some phase) None None None.

Definition send (phase : string) (orders : list Order.t) : list Order.t :=
  snd (Orders.updateOrderPhase "exp-1" (Sample.now + 1000) "order-1"
         (naming phase) None orders).

Definition ordersInDelivery : list Order.t :=
  send "delivery" (send "shipping" (send "inspection" (send "production"
    (send "payment" Sample.orders)))).

Definition orderInDelivery : Order.t :=
  Eval vm_compute in default Sample.order (ordersInDelivery !! 0%nat).
End Sample.

(** * Properties *)

(** ** Binary64 numbers: rounding keeps the sign *)

Section Rounding.
Import Binary64.

Lemma digits2_size m : digits2_pos m = Pos.size m.
Proof. induction m; simpl; congruence. Qed.

Lemma size_bounds m :
  2 ^ (Zpos (Pos.size m) - 1) <= Zpos m < 2 ^ Zpos (Pos.size m).
Proof.
  split.
  - pose proof (Pos.size_le m) as Hle.
    assert (2 ^ Zpos (Pos.size m) <= 2 * Zpos m) as H2.
    { change 2 with (Zpos 2) at 1. rewrite <- Pos2Z.inj_pow. 
      change (2 * Zpos m) with (Zpos (m~0)). by apply Pos2Z.pos_le_pos. }
    replace (Zpos (Pos.size m)) with (Z.succ (Zpos (Pos.size m) - 1)) in H2 by lia.
    rewrite Z.pow_succ_r in H2 by lia. lia.
  - pose proof (Pos.size_gt m) as Hgt.
    change 2 with (Zpos 2). rewrite <- Pos2Z.inj_pow. by apply Pos2Z.pos_lt_pos.
Qed.

Lemma shr_1_m r : 0 <= shr_m r → shr_m (shr_1 r) = shr_m r / 2.
Proof.
  destruct r as [[|[p|p|]|p] rr ss]; simpl; intros H; try done; try lia.
  - rewrite Pos2Z.inj_xI. apply Z.div_unique with 1; lia.
  - rewrite Pos2Z.inj_xO. apply Z.div_unique with 0; lia.
Qed.

Lemma iter_shr_m p r :
  0 <= shr_m r → shr_m (SpecFloat.iter_pos shr_1 p r) = shr_m r / 2 ^ Zpos p.
Proof.
  revert r. induction p as [p IH|p IH|]; intros r Hr; cbn [SpecFloat.iter_pos].
  - assert (0 <= shr_m (shr_1 r)) as H1.
    { rewrite shr_1_m by done. apply Z.div_pos; lia. }
    assert (0 <= shr_m (SpecFloat.iter_pos shr_1 p (shr_1 r))) as H2.
    { rewrite IH by done. apply Z.div_pos; [done|]. apply Z.pow_pos_nonneg; lia. }
    rewrite IH, IH, shr_1_m by done.
    rewrite !Z.div_div by (try apply Z.pow_pos_nonneg; lia).
    f_equal. rewrite <- !Z.pow_add_r, <- (Z.pow_1_r 2) at 1 by lia.
    rewrite <- Z.pow_add_r by lia. f_equal. lia.
  - assert (0 <= shr_m (SpecFloat.iter_pos shr_1 p r)) as H2.
    { rewrite IH by done. apply Z.div_pos; [done|]. apply Z.pow_pos_nonneg; lia. }
    rewrite IH, IH by done.
    rewrite !Z.div_div by (try apply Z.pow_pos_nonneg; lia).
    f_equal. rewrite <- Z.pow_add_r by lia. f_equal. lia.
  - rewrite shr_1_m by done. f_equal.
Qed.

Lemma shr_record_m m l : shr_m (shr_record_of_loc m l) = m.
Proof. by destruct l as [|[]]. Qed.

(** Shifting a positive mantissa to its format exponent leaves it positive
    when the exponent is not below the least one. *)
Lemma shr_fexp_positive m e l :
  emin <= e →
  let '(mrs, e') := shr_fexp prec emax (Zpos m) e l in
  0 < shr_m mrs ∧ emin <= e'.
Proof.
  intros He. unfold shr_fexp, shr, fexp, Zdigits2.
  rewrite digits2_size.
  change (emin) with (-1074) in *. change prec with 53.
  destruct (Z.max (Zpos (Pos.size m) + e - 53) (-1074) - e) as [|n|n] eqn:Hn;
    [rewrite shr_record_m; lia| |rewrite shr_record_m; lia].
  rewrite iter_shr_m by (rewrite shr_record_m; lia).
  rewrite shr_record_m. split; [|lia].
  assert (Zpos n = Zpos (Pos.size m) - 53) as -> by lia.
  pose proof (size_bounds m) as [Hlow _].
  apply Z.div_str_pos. split; [apply Z.pow_pos_nonneg; lia|].
  etrans; [|exact Hlow]. apply Z.pow_le_mono_r; lia.
Qed.

Lemma round_nearest_even_positive m l : 0 < m → 0 < round_nearest_even m l.
Proof. intros Hm. destruct l as [|[]]; simpl; try done; [destruct (Z.even m)|]; lia. Qed.

Lemma binary_round_aux_strictly s m e l :
  emin <= e →
  strictly s (binary_round_aux prec emax s (Zpos m) e l).
Proof.
  intros He. unfold binary_round_aux.
  pose proof (shr_fexp_positive m e l He) as H1.
  destruct (shr_fexp prec emax (Zpos m) e l) as [mrs' e'].
  destruct H1 as [Hm' He'].
  pose proof (round_nearest_even_positive (shr_m mrs') (loc_of_shr_record mrs') Hm') as Hr.
  destruct (round_nearest_even (shr_m mrs') (loc_of_shr_record mrs')) as [|m2|m2];
    [lia| |lia].
  pose proof (shr_fexp_positive m2 e' loc_Exact He') as H2.
  destruct (shr_fexp prec emax (Zpos m2) e' loc_Exact) as [mrs'' e''].
  destruct H2 as [Hm'' _].
  destruct (shr_m mrs'') as [|m3|m3]; [lia| |lia].
  by destruct (_ <=? _).
Qed.

Lemma shl_align_exponent m e e' :
  emin <= e → emin <= e' →
  emin <= snd (shl_align m e e').
Proof. intros. unfold shl_align. by destruct (e' - e). Qed.

Lemma binary_round_strictly s m e :
  emin <= e → strictly s (binary_round prec emax s m e).
Proof.
  intros He. unfold binary_round.
  pose proof (shl_align_exponent m e (fexp prec emax (Zpos (digits2_pos m) + e)) He) as H.
  destruct (shl_align _ _ _) as [mz ez]. simpl in H.
  apply binary_round_aux_strictly. apply H.
  unfold fexp. lia.
Qed.

Lemma binary_normalize_strictly d e sz :
  emin <= e → d ≠ 0 →
  strictly (d <? 0) (binary_normalize prec emax d e sz).
Proof.
  intros He Hd. destruct d as [|d|d]; [done|..]; simpl;
    by apply binary_round_strictly.
Qed.

Lemma shl_align_fst m e e' :
  e' <= e → Zpos (fst (shl_align m e e')) = Zpos m * 2 ^ (e - e').
Proof.
  intros Hle. unfold shl_align.
  destruct (e' - e) as [|d|d] eqn:Hd; cbn [fst]; [|lia|].
  - replace (e - e') with 0 by lia. by rewrite Z.pow_0_r, Z.mul_1_r.
  - replace (e - e') with (Zpos d) by lia.
    clear. revert m. induction d using Pos.peano_ind; intros m.
    + rewrite Z.pow_1_r. cbn [Pos.iter]. lia.
    + rewrite Pos.iter_succ, Pos2Z.inj_succ, Z.pow_succ_r, Pos2Z.inj_xO, IHd by lia.
      ring.
Qed.

Lemma valid_finite s m e :
  valid_binary (S754_finite s m e) = true →
  emin <= e
  ∧ Zpos m < 2 ^ 53
  ∧ (emin < e → 2 ^ 52 <= Zpos m).
Proof.
  cbn [valid_binary]. unfold bounded, canonical_mantissa, fexp.
  rewrite digits2_size. change (emin) with (-1074). change prec with 53.
  intros H. apply andb_prop in H as [H _]. apply Z.eqb_eq in H.
  pose proof (size_bounds m) as [Hlow Hhigh].
  split; [lia|]. split.
  - eapply Z.lt_le_trans; [exact Hhigh|]. apply Z.pow_le_mono_r; lia.
  - intros He. etrans; [|exact Hlow]. apply Z.pow_le_mono_r; lia.
Qed.

(** Finite numbers of the same sign compare as their magnitudes do. *)
Lemma magnitude_lt mx ex my ey :
  valid_binary (S754_finite false mx ex) = true →
  valid_binary (S754_finite false my ey) = true →
  match ex ?= ey with
  | Lt => True
  | Gt => False
  | Eq => (mx < my)%positive
  end →
  Zpos mx * 2 ^ (ex - Z.min ex ey) < Zpos my * 2 ^ (ey - Z.min ex ey).
Proof.
  intros Hx Hy Hcmp.
  apply valid_finite in Hx as (Hex & Hmx & _).
  apply valid_finite in Hy as (Hey & _ & Hmy).
  destruct (Z.compare_spec ex ey) as [->|Hlt|Hgt]; [| |done].
  - rewrite Z.min_id, Z.sub_diag. simpl. lia.
  - rewrite Z.min_l by lia. rewrite Z.sub_diag. simpl (2 ^ 0).
    specialize (Hmy ltac:(lia)).
    assert (2 ^ 1 <= 2 ^ (ey - ex)) by (apply Z.pow_le_mono_r; lia).
    nia.
Qed.
End Rounding.

(** ** The order of non-NaN numbers *)

Lemma compare_cont_spec a b :
  Pos.compare_cont Eq a b = (a ?= b)%positive.
Proof. done. Qed.

Lemma compare_cont_cases a b :
  CompareSpec (a = b) (a < b)%positive (b < a)%positive (Pos.compare_cont Eq a b).
Proof. apply Pos.compare_spec. Qed.

Ltac order_cases :=
  repeat match goal with
  | |- context [Z.compare ?a ?b] => destruct (Z.compare_spec a b); subst
  | |- context [Pos.compare_cont Eq ?a ?b] => destruct (compare_cont_cases a b); subst
  | |- context [Pos.compare ?a ?b] => destruct (Pos.compare_spec a b); subst
  end.

Lemma SFcompare_refl x : x ≠ S754_nan → SFcompare x x = Some Eq.
Proof.
  destruct x as [[]|[]| |[] m e]; simpl; try done;
    rewrite Z.compare_refl, compare_cont_spec, Pos.compare_refl; done.
Qed.

Lemma SFcompare_antisym x y c :
  SFcompare x y = Some c → SFcompare y x = Some (CompOpp c).
Proof.
  destruct x as [[]|[]| |[] mx ex], y as [[]|[]| |[] my ey]; simpl;
    intros [= <-]; try done;
    rewrite (Z.compare_antisym ex ey), !compare_cont_spec,
      (Pos.compare_antisym mx my);
    destruct (ex ?= ey); simpl; try done; destruct (mx ?= my)%positive; done.
Qed.

Lemma SFcompare_total x y :
  x ≠ S754_nan → y ≠ S754_nan → ∃ c, SFcompare x y = Some c.
Proof.
  destruct x as [[]|[]| |[] mx ex], y as [[]|[]| |[] my ey]; simpl;
    intros; try done; by eexists.
Qed.

Lemma SFcompare_Eq_trans x y z c :
  SFcompare x y = Some Eq → SFcompare y z = Some c → SFcompare x z = Some c.
Proof.
  destruct x as [[]|[]| |[] mx ex], y as [[]|[]| |[] my ey],
           z as [[]|[]| |[] mz ez]; simpl; try done;
    intros [= H1] [= H2]; f_equal;
    revert H1 H2; order_cases; simpl; try done; try lia.
Qed.

Lemma SFcompare_trans_Eq x y z c :
  SFcompare x y = Some c → SFcompare y z = Some Eq → SFcompare x z = Some c.
Proof.
  intros H1 H2.
  apply SFcompare_antisym in H1, H2. simpl in H2.
  pose proof (SFcompare_Eq_trans _ _ _ _ H2 H1) as H.
  apply SFcompare_antisym in H. by rewrite CompOpp_involutive in H.
Qed.

Lemma SFcompare_Lt_trans x y z :
  SFcompare x y = Some Lt → SFcompare y z = Some Lt → SFcompare x z = Some Lt.
Proof.
  destruct x as [[]|[]| |[] mx ex], y as [[]|[]| |[] my ey],
           z as [[]|[]| |[] mz ez]; simpl; try done;
    intros [= H1] [= H2]; f_equal;
    revert H1 H2; order_cases; simpl; try done; try lia.
Qed.

Section Comparison.
Import Binary64.
Local Open Scope float_scope.

Lemma SFcompare_nan_l y : SFcompare S754_nan y = None.
Proof. done. Qed.

Lemma SFcompare_nan_r x : SFcompare x S754_nan = None.
Proof. by destruct x as [[]|[]| |[] m e]. Qed.

Lemma isNaN_spec x : JS.isNaN x = true ↔ Prim2SF x = S754_nan.
Proof.
  unfold JS.isNaN. rewrite FloatAxioms.eqb_spec, negb_true_iff. unfold SFeqb. split.
  - intros H. destruct (Prim2SF x) as [s|s| |s m e] eqn:Hx; [| |done|];
      by rewrite SFcompare_refl in H.
  - intros ->. done.
Qed.

Lemma not_NaN_spec x : JS.isNaN x = false ↔ Prim2SF x ≠ S754_nan.
Proof. rewrite <- isNaN_spec. by destruct (JS.isNaN x). Qed.

Lemma compare_some x y c :
  SFcompare (Prim2SF x) (Prim2SF y) = Some c → JS.isNaN x = false ∧ JS.isNaN y = false.
Proof.
  intros H. rewrite !not_NaN_spec. split; intros Hn; rewrite Hn in H.
  - done.
  - by rewrite SFcompare_nan_r in H.
Qed.

Lemma ltb_compare x y : (x <? y) = true ↔ SFcompare (Prim2SF x) (Prim2SF y) = Some Lt.
Proof.
  rewrite FloatAxioms.ltb_spec. unfold SFltb.
  destruct (SFcompare _ _) as [[]|]; split; congruence.
Qed.

Lemma eqb_compare x y : (x =? y) = true ↔ SFcompare (Prim2SF x) (Prim2SF y) = Some Eq.
Proof.
  rewrite FloatAxioms.eqb_spec. unfold SFeqb.
  destruct (SFcompare _ _) as [[]|]; split; congruence.
Qed.

Lemma gtb_compare x y : (y <? x) = true ↔ SFcompare (Prim2SF x) (Prim2SF y) = Some Gt.
Proof.
  rewrite ltb_compare. split; intros H; apply SFcompare_antisym in H; done.
Qed.

Lemma ltb_not_NaN x y : (x <? y) = true → JS.isNaN x = false ∧ JS.isNaN y = false.
Proof. rewrite ltb_compare. apply compare_some. Qed.

Lemma eqb_not_NaN x y : (x =? y) = true → JS.isNaN x = false ∧ JS.isNaN y = false.
Proof. rewrite eqb_compare. apply compare_some. Qed.

Lemma eqb_refl x : JS.isNaN x = false → (x =? x) = true.
Proof. unfold JS.isNaN. by destruct (x =? x). Qed.

Lemma eqb_sym x y : (x =? y) = (y =? x).
Proof.
  apply eq_true_iff_eq. rewrite !eqb_compare.
  split; intros H; apply SFcompare_antisym in H; done.
Qed.

Lemma eqb_trans x y z : (x =? y) = true → (y =? z) = true → (x =? z) = true.
Proof. rewrite !eqb_compare. apply SFcompare_Eq_trans. Qed.

Lemma ltb_trans x y z : (x <? y) = true → (y <? z) = true → (x <? z) = true.
Proof. rewrite !ltb_compare. apply SFcompare_Lt_trans. Qed.

Lemma eqb_ltb_trans x y z : (x =? y) = true → (y <? z) = true → (x <? z) = true.
Proof. rewrite eqb_compare, !ltb_compare. apply SFcompare_Eq_trans. Qed.

Lemma ltb_eqb_trans x y z : (x <? y) = true → (y =? z) = true → (x <? z) = true.
Proof. rewrite eqb_compare, !ltb_compare. apply SFcompare_trans_Eq. Qed.

Lemma ltb_asym x y : (x <? y) = true → (y <? x) = false.
Proof.
  intros H. apply not_true_is_false. rewrite gtb_compare.
  apply ltb_compare in H. congruence.
Qed.

Lemma ltb_irrefl x : (x <? x) = false.
Proof.
  apply not_true_is_false. intros H. pose proof (ltb_asym _ _ H). congruence.
Qed.

Lemma ltb_not_eqb x y : (x <? y) = true → (x =? y) = false.
Proof.
  intros H. apply not_true_is_false. rewrite eqb_compare.
  apply ltb_compare in H. congruence.
Qed.

Lemma gtb_not_eqb x y : (y <? x) = true → (x =? y) = false.
Proof. intros H. rewrite eqb_sym. by apply ltb_not_eqb. Qed.

Lemma eqb_not_ltb x y : (x =? y) = true → (x <? y) = false ∧ (y <? x) = false.
Proof.
  intros H. split; apply not_true_is_false; intros Hlt.
  - apply ltb_not_eqb in Hlt. congruence.
  - apply gtb_not_eqb in Hlt. congruence.
Qed.

Lemma trichotomy x y :
  JS.isNaN x = false → JS.isNaN y = false →
  (x <? y) = true ∨ (x =? y) = true ∨ (y <? x) = true.
Proof.
  rewrite !not_NaN_spec. intros Hx Hy.
  destruct (SFcompare_total _ _ Hx Hy) as [[] H].
  - right; left. by apply eqb_compare.
  - left. by apply ltb_compare.
  - right; right. by apply gtb_compare.
Qed.

Lemma leb_ltb_eqb x y : (x <=? y) = (x <? y) || (x =? y).
Proof.
  rewrite FloatAxioms.leb_spec, FloatAxioms.ltb_spec, FloatAxioms.eqb_spec. unfold SFleb, SFltb, SFeqb.
  by destruct (SFcompare _ _) as [[]|].
Qed.

(** ** The sign of a difference *)

Lemma strictly_negative X :
  strictly true X → SFltb X (S754_zero false) = true.
Proof. destruct X as [|[]| |[] m e]; simpl; done. Qed.

Lemma strictly_positive X :
  strictly false X → SFltb (S754_zero false) X = true.
Proof. destruct X as [|[]| |[] m e]; simpl; done. Qed.

Lemma SFsub_finite sx mx ex sy my ey :
  SF64sub (S754_finite sx mx ex) (S754_finite sy my ey) =
  binary_normalize prec emax
    (cond_Zopp sx (Zpos (fst (shl_align mx ex (Z.min ex ey))))
     - cond_Zopp sy (Zpos (fst (shl_align my ey (Z.min ex ey)))))%Z
    (Z.min ex ey) false.
Proof. reflexivity. Qed.

(** The exact difference of two finite numbers, in units of the smaller
    exponent, has the sign their comparison says. *)
Lemma difference_sign sx mx ex sy my ey :
  valid_binary (S754_finite sx mx ex) = true →
  valid_binary (S754_finite sy my ey) = true →
  let d := (cond_Zopp sx (Zpos (fst (shl_align mx ex (Z.min ex ey))))
            - cond_Zopp sy (Zpos (fst (shl_align my ey (Z.min ex ey)))))%Z in
  match SFcompare (S754_finite sx mx ex) (S754_finite sy my ey) with
  | Some Lt => (d < 0)%Z
  | Some Gt => (0 < d)%Z
  | _ => True
  end.
Proof.
  intros HX HY d. subst d.
  pose proof (valid_finite _ _ _ HX) as (Hex & _ & _).
  pose proof (valid_finite _ _ _ HY) as (Hey & _ & _).
  rewrite !shl_align_fst by lia.
  pose proof (magnitude_lt mx ex my ey HX HY) as Hxy.
  pose proof (magnitude_lt my ey mx ex HY HX) as Hyx.
  rewrite (Z.min_comm ey ex) in Hyx.
  assert (0 < Zpos mx * 2 ^ (ex - Z.min ex ey))%Z as Hpx
    by (apply Z.mul_pos_pos; [lia|apply Z.pow_pos_nonneg; lia]).
  assert (0 < Zpos my * 2 ^ (ey - Z.min ex ey))%Z as Hpy
    by (apply Z.mul_pos_pos; [lia|apply Z.pow_pos_nonneg; lia]).
  revert Hxy Hyx. rewrite (Z.compare_antisym ex ey).
  destruct sx, sy; cbn [SFcompare cond_Zopp];
    destruct (ex ?= ey)%Z; cbn [CompOpp];
    destruct (compare_cont_cases mx my) as [Hm|Hm|Hm]; cbn [CompOpp];
    intros Hxy Hyx; try done; try lia;
    try (specialize (Hxy ltac:(done)); lia);
    try (specialize (Hyx ltac:(done)); lia).
Qed.

Lemma SFsub_strictly X Y :
  valid_binary X = true → valid_binary Y = true →
  SFcompare X Y = Some Lt → strictly true (SF64sub X Y).
Proof.
  intros HX HY.
  destruct X as [sx|sx| |sx mx ex], Y as [sy|sy| |sy my ey];
    try (by simpl); try (by destruct sx; simpl); try (by destruct sy; simpl);
    try (by destruct sx, sy; simpl).
  intros Hcmp. pose proof (difference_sign _ _ _ _ _ _ HX HY) as Hd.
  rewrite Hcmp in Hd. simpl in Hd.
  pose proof (valid_finite _ _ _ HX) as (Hex & _ & _).
  pose proof (valid_finite _ _ _ HY) as (Hey & _ & _).
  rewrite SFsub_finite.
  match goal with |- context [binary_normalize _ _ ?d _ _] =>
    replace true with (d <? 0)%Z by (apply Z.ltb_lt; lia)
  end.
  apply binary_normalize_strictly; lia.
Qed.

Lemma SFsub_strictly_positive X Y :
  valid_binary X = true → valid_binary Y = true →
  SFcompare X Y = Some Gt → strictly false (SF64sub X Y).
Proof.
  intros HX HY.
  destruct X as [sx|sx| |sx mx ex], Y as [sy|sy| |sy my ey];
    try (by simpl); try (by destruct sx; simpl); try (by destruct sy; simpl);
    try (by destruct sx, sy; simpl).
  intros Hcmp. pose proof (difference_sign _ _ _ _ _ _ HX HY) as Hd.
  rewrite Hcmp in Hd. simpl in Hd.
  pose proof (valid_finite _ _ _ HX) as (Hex & _ & _).
  pose proof (valid_finite _ _ _ HY) as (Hey & _ & _).
  rewrite SFsub_finite.
  match goal with |- context [binary_normalize _ _ ?d _ _] =>
    replace false with (d <? 0)%Z by (apply Z.ltb_ge; lia)
  end.
  apply binary_normalize_strictly; lia.
Qed.

(** [x - y] is negative exactly as [x < y] says, and positive as [y < x]
    says: a difference of two different numbers never rounds to zero. *)
Lemma sub_negative x y : (x <? y) = true → (x - y <? 0) = true.
Proof.
  rewrite ltb_compare. intros H.
  rewrite FloatAxioms.ltb_spec, FloatAxioms.sub_spec. apply strictly_negative.
  apply SFsub_strictly; [apply Prim2SF_valid..|done].
Qed.

Lemma sub_positive x y : (y <? x) = true → (0 <? x - y) = true.
Proof.
  rewrite gtb_compare. intros H.
  rewrite FloatAxioms.ltb_spec, FloatAxioms.sub_spec. apply strictly_positive.
  apply SFsub_strictly_positive; [apply Prim2SF_valid..|done].
Qed.

Lemma sub_not_negative x y : (y <? x) = true → (x - y <? 0) = false.
Proof. intros H. apply ltb_asym. by apply sub_positive. Qed.

(** ** NaN and the order of sums *)
Lemma ltb_NaN x y : JS.isNaN x = true ∨ JS.isNaN y = true → (x <? y) = false.
Proof.
  intros Hnan. destruct (x <? y) eqn:Hlt; [|done].
  apply ltb_not_NaN in Hlt as [Hx Hy]. destruct Hnan; congruence.
Qed.

Lemma sub_NaN x y :
  JS.isNaN x = true ∨ JS.isNaN y = true → JS.isNaN (x - y) = true.
Proof.
  rewrite !isNaN_spec, FloatAxioms.sub_spec. unfold SF64sub, SFsub.
  intros [-> | ->]; [done|]. by destruct (Prim2SF x).
Qed.

Lemma mul_NaN x : JS.isNaN (x * nan) = true.
Proof.
  rewrite isNaN_spec, FloatAxioms.mul_spec. unfold SF64mul, SFmul.
  change (Prim2SF nan) with S754_nan. by destruct (Prim2SF x).
Qed.

(** Between two numbers that are not equal, the difference is negative
    exactly when the first is smaller. *)
Lemma sub_sign x y : (x =? y) = false → (x - y <? 0) = (x <? y).
Proof.
  intros Hne.
  destruct (JS.isNaN x) eqn:Hx.
  { rewrite !ltb_NaN; [done|by left|left; apply sub_NaN; by left]. }
  destruct (JS.isNaN y) eqn:Hy.
  { rewrite !ltb_NaN; [done|by right|left; apply sub_NaN; by right]. }
  destruct (trichotomy x y Hx Hy) as [Hlt|[Heq|Hgt]].
  - by rewrite Hlt, sub_negative.
  - congruence.
  - by rewrite (ltb_asym y x), sub_not_negative.
Qed.

Lemma leb_trans x y z : (x <=? y) = true → (y <=? z) = true → (x <=? z) = true.
Proof.
  rewrite !leb_ltb_eqb, !orb_true_iff. intros [H1|H1] [H2|H2].
  - left. by eapply ltb_trans.
  - left. by eapply ltb_eqb_trans.
  - left. by eapply eqb_ltb_trans.
  - right. by eapply eqb_trans.
Qed.

Lemma ltb_leb_trans x y z : (x <? y) = true → (y <=? z) = true → (x <? z) = true.
Proof.
  rewrite leb_ltb_eqb, orb_true_iff. intros H1 [H2|H2].
  - by eapply ltb_trans.
  - by eapply ltb_eqb_trans.
Qed.

Lemma leb_ltb_trans x y z : (x <=? y) = true → (y <? z) = true → (x <? z) = true.
Proof.
  rewrite leb_ltb_eqb, orb_true_iff. intros [H1|H1] H2.
  - by eapply ltb_trans.
  - by eapply eqb_ltb_trans.
Qed.
End Comparison.

(** ** JavaScript helpers *)

Lemma find_Some {A} (P : A → Prop) `{∀ x, Decision (P x)} arr x :
  JS.find P arr = Some x ↔ ∃ i, list_find P arr = Some (i, x).
Proof.
  unfold JS.find. destruct (list_find P arr) as [[i y]|]; simpl; split.
  - intros [= ->]. eauto.
  - intros [j [= _ ->]]. done.
  - done.
  - intros [? ?]. done.
Qed.

Lemma find_None {A} (P : A → Prop) `{∀ x, Decision (P x)} arr :
  JS.find P arr = None ↔ Forall (λ x, ¬ P x) arr.
Proof.
  unfold JS.find. by rewrite fmap_None, list_find_None.
Qed.

Lemma find_findIndex {A} (P : A → Prop) `{∀ x, Decision (P x)} arr x :
  JS.find P arr = Some x →
  ∃ i, JS.findIndex P arr = Some i ∧ arr !! i = Some x ∧ P x.
Proof.
  intros [i Hi]%find_Some. exists i. unfold JS.findIndex. rewrite Hi.
  apply list_find_Some in Hi as (? & ? & _). done.
Qed.

Lemma indexOf_phase (p : Phase.t) :
  JS.indexOf Orders.ORDER_PHASES p =
  match p with
  | Phase.confirmation => 0
  | Phase.payment => 1
  | Phase.production => 2
  | Phase.inspection => 3
  | Phase.shipping => 4
  | Phase.delivery => 5
  end.
Proof. destruct p; reflexivity. Qed.

Lemma phaseOfName_name (p : Phase.t) :
  Orders.phaseOfName (Orders.phaseName p) = Some p.
Proof. destruct p; reflexivity. Qed.

(** ** Order cancellation *)

Section Cancel.
Import Orders.
Variables (userId : string) (now : Z) (id : string) (reason : option string).
Variables (orders : list Order.t) (orderIndex : nat) (order : Order.t).
Hypothesis found : list_find (partyTo id userId) orders = Some (orderIndex, order).

Lemma inWindow_index p : inWindow p ↔ JS.indexOf ORDER_PHASES p <= 2.
Proof.
  rewrite indexOf_phase. unfold inWindow.
  destruct p; split; intros Hp; try lia; try tauto;
    destruct Hp as [Hp | [Hp | Hp]]; discriminate Hp.
Qed.

Lemma cancel_in_window :
  Order.status order = "active" → inWindow (Order.currentPhase order) →
  cancelOrder userId now id reason orders =
    (Ok 200 "Order cancelled successfully"
       (Order.cancel (default "" reason) userId now order),
     <[orderIndex := Order.cancel (default "" reason) userId now order]> orders).
Proof.
  intros Hact Hwin%inWindow_index. unfold cancelOrder. rewrite found.
  destruct (decide _) as [Hne|_]; [done|].
  destruct (Z.ltb_spec 2 (JS.indexOf ORDER_PHASES (Order.currentPhase order)));
    [lia | done].
Qed.

Lemma cancel_past_window :
  Order.status order = "active" → pastWindow (Order.currentPhase order) →
  cancelOrder userId now id reason orders =
    (Error 400 "Cannot cancel order in current phase", orders).
Proof.
  intros Hact Hpast. unfold cancelOrder. rewrite found.
  destruct (decide _) as [Hne|_]; [done|].
  rewrite indexOf_phase.
  destruct Hpast as [-> | [-> | ->]]; reflexivity.
Qed.

Lemma cancel_inactive :
  Order.status order ≠ "active" →
  cancelOrder userId now id reason orders =
    (Error 400 "Cannot cancel inactive order", orders).
Proof.
  intros Hne. unfold cancelOrder. rewrite found.
  destruct (decide _); done.
Qed.
End Cancel.

(** C9. For an order the caller is a party to, [cancelOrder] succeeds
    exactly when the order is active and its current phase is confirmation,
    payment or production, that is, its index in [ORDER_PHASES] is at most 2.
    On success the stored order is the old one with status cancelled and the
    reason, the caller and the instant recorded.  When the order is active
    and its current phase is inspection, shipping or delivery, the reply is
    the 400 error and the store is unchanged. *)
Theorem cancelOrder_window userId now id reason orders orderIndex order :
  list_find (Orders.partyTo id userId) orders = Some (orderIndex, order) →
  let result := Orders.cancelOrder userId now id reason orders in
  (replyCode (fst result) = 200
     ↔ Order.status order = "active" ∧ Orders.inWindow (Order.currentPhase order))
  ∧ (Orders.inWindow (Order.currentPhase order)
     ↔ JS.indexOf Orders.ORDER_PHASES (Order.currentPhase order) <= 2)
  ∧ (Order.status order = "active" → Orders.inWindow (Order.currentPhase order) →
     ∃ order',
       result = (Ok 200 "Order cancelled successfully" order',
                 <[orderIndex := order']> orders)
       ∧ Order.status order' = "cancelled"
       ∧ Order.cancellationReason order' = Some (default "" reason)
       ∧ Order.cancelledBy order' = Some userId
       ∧ Order.cancelledAt order' = Some now
       ∧ Order.currentPhase order' = Order.currentPhase order
       ∧ Order.phases order' = Order.phases order)
  ∧ (Order.status order = "active" → Orders.pastWindow (Order.currentPhase order) →
     result = (Error 400 "Cannot cancel order in current phase", orders)).
Proof.
  intros found result. subst result.
  split; [split|split; [|split]].
  - intros H200. destruct (decide (Order.status order = "active")) as [Hact|Hne].
    + split; [done|].
      destruct (Order.currentPhase order) eqn:Hp;
        try (unfold Orders.inWindow; tauto);
        rewrite (cancel_past_window _ _ _ _ _ _ _ found Hact) in H200;
        try discriminate H200; unfold Orders.pastWindow; rewrite Hp; tauto.
    + rewrite (cancel_inactive _ _ _ _ _ _ _ found Hne) in H200. discriminate H200.
  - intros [Hact Hwin]. by rewrite (cancel_in_window _ _ _ _ _ _ _ found Hact Hwin).
  - apply inWindow_index.
  - intros Hact Hwin. eexists. split.
    + apply (cancel_in_window _ _ _ _ _ _ _ found Hact Hwin).
    + done.
  - intros Hact Hpast. apply (cancel_past_window _ _ _ _ _ _ _ found Hact Hpast).
Qed.

Lemma cancelOrder_window_witness :
  list_find (Orders.partyTo "order-1" "imp-1") Sample.orders
    = Some (0%nat, Sample.order)
  ∧ replyCode (fst (Orders.cancelOrder "imp-1" Sample.now "order-1"
                      (Some "buyer withdrew") Sample.orders)) = 200.
Proof.
  assert (found : list_find (Orders.partyTo "order-1" "imp-1") Sample.orders
                  = Some (0%nat, Sample.order)) by reflexivity.
  split; [exact found|].
  apply (cancelOrder_window "imp-1" Sample.now "order-1" (Some "buyer withdrew")
           Sample.orders 0%nat Sample.order found).
  split; [reflexivity | left; reflexivity].
Defined.

(** ** Order creation *)

(** C10, what the code does instead.  A bid that is accepted, with its
    requirement and both users on record, does not always give an order: a
    delivery time of 100000000 days puts the estimated delivery past the last
    instant a date can hold, [toISOString] throws "Invalid time value" and
    nothing is pushed.  And the delivery time is not normalized as
    [convertToDays] does: for a unit that is neither days nor weeks the
    order counts 30 days per unit, where [convertToDays] counts one for a
    unit it does not know. *)
Lemma createOrderFromBid_range_and_unit :
  JS.find (λ b, Bid.id b = "bid-far" ∧ Bid.status b = "accepted") [Sample.farBid]
    = Some Sample.farBid
  ∧ Orders.createOrderFromBid [Sample.farBid] [Sample.requirement]
      Sample.users Sample.now "order-1" "bid-far" []
    = (Orders.Thrown "Invalid time value", [])
  ∧ Normalizer.convertToDays 2 "quarters" = 2%float
  ∧ ∃ order,
      Orders.createOrderFromBid [Sample.quartersBid] [Sample.requirement]
        Sample.users Sample.now "order-1" "bid-q" []
      = (Orders.Returned order, [order])
      ∧ Order.estimatedDelivery order = Sample.now + 60 * (24 * 60 * 60 * 1000)
      ∧ Order.estimatedDelivery order ≠ Sample.now + 2 * (24 * 60 * 60 * 1000).
Proof.
  split; [reflexivity|]. split; [by vm_compute|]. split; [by vm_compute|].
  eexists. split; [by vm_compute|]. split; [by vm_compute|]. by vm_compute.
Qed.

(** C10. [createOrderFromBid] throws and leaves [orders] as it was when no
    bid with the given identifier has status accepted.  When the accepted
    bid, its requirement and both users are found, the estimated delivery is
    the date of [now + deliveryTime * k * 24 * 60 * 60 * 1000], computed in
    binary64, where [k] is 1 for days, 7 for weeks and 30 for any other
    unit.  When that is not a valid date the call throws "Invalid time
    value" and leaves [orders] as it was.  Otherwise the order is appended
    to [orders]: its estimatedDelivery is that date, its totalValue is the
    binary64 product of the bid's price and the requirement's quantity, its
    status is active, its current phase is confirmation, pending and started
    at [now], and every other phase is not_started.  An accepted bid of 3
    weeks, 45 days or 2 months gives [now] plus 21, 45 or 60 days. *)
Theorem createOrderFromBid_spec :
  (∀ bids requirements users now uuid bidId orders,
     let result :=
       Orders.createOrderFromBid bids requirements users now uuid bidId orders in
     ((∀ b, b ∈ bids → Bid.id b = bidId → Bid.status b ≠ "accepted") →
      result = (Orders.Thrown "Accepted bid not found", orders))
     ∧ (∀ bid requirement exporter importer,
          JS.find (λ b, Bid.id b = bidId ∧ Bid.status b = "accepted") bids = Some bid →
          JS.find (λ r, Requirement.id r = Bid.requirementId bid) requirements
            = Some requirement →
          JS.find (λ u, User.id u = Bid.exporterId bid) users = Some exporter →
          JS.find (λ u, User.id u = Requirement.importerId requirement) users
            = Some importer →
          let k := if decide (Bid.deliveryTimeUnit bid = "days") then 1%float
                   else if decide (Bid.deliveryTimeUnit bid = "weeks") then 7%float
                   else 30%float in
          let date :=
            JS.timeClip (JS.ofZ now
                         + Bid.deliveryTime bid * k * 24 * 60 * 60 * 1000)%float in
          Bid.status bid = "accepted"
          ∧ (date = None →
             result = (Orders.Thrown "Invalid time value", orders))
          ∧ (∀ estimatedDelivery, date = Some estimatedDelivery →
             ∃ order,
               result = (Orders.Returned order, (orders ++ [order])%list)
               ∧ Order.bidId order = bidId
               ∧ Order.totalValue order
                 = (Bid.price bid * Requirement.quantity requirement)%float
               ∧ Order.estimatedDelivery order = estimatedDelivery
               ∧ Order.status order = "active"
               ∧ Order.currentPhase order = Phase.confirmation
               ∧ PhaseRecord.status (Phases.get (Order.phases order) Phase.confirmation)
                 = "pending"
               ∧ PhaseRecord.startedAt (Phases.get (Order.phases order) Phase.confirmation)
                 = Some now
               ∧ ∀ p, p ≠ Phase.confirmation →
                   PhaseRecord.status (Phases.get (Order.phases order) p)
                   = "not_started")))
  ∧ (∀ deliveryTime unit days,
       (deliveryTime, unit, days)
         ∈ [(3%float, "weeks", 21); (45%float, "days", 45); (2%float, "months", 60)] →
       ∃ order,
         Orders.createOrderFromBid
           [Sample.bidFor "bid-a" "exp-1" 4.25 "USD" deliveryTime unit "accepted"]
           [Sample.requirement] Sample.users Sample.now "order-1" "bid-a" []
         = (Orders.Returned order, [order])
         ∧ Order.estimatedDelivery order
           = Sample.now + days * (24 * 60 * 60 * 1000)).
Proof.
  split.
  - intros bids requirements users now uuid bidId orders result. subst result.
    split.
    + intros Hnone. unfold Orders.createOrderFromBid.
      assert (JS.find (λ b, Bid.id b = bidId ∧ Bid.status b = "accepted") bids = None)
        as ->; [|done].
      apply find_None, list.Forall_forall. intros b Hb [Hid Hst].
      by apply (Hnone b Hb Hid).
    + intros bid requirement exporter importer Hbid Hreq Hexp Himp k date.
      unfold Orders.createOrderFromBid. rewrite Hbid, Hreq, Hexp, Himp.
      apply find_findIndex in Hbid as (i & _ & _ & Hid & Hst).
      split; [done|]. fold k. fold date. split.
      * by intros ->.
      * intros estimatedDelivery ->.
        eexists. split; [reflexivity|]. cbn.
        repeat (split; [done|]). intros p Hp. by destruct p.
  - intros deliveryTime unit days Hcase.
    repeat (apply elem_of_cons in Hcase as [[= -> -> ->] | Hcase]);
      [by eexists; vm_compute..|].
    by apply elem_of_nil in Hcase.
Qed.

Lemma createOrderFromBid_spec_witness :
  JS.find (λ b, Bid.id b = "bid-a" ∧ Bid.status b = "accepted") [Sample.acceptedBid]
    = Some Sample.acceptedBid
  ∧ JS.timeClip (JS.ofZ Sample.now + 3 * 7 * 24 * 60 * 60 * 1000)%float
    = Some (Sample.now + 21 * (24 * 60 * 60 * 1000))
  ∧ ∃ order,
      Orders.createOrderFromBid [Sample.acceptedBid] [Sample.requirement]
        Sample.users Sample.now "order-1" "bid-a" []
      = (Orders.Returned order, [order])
      ∧ Order.totalValue order = (4.25 * 5000)%float
      ∧ Order.estimatedDelivery order = Sample.now + 21 * (24 * 60 * 60 * 1000)
      ∧ Order.status order = "active".
Proof.
  split; [reflexivity|]. split; [by vm_compute|].
  destruct createOrderFromBid_spec as [Hspec _].
  destruct (Hspec [Sample.acceptedBid] [Sample.requirement]
              Sample.users Sample.now "order-1" "bid-a" []) as [_ Hmade].
  destruct (Hmade Sample.acceptedBid Sample.requirement Sample.exporter
              Sample.importer eq_refl eq_refl eq_refl eq_refl)
    as (_ & _ & Hdate).
  destruct (Hdate (Sample.now + 21 * (24 * 60 * 60 * 1000)) ltac:(by vm_compute))
    as (order & Hresult & _ & Htotal & Hestimated & Hstatus & _).
  exists order. split; [exact Hresult|]. split; [exact Htotal|].
  split; [exact Hestimated | exact Hstatus].
Defined.

Example createOrderFromBid_sample :
  Orders.createOrderFromBid [Sample.acceptedBid] [Sample.requirement]
    Sample.users Sample.now "order-1" "bid-a" []
  = (Orders.Returned Sample.order, Sample.orders).
Proof. by vm_compute. Qed.

(** ** Order phases *)

Lemma get_alter_eq f p ps : Phases.get (Phases.alter f p ps) p = f (Phases.get ps p).
Proof. by destruct p. Qed.

Lemma get_alter_ne f p q ps :
  p ≠ q → Phases.get (Phases.alter f p ps) q = Phases.get ps q.
Proof. by destruct p, q. Qed.

Lemma phaseStatus_alter f p q o :
  Orders.phaseStatus (Order.alter_phase f p o) q =
  if decide (p = q) then PhaseRecord.status (f (Phases.get (Order.phases o) p))
  else Orders.phaseStatus o q.
Proof.
  unfold Orders.phaseStatus. simpl. destruct (decide (p = q)) as [->|Hne].
  - by rewrite get_alter_eq.
  - by rewrite get_alter_ne.
Qed.

Lemma indexOf_phase_inj p q :
  JS.indexOf Orders.ORDER_PHASES p = JS.indexOf Orders.ORDER_PHASES q → p = q.
Proof. rewrite !indexOf_phase. destruct p, q; (done || lia). Qed.

Section Annotate.
Import Orders.
Variables (userId : string) (now : Z) (body : Update.t).
Variables (documents : list Document.t) (o : Order.t).
Let o' := annotate userId now body documents o.

Lemma annotate_currentPhase : Order.currentPhase o' = Order.currentPhase o.
Proof.
  subst o'. unfold annotate.
  destruct (Update.notes body) as [n|]; [destruct (String.eqb n "")|];
    destruct (0 <? _); destruct (Update.estimatedDelivery body);
    simpl; destruct (decide _); reflexivity.
Qed.

Lemma annotate_identity :
  Order.id o' = Order.id o ∧ Order.exporterId o' = Order.exporterId o
  ∧ Order.importerId o' = Order.importerId o.
Proof.
  subst o'. unfold annotate.
  destruct (Update.notes body) as [n|]; [destruct (String.eqb n "")|];
    destruct (0 <? _); destruct (Update.estimatedDelivery body);
    simpl; destruct (decide _); done.
Qed.

Lemma annotate_phase p :
  let r := Phases.get (Order.phases o) p in
  let r' := Phases.get (Order.phases o') p in
  PhaseRecord.status r' = PhaseRecord.status r
  ∧ PhaseRecord.startedAt r' = PhaseRecord.startedAt r
  ∧ PhaseRecord.completedAt r' = PhaseRecord.completedAt r
  ∧ PhaseRecord.updatedBy r' =
      (if decide (p = Order.currentPhase o) then Some userId
       else PhaseRecord.updatedBy r).
Proof.
  subst o'. unfold annotate.
  destruct (Update.notes body) as [n|]; [destruct (String.eqb n "")|];
    destruct (0 <? _); destruct (Update.estimatedDelivery body);
    simpl; destruct (decide (_ ∧ _)); simpl;
    destruct (Order.currentPhase o), p; done.
Qed.

Lemma annotate_status :
  Order.status o' =
  if decide (Order.currentPhase o = Phase.delivery
             ∧ phaseStatus o Phase.delivery = "completed")
  then "completed" else Order.status o.
Proof.
  subst o'. unfold annotate, phaseStatus.
  destruct (Update.notes body) as [n|]; [destruct (String.eqb n "")|];
    destruct (0 <? _); destruct (Update.estimatedDelivery body);
    simpl; destruct (Order.currentPhase o); simpl;
    repeat (destruct (decide _) as [[? ?]|?]); simpl; try done; tauto.
Qed.
End Annotate.

Section Advance.
Import Orders.
Variables (userId : string) (now : Z) (phase : Phase.t) (o : Order.t).
Let a := advance userId now phase o.

Lemma advance_currentPhase :
  Order.currentPhase a =
  if phaseIndex o <? JS.indexOf ORDER_PHASES phase then phase
  else Order.currentPhase o.
Proof.
  subst a. unfold advance, phaseIndex.
  destruct (decide _); destruct (_ <? _); reflexivity.
Qed.

Lemma advance_fixed :
  Order.status a = Order.status o ∧ Order.id a = Order.id o
  ∧ Order.exporterId a = Order.exporterId o
  ∧ Order.importerId a = Order.importerId o.
Proof.
  subst a. unfold advance.
  destruct (decide _); destruct (_ <? _); done.
Qed.

(** The record of the phase left behind by a forward move. *)
Lemma advance_left :
  JS.indexOf ORDER_PHASES phase = phaseIndex o + 1 →
  phaseStatus o (Order.currentPhase o) = "pending" →
  let r := Phases.get (Order.phases a) (Order.currentPhase o) in
  PhaseRecord.status r = "completed"
  ∧ PhaseRecord.completedAt r = Some now
  ∧ PhaseRecord.updatedBy r = Some userId.
Proof.
  subst a. unfold advance, phaseIndex, phaseStatus. intros Hnext Hpending.
  destruct (decide _) as [_|Hne]; [|done].
  destruct (Z.ltb_spec (JS.indexOf ORDER_PHASES (Order.currentPhase o))
              (JS.indexOf ORDER_PHASES phase)); [|lia].
  simpl. rewrite get_alter_ne by (intros ->; lia).
  by rewrite get_alter_eq.
Qed.

(** The record of the phase a forward move opens. *)
Lemma advance_opened :
  phaseIndex o < JS.indexOf ORDER_PHASES phase →
  let r := Phases.get (Order.phases a) phase in
  PhaseRecord.status r = "pending"
  ∧ PhaseRecord.startedAt r = Some now
  ∧ PhaseRecord.updatedBy r = Some userId.
Proof.
  subst a. unfold advance, phaseIndex. intros Hlt.
  destruct (Z.ltb_spec (JS.indexOf ORDER_PHASES (Order.currentPhase o))
              (JS.indexOf ORDER_PHASES phase)); [|lia].
  destruct (decide _); simpl; by rewrite get_alter_eq.
Qed.

Lemma advance_phaseStatus p :
  phaseStatus a p =
  if (phaseIndex o <? JS.indexOf ORDER_PHASES phase) && bool_decide (p = phase)
  then "pending"
  else if bool_decide (p = Order.currentPhase o)
          && bool_decide (phaseStatus o p = "pending")
       then "completed"
       else phaseStatus o p.
Proof.
  subst a. unfold advance, phaseIndex, phaseStatus.
  destruct (Z.ltb_spec (JS.indexOf ORDER_PHASES (Order.currentPhase o))
              (JS.indexOf ORDER_PHASES phase)) as [Hlt|Hge];
    destruct (decide (PhaseRecord.status
                        (Phases.get (Order.phases o) (Order.currentPhase o))
                      = "pending")) as [Hpen|Hpen];
    simpl; repeat case_bool_decide; simplify_eq; simpl;
    rewrite ?get_alter_eq; try done;
    repeat (rewrite get_alter_ne by congruence; rewrite ?get_alter_eq);
    try done.
  all: try (rewrite get_alter_ne by (intros ->; lia)).
  all: by rewrite ?get_alter_eq.
Qed.
End Advance.

Section UpdateOrderPhase.
Import Orders.
Variables (userId : string) (now : Z) (id : string) (body : Update.t).
Variables (files : option (list Upload)) (orders : list Order.t).
Variables (orderIndex : nat) (order : Order.t).
Hypothesis found : list_find (partyTo id userId) orders = Some (orderIndex, order).
Hypothesis active : Order.status order = "active".
Let result := updateOrderPhase userId now id body files orders.

Lemma update_backward phase :
  orderUpdateValidation body = true →
  Update.phase body = Some (phaseName phase) →
  JS.indexOf ORDER_PHASES phase < phaseIndex order →
  result = (Error 400 "Cannot move to previous phase", orders).
Proof.
  intros Hvalid Hphase Hlt. subst result. unfold updateOrderPhase.
  rewrite Hvalid, found. simpl. rewrite decide_False by (by intros []).
  rewrite Hphase. simpl. rewrite phaseOfName_name.
  unfold phaseIndex in Hlt.
  destruct (Z.ltb_spec (JS.indexOf ORDER_PHASES phase)
              (JS.indexOf ORDER_PHASES (Order.currentPhase order))); [done|lia].
Qed.

Lemma update_skip phase :
  orderUpdateValidation body = true →
  Update.phase body = Some (phaseName phase) →
  phaseIndex order + 1 < JS.indexOf ORDER_PHASES phase →
  result = (Error 400 "Cannot skip phases", orders).
Proof.
  intros Hvalid Hphase Hlt. subst result. unfold updateOrderPhase.
  rewrite Hvalid, found. simpl. rewrite decide_False by (by intros []).
  rewrite Hphase. simpl. rewrite phaseOfName_name.
  unfold phaseIndex in Hlt.
  destruct (Z.ltb_spec (JS.indexOf ORDER_PHASES phase)
              (JS.indexOf ORDER_PHASES (Order.currentPhase order))); [lia|].
  destruct (Z.ltb_spec (JS.indexOf ORDER_PHASES (Order.currentPhase order) + 1)
              (JS.indexOf ORDER_PHASES phase)); [done|lia].
Qed.

(** Every reply other than the two above and the validation error stores
    [updated]. *)
Lemma update_stores :
  orderUpdateValidation body = true →
  (∀ phase, Update.phase body ≫= phaseOfName = Some phase →
     phaseIndex order <= JS.indexOf ORDER_PHASES phase <= phaseIndex order + 1) →
  result = (Ok 200 "Order updated successfully"
              (Orders.updated userId now body files order),
            <[orderIndex := Orders.updated userId now body files order]> orders).
Proof.
  intros Hvalid Hrange. subst result. unfold updateOrderPhase, updated.
  rewrite Hvalid, found. simpl. rewrite decide_False by (by intros []).
  destruct (Update.phase body ≫= phaseOfName) as [phase|]; [|done].
  specialize (Hrange phase eq_refl). unfold phaseIndex in Hrange.
  destruct (Z.ltb_spec (JS.indexOf ORDER_PHASES phase)
              (JS.indexOf ORDER_PHASES (Order.currentPhase order))); [lia|].
  destruct (Z.ltb_spec (JS.indexOf ORDER_PHASES (Order.currentPhase order) + 1)
              (JS.indexOf ORDER_PHASES phase)); [lia|done].
Qed.
End UpdateOrderPhase.

(** What a call of [updateOrderPhase] can do to the store. *)
Lemma updateOrderPhase_store userId now id body files orders :
  let orders' := snd (Orders.updateOrderPhase userId now id body files orders) in
  orders' = orders
  ∨ ∃ orderIndex order,
      list_find (Orders.partyTo id userId) orders = Some (orderIndex, order)
      ∧ Order.status order = "active"
      ∧ (∀ phase, Orders.Update.phase body ≫= Orders.phaseOfName = Some phase →
           Orders.phaseIndex order <= JS.indexOf Orders.ORDER_PHASES phase
             <= Orders.phaseIndex order + 1)
      ∧ orders' = <[orderIndex := Orders.updated userId now body files order]> orders.
Proof.
  unfold Orders.updateOrderPhase, Orders.updated, Orders.phaseIndex.
  destruct (Orders.orderUpdateValidation body); simpl; [|by left].
  destruct (list_find _ orders) as [[orderIndex order]|] eqn:found; [|by left].
  destruct (decide (Order.status order ≠ "active")) as [|Hact]; [by left|].
  apply dec_stable in Hact.
  destruct (Orders.Update.phase body ≫= Orders.phaseOfName) as [phase|].
  - destruct (Z.ltb_spec (JS.indexOf Orders.ORDER_PHASES phase)
                (JS.indexOf Orders.ORDER_PHASES (Order.currentPhase order)));
      [by left|].
    destruct (Z.ltb_spec (JS.indexOf Orders.ORDER_PHASES (Order.currentPhase order) + 1)
                (JS.indexOf Orders.ORDER_PHASES phase)); [by left|].
    right. exists orderIndex, order.
    split; [done|]. split; [done|]. split; [|done].
    intros ph [= <-]. lia.
  - right. exists orderIndex, order.
    split; [done|]. split; [done|]. split; [|done]. intros ph [=].
Qed.

Lemma indexOf_phase_ne p q :
  p ≠ q → JS.indexOf Orders.ORDER_PHASES p ≠ JS.indexOf Orders.ORDER_PHASES q.
Proof. intros Hne Heq. by apply Hne, indexOf_phase_inj. Qed.

Ltac index_facts :=
  repeat match goal with
  | H : ?p ≠ ?q |- _ =>
      lazymatch type of p with
      | Phase.t => apply indexOf_phase_ne in H
      end
  end.

Section Keeps.
Import Orders.

Lemma advance_keeps userId now phase o :
  phasesShape o →
  phaseIndex o <= JS.indexOf ORDER_PHASES phase <= phaseIndex o + 1 →
  phasesShape (advance userId now phase o).
Proof.
  intros (Hcur & Hpen & Hbefore & Hafter) Hrange.
  unfold phasesShape, phaseIndex in *.
  rewrite advance_currentPhase. unfold phaseIndex.
  destruct (Z.ltb_spec (JS.indexOf ORDER_PHASES (Order.currentPhase o))
              (JS.indexOf ORDER_PHASES phase)) as [Hlt|Hge].
  - split; [|split; [|split]]; [|intros p..]; rewrite advance_phaseStatus;
      unfold phaseIndex;
      (destruct (Z.ltb_spec (JS.indexOf ORDER_PHASES (Order.currentPhase o))
                 (JS.indexOf ORDER_PHASES phase)); [|lia]); simpl;
      repeat case_bool_decide; simplify_eq; simpl; try done; try tauto; try lia.
    all: try (intros; lia).
    all: try (intros Hp; apply Hpen in Hp; done).
    all: intros Hp; index_facts;
      first [apply Hbefore; lia | apply Hafter; lia | idtac].
    all: destruct Hcur; congruence.
  - assert (phase = Order.currentPhase o) as -> by (apply indexOf_phase_inj; lia).
    split; [|split; [|split]]; [|intros p..]; rewrite advance_phaseStatus;
      unfold phaseIndex;
      (destruct (Z.ltb_spec (JS.indexOf ORDER_PHASES (Order.currentPhase o))
                 (JS.indexOf ORDER_PHASES (Order.currentPhase o))); [lia|]); simpl;
      repeat case_bool_decide; simplify_eq; simpl; try done; try tauto; try lia.
    all: try (intros; lia).
    all: try (intros Hp; apply Hpen in Hp; done).
    all: try (intros Hp; index_facts;
              first [apply Hbefore; lia | apply Hafter; lia]).
    all: try (destruct Hcur; congruence).
Qed.

Lemma phasesShape_ext o o' :
  Order.currentPhase o' = Order.currentPhase o →
  (∀ p, phaseStatus o' p = phaseStatus o p) →
  phasesShape o → phasesShape o'.
Proof.
  intros Hcur Hst. unfold phasesShape, phaseIndex. rewrite Hcur.
  rewrite !Hst. intros (H1 & H2 & H3 & H4).
  split; [done|]. split; [|split]; intros p; rewrite Hst; auto.
Qed.

Lemma annotate_keeps userId now body documents o :
  phasesShape o → phasesShape (annotate userId now body documents o).
Proof.
  apply phasesShape_ext.
  - apply annotate_currentPhase.
  - intros p. apply annotate_phase.
Qed.

Lemma updated_keeps userId now body files o :
  phasesShape o →
  (∀ phase, Update.phase body ≫= phaseOfName = Some phase →
     phaseIndex o <= JS.indexOf ORDER_PHASES phase <= phaseIndex o + 1) →
  phasesShape (updated userId now body files o).
Proof.
  intros Hshape Hrange. unfold updated. apply annotate_keeps.
  destruct (Update.phase body ≫= phaseOfName) as [phase|]; [|done].
  apply advance_keeps; auto.
Qed.

Lemma updated_phaseIndex userId now body files o :
  (∀ phase, Update.phase body ≫= phaseOfName = Some phase →
     phaseIndex o <= JS.indexOf ORDER_PHASES phase <= phaseIndex o + 1) →
  phaseIndex o <= phaseIndex (updated userId now body files o)
  ∧ Order.id (updated userId now body files o) = Order.id o.
Proof.
  intros Hrange. unfold updated, phaseIndex.
  rewrite annotate_currentPhase.
  destruct (annotate_identity userId now body
              match files with Some fs => toDocument userId now <$> fs | None => [] end
              match Update.phase body ≫= phaseOfName with
              | Some phase => advance userId now phase o
              | None => o
              end) as (-> & _).
  destruct (Update.phase body ≫= phaseOfName) as [phase|]; [|done].
  rewrite advance_currentPhase. specialize (Hrange phase eq_refl).
  destruct (advance_fixed userId now phase o) as (_ & -> & _).
  unfold phaseIndex in *. destruct (_ <? _); (split; [lia|done]).
Qed.
End Keeps.

(** ** The order store along the handlers *)

Section OrderSteps.
Import Orders.

Lemma evolves_refl o : evolves o o.
Proof. unfold evolves. split; [done|]. split; [lia|done]. Qed.

Lemma evolves_trans o1 o2 o3 : evolves o1 o2 → evolves o2 o3 → evolves o1 o3.
Proof.
  intros (Hid1 & Hle1 & Hinv1) (Hid2 & Hle2 & Hinv2). unfold evolves.
  split; [congruence|]. split; [lia|auto].
Qed.

Lemma evolves_updated userId now body files o :
  Order.status o = "active" →
  (∀ phase, Update.phase body ≫= phaseOfName = Some phase →
     phaseIndex o <= JS.indexOf ORDER_PHASES phase <= phaseIndex o + 1) →
  evolves o (updated userId now body files o).
Proof.
  intros Hact Hrange.
  destruct (updated_phaseIndex userId now body files o Hrange) as [Hle Hid].
  split; [done|]. split; [done|].
  intros Hinv _. apply updated_keeps; auto.
Qed.

Lemma evolves_upload userId now docs ph o :
  evolves o
    (Order.set_updatedAt now
       (Order.alter_phase
          (λ p, PhaseRecord.set_updatedBy userId (PhaseRecord.push_documents docs p))
          ph o)).
Proof.
  split; [done|]. split; [unfold phaseIndex; simpl; lia|].
  intros Hinv Hact. simpl in Hact. specialize (Hinv Hact).
  revert Hinv. apply phasesShape_ext; [done|].
  intros p. unfold phaseStatus. simpl.
  destruct (decide (ph = p)) as [->|Hne].
  - by rewrite get_alter_eq.
  - by rewrite get_alter_ne.
Qed.

Lemma evolves_cancel reason userId now o :
  evolves o (Order.cancel reason userId now o).
Proof.
  split; [done|]. split; [unfold phaseIndex; simpl; lia|].
  intros _ Hact. simpl in Hact. discriminate Hact.
Qed.

Lemma step_change orders orders' : step orders orders' → change orders orders'.
Proof.
  destruct 1 as [bids requirements users now uuid bidId orders
                | userId now id body files orders
                | userId now id phase files orders
                | userId now id reason orders].
  - unfold createOrderFromBid.
    destruct (JS.find _ bids) as [bid|]; [|constructor].
    destruct (JS.find _ requirements) as [requirement|]; [|constructor].
    destruct (JS.find _ users) as [exporter|]; [|constructor].
    destruct (JS.find _ users) as [importer|]; [|constructor].
    destruct (JS.timeClip _) as [estimatedDelivery|]; [|constructor].
    simpl. apply change_push; [|reflexivity].
    unfold phasesShape, phaseStatus, phaseIndex. simpl.
    split; [by left|]. split; [|split]; intros p; rewrite ?indexOf_phase;
      destruct p; simpl; (done || lia).
  - destruct (updateOrderPhase_store userId now id body files orders)
      as [-> | (i & o & Hfind & Hact & Hrange & ->)]; [constructor|].
    apply list_find_Some in Hfind as (Hi & _ & _).
    eapply change_one; [done|]. by apply evolves_updated.
  - unfold uploadOrderDocuments.
    destruct (phaseOfName phase) as [ph|]; [|constructor].
    destruct (list_find _ orders) as [[i o]|] eqn:Hfind; [|constructor].
    destruct (decide _); [constructor|].
    destruct (decide _); [constructor|]. simpl.
    apply list_find_Some in Hfind as (Hi & _ & _).
    eapply change_one; [done|]. apply evolves_upload.
  - unfold cancelOrder.
    destruct (list_find _ orders) as [[i o]|] eqn:Hfind; [|constructor].
    destruct (decide _); [constructor|].
    destruct (_ <? _); [constructor|]. simpl.
    apply list_find_Some in Hfind as (Hi & _ & _).
    eapply change_one; [done|]. apply evolves_cancel.
Qed.

Lemma change_keeps orders orders' :
  change orders orders' → Forall phasesInOrder orders → Forall phasesInOrder orders'.
Proof.
  destruct 1 as [|i o o' Hi (_ & _ & Hinv)|o Hshape _]; intros Hall; [done|..].
  - apply Forall_insert; [done|]. apply Hinv.
    by apply (Forall_lookup_1 _ _ _ _ Hall Hi).
  - apply Forall_app. split; [done|].
    apply Forall_cons. split; [by intros _|constructor].
Qed.

Lemma change_lookup orders orders' j o :
  change orders orders' → orders !! j = Some o →
  ∃ o', orders' !! j = Some o' ∧ evolves o o'.
Proof.
  destruct 1 as [|i oi o' Hi Hev|onew _ _]; intros Hj.
  - exists o. split; [done|apply evolves_refl].
  - destruct (decide (i = j)) as [->|Hne].
    + exists o'. rewrite list_lookup_insert_eq by (by eapply lookup_lt_Some).
      split; [done|]. congruence.
    + exists o. rewrite list_lookup_insert_ne by done.
      split; [done|apply evolves_refl].
  - exists o. rewrite lookup_app_l by (by eapply lookup_lt_Some).
    split; [done|apply evolves_refl].
Qed.

Lemma steps_lookup orders orders' j o :
  rtc step orders orders' → orders !! j = Some o →
  ∃ o', orders' !! j = Some o' ∧ evolves o o'.
Proof.
  intros Hsteps. revert o. induction Hsteps as [|s1 s2 s3 Hstep _ IH]; intros o Hj.
  - exists o. split; [done|apply evolves_refl].
  - destruct (change_lookup _ _ _ _ (step_change _ _ Hstep) Hj) as (o2 & Hj2 & Hev).
    destruct (IH _ Hj2) as (o3 & Hj3 & Hev3).
    exists o3. split; [done|]. by eapply evolves_trans.
Qed.

Lemma steps_keep orders orders' :
  rtc step orders orders' →
  Forall phasesInOrder orders → Forall phasesInOrder orders'.
Proof.
  induction 1 as [|s1 s2 s3 Hstep _ IH]; [done|].
  intros H1. apply IH. eapply change_keeps; [by apply step_change|done].
Qed.

Lemma reachable_phasesInOrder orders :
  reachable orders → Forall phasesInOrder orders.
Proof. intros Hsteps. apply (steps_keep _ _ Hsteps). constructor. Qed.
End OrderSteps.

(** C7. For an active order of the caller and a valid request that names a
    target phase: a target before the current phase is refused with the 400
    error "Cannot move to previous phase" and a target more than one step
    ahead with the 400 error "Cannot skip phases", the store unchanged in
    both cases; a target one step ahead is stored: the phase left behind, if
    it was pending, is completed at [now] by the caller, and the target is
    the current phase, pending, started at [now] by the caller.  Along any
    sequence of calls an order stays in the store and the index of its
    current phase never decreases. *)
Theorem updateOrderPhase_progression
    userId now id body files orders orderIndex order phase :
  list_find (Orders.partyTo id userId) orders = Some (orderIndex, order) →
  Order.status order = "active" →
  Orders.orderUpdateValidation body = true →
  Orders.Update.phase body = Some (Orders.phaseName phase) →
  let result := Orders.updateOrderPhase userId now id body files orders in
  let current := Order.currentPhase order in
  (JS.indexOf Orders.ORDER_PHASES phase < Orders.phaseIndex order →
   result = (Error 400 "Cannot move to previous phase", orders))
  ∧ (Orders.phaseIndex order + 1 < JS.indexOf Orders.ORDER_PHASES phase →
     result = (Error 400 "Cannot skip phases", orders))
  ∧ (JS.indexOf Orders.ORDER_PHASES phase = Orders.phaseIndex order + 1 →
     ∃ order',
       result = (Ok 200 "Order updated successfully" order',
                 <[orderIndex := order']> orders)
       ∧ Order.currentPhase order' = phase
       ∧ Order.status order' = "active"
       ∧ (Orders.phaseStatus order current = "pending" →
          let left := Phases.get (Order.phases order') current in
          PhaseRecord.status left = "completed"
          ∧ PhaseRecord.completedAt left = Some now
          ∧ PhaseRecord.updatedBy left = Some userId)
       ∧ (let opened := Phases.get (Order.phases order') phase in
          PhaseRecord.status opened = "pending"
          ∧ PhaseRecord.startedAt opened = Some now
          ∧ PhaseRecord.updatedBy opened = Some userId))
  ∧ (∀ orders' j o,
       rtc Orders.step orders orders' → orders !! j = Some o →
       ∃ o', orders' !! j = Some o' ∧ Order.id o' = Order.id o
             ∧ Orders.phaseIndex o <= Orders.phaseIndex o').
Proof.
  intros found active Hvalid Hphase result current. subst result current.
  split; [|split; [|split]].
  - intros Hlt. eapply update_backward; eassumption.
  - intros Hlt. eapply update_skip; eassumption.
  - intros Hnext.
    assert (Hparsed : Orders.Update.phase body ≫= Orders.phaseOfName = Some phase)
      by (rewrite Hphase; apply phaseOfName_name).
    eexists. split.
    { apply (update_stores _ _ _ _ _ _ _ _ found active Hvalid).
      intros ph Hph. rewrite Hparsed in Hph. injection Hph as <-. lia. }
    unfold Orders.updated. rewrite Hparsed.
    set (docs := match files with
                 | Some fs => Orders.toDocument userId now <$> fs
                 | None => []
                 end).
    set (a := Orders.advance userId now phase order).
    assert (Hlt : Orders.phaseIndex order < JS.indexOf Orders.ORDER_PHASES phase)
      by lia.
    assert (Hcur : Order.currentPhase a = phase).
    { subst a. rewrite advance_currentPhase.
      by destruct (Z.ltb_spec (Orders.phaseIndex order)
                     (JS.indexOf Orders.ORDER_PHASES phase)); [|lia]. }
    destruct (advance_opened userId now phase order Hlt) as (Ho1 & Ho2 & Ho3).
    split; [by rewrite annotate_currentPhase|]. split; [|split].
    + rewrite annotate_status, Hcur.
      destruct (advance_fixed userId now phase order) as (Hst & _).
      fold a in Hst. rewrite Hst.
      rewrite decide_False; [done|].
      intros [-> Hdone]. unfold Orders.phaseStatus in Hdone.
      fold a in Ho1. congruence.
    + intros Hpending.
      destruct (advance_left userId now phase order Hnext Hpending)
        as (Hl1 & Hl2 & Hl3).
      destruct (annotate_phase userId now body docs a (Order.currentPhase order))
        as (-> & _ & -> & ->).
      fold a in Hl1, Hl2, Hl3. split; [done|]. split; [done|].
      by destruct (decide _).
    + destruct (annotate_phase userId now body docs a phase)
        as (-> & -> & _ & ->).
      fold a in Ho1, Ho2, Ho3. split; [done|]. split; [done|].
      by destruct (decide _).
  - intros orders' j o Hsteps Hj.
    destruct (steps_lookup _ _ _ _ Hsteps Hj) as (o' & Hj' & Hid & Hle & _).
    by exists o'.
Qed.

Lemma updateOrderPhase_progression_witness :
  list_find (Orders.partyTo "order-1" "imp-1") Sample.orders
    = Some (0%nat, Sample.order)
  ∧ Order.status Sample.order = "active"
  ∧ Orders.orderUpdateValidation Sample.toPayment = true
  ∧ Orders.Update.phase Sample.toPayment = Some (Orders.phaseName Phase.payment)
  ∧ ∃ order',
      Orders.updateOrderPhase "imp-1" Sample.now "order-1" Sample.toPayment None
        Sample.orders
      = (Ok 200 "Order updated successfully" order', <[0%nat := order']> Sample.orders)
      ∧ Order.currentPhase order' = Phase.payment.
Proof.
  assert (found : list_find (Orders.partyTo "order-1" "imp-1") Sample.orders
                  = Some (0%nat, Sample.order)) by reflexivity.
  assert (valid : Orders.orderUpdateValidation Sample.toPayment = true)
    by reflexivity.
  split; [exact found|]. split; [reflexivity|]. split; [exact valid|].
  split; [reflexivity|].
  destruct (updateOrderPhase_progression "imp-1" Sample.now "order-1"
              Sample.toPayment None Sample.orders 0%nat Sample.order
              Phase.payment found eq_refl valid eq_refl)
    as (_ & _ & Hforward & _).
  destruct (Hforward eq_refl) as (order' & Hresult & Hcurrent & _).
  exists order'. split; [exact Hresult | exact Hcurrent].
Defined.

(** ** The phases of a stored order *)

Lemma reachable_sample : Orders.reachable Sample.orders.
Proof.
  apply rtc_once.
  exact (Orders.step_create [Sample.acceptedBid] [Sample.requirement]
           Sample.users Sample.now "order-1" "bid-a" []).
Qed.

Lemma reachable_confirmed : Orders.reachable Sample.ordersConfirmed.
Proof.
  eapply rtc_r; [apply reachable_sample|].
  exact (Orders.step_update "imp-1" (Sample.now + 1000) "order-1"
           Sample.confirmAgain None Sample.orders).
Qed.

(** C8, as stated, fails: after [createOrderFromBid] and one
    [updateOrderPhase] that names the current phase, the order is active,
    its current phase confirmation is completed and no phase is pending. *)
Lemma onePending_not_invariant :
  ¬ (∀ orders, Orders.reachable orders →
       ∀ o, o ∈ orders → Orders.onePending o).
Proof.
  intros Hclaim.
  destruct (Sample.ordersConfirmed) as [|o rest] eqn:Hstore;
    [vm_compute in Hstore; discriminate Hstore|].
  assert (Ho : o ∈ Sample.ordersConfirmed) by (rewrite Hstore; left).
  specialize (Hclaim _ reachable_confirmed o Ho).
  vm_compute in Hstore. injection Hstore as <- _.
  destruct (Hclaim eq_refl) as (Hpending & _).
  vm_compute in Hpending. discriminate Hpending.
Qed.

(** C8, amended. In every store the order handlers can build, an active
    order has its phases in order: every phase before the current one is
    completed, every phase after it is not started, the current phase is
    pending or completed, and no other phase is pending. *)
Theorem reachable_phases_in_order orders o :
  Orders.reachable orders → o ∈ orders → Order.status o = "active" →
  let current := Order.currentPhase o in
  (Orders.phaseStatus o current = "pending"
   ∨ Orders.phaseStatus o current = "completed")
  ∧ (∀ p, Orders.phaseStatus o p = "pending" → p = current)
  ∧ (∀ p, JS.indexOf Orders.ORDER_PHASES p < JS.indexOf Orders.ORDER_PHASES current →
          Orders.phaseStatus o p = "completed")
  ∧ (∀ p, JS.indexOf Orders.ORDER_PHASES current < JS.indexOf Orders.ORDER_PHASES p →
          Orders.phaseStatus o p = "not_started").
Proof.
  intros Hreach Ho Hact.
  apply reachable_phasesInOrder in Hreach.
  rewrite list.Forall_forall in Hreach.
  exact (Hreach o Ho Hact).
Qed.

Lemma reachable_phases_in_order_witness :
  Orders.reachable Sample.ordersConfirmed
  ∧ Orders.phaseStatus (Orders.updated "imp-1" (Sample.now + 1000)
                          Sample.confirmAgain None Sample.order)
      Phase.payment = "not_started".
Proof.
  split; [exact reachable_confirmed|].
  refine (proj2 (proj2 (proj2
    (reachable_phases_in_order Sample.ordersConfirmed
       (Orders.updated "imp-1" (Sample.now + 1000) Sample.confirmAgain None
          Sample.order)
       reachable_confirmed _ _))) Phase.payment _).
  - left.
  - reflexivity.
  - vm_compute. reflexivity.
Defined.

(** ** Bid integrity *)

Section Integrity.
Import Bidding Normalizer.
Variables (requirements : list Requirement.t) (newBid : Bid.t).
Variable existingBids : list Bid.t.

Lemma duplicate_rule :
  validateBidIntegrity requirements newBid existingBids
    = NotValid "Exporter has already submitted a bid for this requirement"
  ↔ ∃ b, b ∈ existingBids ∧ sameExporterBid newBid b.
Proof.
  unfold validateBidIntegrity.
  destruct (filter _ existingBids) as [|b rest] eqn:Hfilter; simpl.
  - split.
    + destruct (JS.find _ requirements) as [r|]; [|done].
      destruct (Requirement.targetPrice r) as [t|]; [|done].
      destruct (JS.truthy t); [|done]. by destruct (_ <? _)%float.
    + intros (b & Hb & Hsame).
      assert (b ∈ filter (λ b, Bid.exporterId b = Bid.exporterId newBid
                               ∧ Bid.requirementId b = Bid.requirementId newBid)
                existingBids) as Hin
        by (apply list_elem_of_filter; split; [exact Hsame | exact Hb]).
      rewrite Hfilter in Hin. by apply elem_of_nil in Hin.
  - split; [|done]. intros _. exists b.
    assert (b ∈ b :: rest) as Hin by left.
    rewrite <- Hfilter in Hin. apply list_elem_of_filter in Hin as [Hsame Hb].
    by split.
Qed.

Lemma no_duplicate :
  (∀ b, b ∈ existingBids → ¬ sameExporterBid newBid b) →
  filter (λ b, Bid.exporterId b = Bid.exporterId newBid
               ∧ Bid.requirementId b = Bid.requirementId newBid) existingBids = [].
Proof.
  intros Hnone. destruct (filter _ existingBids) as [|b rest] eqn:Hfilter; [done|].
  assert (b ∈ b :: rest) as Hin by left.
  rewrite <- Hfilter in Hin. apply list_elem_of_filter in Hin as [Hsame Hb].
  by destruct (Hnone b Hb).
Qed.
End Integrity.

(** C4, what the code does instead.  The products and the threshold are
    rounded, and the rounding decides at the boundary.  On a target of 3.00
    USD a candidate at 0.30 USD, a tenth of the target as the specification
    counts it, is rejected: [3 * 0.1] is 0.30000000000000004.  On a target of
    0.7 USD the candidate 0.06999999999999999 is accepted although its exact
    value is below a tenth of the exact value of the target: [0.7 * 0.1]
    rounds down to the candidate itself. *)
Lemma suspicious_price_rounding :
  Bidding.validateBidIntegrity [Sample.asking 3 "USD"] (Sample.candidate 0.3) []
    = Bidding.NotValid "Bid price is suspiciously low"
  ∧ ¬ Spec.suspiciouslyLow 0.3 "USD" 3 "USD"
  ∧ Bidding.validateBidIntegrity [Sample.asking 0.7 "USD"]
      (Sample.candidate 0.06999999999999999) []
    = Bidding.Valid
  ∧ ∃ price target,
      JS.exact 0.06999999999999999 = Some price
      ∧ JS.exact 0.7 = Some target
      ∧ Spec.suspiciouslyLow price "USD" target "USD".
Proof.
  split; [by vm_compute|]. split; [by vm_compute|]. split; [by vm_compute|].
  eexists _, _. split; [by vm_compute|]. split; [by vm_compute|]. by vm_compute.
Qed.

(** C4. For a candidate bid that passes the duplicate-exporter rule, on a
    requirement with a target price.  A target price that is zero or NaN
    counts as none: the candidate is accepted.  Otherwise, with the rates of
    the table (USD 1, EUR 1.1, INR 0.012, GBP 1.25, JPY 0.0067, CNY 0.14),
    the validator answers "Bid price is suspiciously low" exactly when the
    binary64 product of the candidate's price and its rate is below the
    binary64 product of the target price, its rate and 0.1, and accepts
    otherwise.  On a target of 4.00 USD, candidates at 0.30 USD, 0.36 EUR and
    33 INR are rejected and candidates at 0.50 USD, 0.40 USD, 0.37 EUR and
    34 INR are accepted; on a target of 4.00 EUR a candidate at 0.43 USD is
    rejected and one at 0.45 USD is accepted. *)
Theorem suspicious_price_rule :
  (∀ requirements newBid existingBids requirement targetPrice,
     (∀ b, b ∈ existingBids → ¬ Bidding.sameExporterBid newBid b) →
     JS.find (λ r, Requirement.id r = Bid.requirementId newBid) requirements
       = Some requirement →
     Requirement.targetPrice requirement = Some targetPrice →
     let verdict := Bidding.validateBidIntegrity requirements newBid existingBids in
     (JS.truthy targetPrice = false → verdict = Bidding.Valid)
     ∧ (JS.truthy targetPrice = true →
        ∀ rate targetRate,
          let rates :=
            [ ("USD", 1%float); ("EUR", 1.1%float); ("INR", 0.012%float);
              ("GBP", 1.25%float); ("JPY", 0.0067%float); ("CNY", 0.14%float) ] in
          (Bid.currency newBid, rate) ∈ rates →
          (Requirement.currency requirement, targetRate) ∈ rates →
          let low :=
            (Bid.price newBid * rate <? targetPrice * targetRate * 0.1)%float in
          (verdict = Bidding.NotValid "Bid price is suspiciously low" ↔ low = true)
          ∧ (verdict = Bidding.Valid ↔ low = false)))
  ∧ (∀ price currency,
       (price, currency) ∈ [(0.30%float, "USD"); (0.36%float, "EUR"); (33%float, "INR")] →
       Bidding.validateBidIntegrity [Sample.asking 4 "USD"]
         (Sample.bidFor "cand" "exp-9" price currency 3 "weeks" "active") []
       = Bidding.NotValid "Bid price is suspiciously low")
  ∧ (∀ price currency,
       (price, currency)
         ∈ [(0.50%float, "USD"); (0.40%float, "USD"); (0.37%float, "EUR");
            (34%float, "INR")] →
       Bidding.validateBidIntegrity [Sample.asking 4 "USD"]
         (Sample.bidFor "cand" "exp-9" price currency 3 "weeks" "active") []
       = Bidding.Valid)
  ∧ Bidding.validateBidIntegrity [Sample.asking 4 "EUR"] (Sample.candidate 0.43) []
    = Bidding.NotValid "Bid price is suspiciously low"
  ∧ Bidding.validateBidIntegrity [Sample.asking 4 "EUR"] (Sample.candidate 0.45) []
    = Bidding.Valid.
Proof.
  split; [|split; [|split; [|by vm_compute]]].
  - intros requirements newBid existingBids requirement targetPrice
      Hnone Hreq Htarget verdict. subst verdict.
    unfold Bidding.validateBidIntegrity.
    rewrite (no_duplicate _ _ Hnone). simpl.
    rewrite Hreq, Htarget.
    destruct (JS.truthy targetPrice); (split; [done|]); [|done].
    intros _ rate targetRate Hrate HtargetRate.
    assert (∀ currency r price,
              (currency, r)
                ∈ [ ("USD", 1%float); ("EUR", 1.1%float); ("INR", 0.012%float);
                    ("GBP", 1.25%float); ("JPY", 0.0067%float);
                    ("CNY", 0.14%float) ] →
              Normalizer.convertToUSD price currency = (price * r)%float)
      as Hconv.
    { intros currency r price Hin.
      repeat (apply elem_of_cons in Hin as [[= -> ->] | Hin]); try reflexivity.
      by apply elem_of_nil in Hin. }
    rewrite (Hconv _ _ _ Hrate), (Hconv _ _ _ HtargetRate).
    destruct (_ <? _)%float; split; split; done.
  - intros price currency Hcase.
    repeat (apply elem_of_cons in Hcase as [[= -> ->] | Hcase]); [by vm_compute..|].
    by apply elem_of_nil in Hcase.
  - intros price currency Hcase.
    repeat (apply elem_of_cons in Hcase as [[= -> ->] | Hcase]); [by vm_compute..|].
    by apply elem_of_nil in Hcase.
Qed.

Lemma suspicious_price_rule_witness :
  JS.find (λ r, Requirement.id r = Bid.requirementId (Sample.candidate 0.30))
    [Sample.requirement] = Some Sample.requirement
  ∧ JS.truthy 4 = true
  ∧ (0.30 * 1 <? 4 * 1 * 0.1)%float = true
  ∧ Bidding.validateBidIntegrity [Sample.requirement] (Sample.candidate 0.30) []
    = Bidding.NotValid "Bid price is suspiciously low".
Proof.
  split; [reflexivity|]. split; [reflexivity|]. split; [reflexivity|].
  destruct suspicious_price_rule as [Hrule _].
  destruct (Hrule [Sample.requirement] (Sample.candidate 0.30) []
              Sample.requirement 4%float) as [_ Hdeclared].
  - intros b Hb. by apply elem_of_nil in Hb.
  - reflexivity.
  - reflexivity.
  - destruct (Hdeclared eq_refl 1%float 1%float) as [Hlow _].
    + by left.
    + by left.
    + by apply Hlow.
Defined.

Section Submit.
Import Bidding.
Variables (userId : string) (now : Z) (uuid : string) (body : Payload.t).
Variable s : Store.

Lemma submitBid_duplicate b :
  b ∈ bids s → Bid.exporterId b = userId →
  Bid.requirementId b = Payload.requirementId body →
  admissible userId now body s →
  submitBid userId now uuid body s =
    (Error 400 "Exporter has already submitted a bid for this requirement", s).
Proof.
  intros Hb Hexp Hreq (Hvalid & r & Hfind & Hact & Hdead & Hown).
  unfold submitBid. rewrite Hvalid, Hfind, Hdead. simpl.
  rewrite decide_False by (by intros []).
  rewrite decide_False by done.
  match goal with
  | |- context [validateBidIntegrity ?rs ?nb ?bs] =>
      assert (validateBidIntegrity rs nb bs
              = NotValid "Exporter has already submitted a bid for this requirement")
        as ->; [|done]
  end.
  apply duplicate_rule. exists b. by split.
Qed.

Lemma submitBid_ok code message bid s' :
  submitBid userId now uuid body s = (Ok code message bid, s') →
  bids s' = (bids s ++ [bid])%list
  ∧ Bid.exporterId bid = userId
  ∧ Bid.requirementId bid = Payload.requirementId body
  ∧ Bid.status bid = "active"
  ∧ admissible userId now body s.
Proof.
  unfold submitBid, admissible.
  destruct (bidValidation body); simpl; [|done].
  destruct (JS.find _ (requirements s)) as [r|] eqn:Hfind; [|done].
  destruct (decide (Requirement.status r ≠ "active")) as [|Hact]; [done|].
  apply dec_stable in Hact.
  destruct (deadlinePassed now _) eqn:Hdead; [done|].
  destruct (decide (Requirement.importerId r = userId)); [done|].
  destruct (validateBidIntegrity _ _ _); [|done].
  intros [= _ _ <- <-]. simpl.
  split; [done|]. split; [done|]. split; [done|]. split; [done|].
  split; [done|]. by exists r.
Qed.
End Submit.

Lemma withdrawBid_keeps userId now id s b :
  b ∈ Bidding.bids s →
  ∃ b', b' ∈ Bidding.bids (snd (Bidding.withdrawBid userId now id s))
        ∧ Bid.exporterId b' = Bid.exporterId b
        ∧ Bid.requirementId b' = Bid.requirementId b.
Proof.
  intros Hb. unfold Bidding.withdrawBid.
  destruct (list_find _ (Bidding.bids s)) as [[i bid]|]; [|by exists b].
  destruct (decide _); [by exists b|]. simpl.
  apply list_elem_of_lookup in Hb as [j Hj].
  destruct (decide (i = j)) as [->|Hne].
  - exists (Bid.set_status "withdrawn" now b). split; [|done].
    apply list_elem_of_lookup. exists j.
    by rewrite list_lookup_alter_eq, Hj.
  - exists b. split; [|done]. apply list_elem_of_lookup. exists j.
    by rewrite list_lookup_alter_ne.
Qed.

(** C3, as stated, fails: an exporter submits a bid and withdraws it; the
    only bid of the exporter on the requirement is then withdrawn, yet the
    duplicate-exporter rule rejects the resubmission. *)
Lemma withdrawn_bid_blocks_resubmission :
  replyCode (fst (Bidding.submitBid "exp-1" Sample.now "bid-1"
                    (Sample.payload 4.25) Sample.emptyStore)) = 201
  ∧ replyCode (fst (Bidding.withdrawBid "exp-1" (Sample.now + 1000) "bid-1"
                      Sample.submitted)) = 200
  ∧ Bid.status <$> Bidding.bids Sample.withdrawn = ["withdrawn"]
  ∧ Bidding.validateBidIntegrity (Bidding.requirements Sample.withdrawn)
      (Sample.bidFor "bid-2" "exp-1" 4.25 "USD" 3 "weeks" "active")
      (Bidding.bids Sample.withdrawn)
    = Bidding.NotValid "Exporter has already submitted a bid for this requirement"
  ∧ fst (Bidding.submitBid "exp-1" (Sample.now + 2000) "bid-2"
           (Sample.payload 4.25) Sample.withdrawn)
    = Error 400 "Exporter has already submitted a bid for this requirement".
Proof. by vm_compute. Qed.

(** C3, amended. The duplicate-exporter rule rejects a candidate bid exactly
    when some existing bid by the same exporter on the same requirement
    exists, whatever its status.  A submission that reaches the integrity
    check while the store holds such a bid is refused with the integrity
    reason; so is, after a successful submission, a second submission by the
    same exporter on the same requirement, with or without a withdrawal in
    between. *)
Theorem duplicate_exporter_rule :
  (∀ requirements newBid existingBids,
     Bidding.validateBidIntegrity requirements newBid existingBids
       = Bidding.NotValid "Exporter has already submitted a bid for this requirement"
     ↔ ∃ b, b ∈ existingBids
            ∧ Bid.exporterId b = Bid.exporterId newBid
            ∧ Bid.requirementId b = Bid.requirementId newBid)
  ∧ (∀ userId now uuid body s code message bid s1,
       Bidding.submitBid userId now uuid body s = (Ok code message bid, s1) →
       ∀ now' uuid' body',
         Bidding.Payload.requirementId body' = Bidding.Payload.requirementId body →
         (Bidding.admissible userId now' body' s1 →
          Bidding.submitBid userId now' uuid' body' s1 =
            (Error 400 "Exporter has already submitted a bid for this requirement", s1))
         ∧ ∀ withdrawer withdrawnAt withdrawnId,
             let s2 := snd (Bidding.withdrawBid withdrawer withdrawnAt withdrawnId s1) in
             Bidding.admissible userId now' body' s2 →
             Bidding.submitBid userId now' uuid' body' s2 =
               (Error 400 "Exporter has already submitted a bid for this requirement", s2)).
Proof.
  split; [intros; apply duplicate_rule|].
  intros userId now uuid body s code message bid s1 Hok now' uuid' body' Hsame.
  apply submitBid_ok in Hok as (Hbids & Hexp & Hreq & _ & _).
  assert (Hin : bid ∈ Bidding.bids s1).
  { rewrite Hbids. apply elem_of_app. right. left. }
  split.
  - intros Hadm. apply (submitBid_duplicate _ _ _ _ _ bid); [done|done| |done].
    congruence.
  - intros withdrawer withdrawnAt withdrawnId s2 Hadm.
    destruct (withdrawBid_keeps withdrawer withdrawnAt withdrawnId s1 bid Hin)
      as (b' & Hb' & Hexp' & Hreq').
    apply (submitBid_duplicate _ _ _ _ _ b'); [done| | |done]; congruence.
Qed.

Lemma duplicate_exporter_rule_witness :
  Bidding.submitBid "exp-1" Sample.now "bid-1" (Sample.payload 4.25) Sample.emptyStore
    = (Ok 201 "Bid submitted successfully" Sample.submittedBid,
       Sample.submitted)
  ∧ Bidding.admissible "exp-1" (Sample.now + 2000) (Sample.payload 4.25)
      Sample.withdrawn
  ∧ Bidding.submitBid "exp-1" (Sample.now + 2000) "bid-2" (Sample.payload 4.25)
      Sample.withdrawn
    = (Error 400 "Exporter has already submitted a bid for this requirement",
       Sample.withdrawn).
Proof.
  assert (Hok : Bidding.submitBid "exp-1" Sample.now "bid-1" (Sample.payload 4.25)
                  Sample.emptyStore
                = (Ok 201 "Bid submitted successfully" Sample.submittedBid,
                   Sample.submitted)) by reflexivity.
  assert (Hadm : Bidding.admissible "exp-1" (Sample.now + 2000)
                   (Sample.payload 4.25) Sample.withdrawn).
  { split; [reflexivity|]. eexists. split; [reflexivity|].
    split; [reflexivity|]. split; [reflexivity|]. discriminate. }
  split; [exact Hok|]. split; [exact Hadm|].
  destruct duplicate_exporter_rule as [_ Hround].
  destruct (Hround _ _ _ _ _ _ _ _ _ Hok (Sample.now + 2000) "bid-2"
              (Sample.payload 4.25) eq_refl) as [_ Hafter].
  exact (Hafter "exp-1" (Sample.now + 1000) "bid-1" Hadm).
Defined.

(** ** Bid acceptance *)

Section CountingFacts.
Context {A : Type} (P : A → Prop) `{∀ x, Decision (P x)}.

Lemma one_if_True x : P x → one_if P x = 1%nat.
Proof. intros Hx. unfold one_if. by rewrite decide_True. Qed.

Lemma one_if_False x : ¬ P x → one_if P x = 0%nat.
Proof. intros Hx. unfold one_if. by rewrite decide_False. Qed.

Lemma count_cons x l : count P (x :: l) = (one_if P x + count P l)%nat.
Proof.
  unfold count, one_if. rewrite filter_cons. by destruct (decide (P x)).
Qed.

Lemma count_app l1 l2 : count P (l1 ++ l2) = (count P l1 + count P l2)%nat.
Proof. unfold count. by rewrite filter_app, length_app. Qed.

Lemma count_insert l i x y :
  l !! i = Some x →
  (count P (<[i := y]> l) + one_if P x = count P l + one_if P y)%nat.
Proof.
  revert i. induction l as [|z l IH]; intros [|i] Hi; try done; simpl in *.
  - injection Hi as ->. rewrite !count_cons. lia.
  - rewrite !count_cons. specialize (IH i Hi).
    rewrite <- !Nat.add_assoc. f_equal. exact IH.
Qed.

Lemma count_alter f l i x :
  l !! i = Some x →
  (count P (alter f i l) + one_if P x = count P l + one_if P (f x))%nat.
Proof.
  revert i. induction l as [|z l IH]; intros [|i] Hi; try done; simpl in *.
  - injection Hi as ->. rewrite !count_cons. lia.
  - rewrite !count_cons. specialize (IH i Hi).
    rewrite <- !Nat.add_assoc. f_equal. exact IH.
Qed.

Lemma count_fmap f l : (∀ x, P (f x) ↔ P x) → count P (f <$> l) = count P l.
Proof.
  intros Hf. induction l as [|z l IH]; [done|].
  rewrite fmap_cons, !count_cons, IH. f_equal. unfold one_if.
  destruct (decide (P (f z))) as [Hz|Hz], (decide (P z)) as [Hz'|Hz'];
    try done; exfalso; [apply Hz', Hf, Hz | apply Hz, Hf, Hz'].
Qed.

Lemma count_zero l : (∀ x, x ∈ l → ¬ P x) → count P l = 0%nat.
Proof.
  intros Hnone. unfold count.
  destruct (filter P l) as [|x rest] eqn:Hfilter; [done|].
  assert (x ∈ x :: rest) as Hin by left.
  rewrite <- Hfilter in Hin. apply list_elem_of_filter in Hin as [Hx Hl].
  by destruct (Hnone x Hl).
Qed.
End CountingFacts.

(** [find] by a key on an array one element of which has been assigned
    fields other than the key. *)
Lemma list_find_alter_key {A} (key : A → string) (f : A → A) R i (l : list A) :
  (∀ x, key (f x) = key x) →
  list_find (λ x, key x = R) (alter f i l)
  = (λ '(j, x), (j, if decide (j = i) then f x else x))
      <$> list_find (λ x, key x = R) l.
Proof.
  intros Hkey. revert i. induction l as [|z l IH]; intros i; [done|].
  destruct i as [|i].
  - change (alter f 0 (z :: l))%nat with (f z :: l). cbn [list_find].
    rewrite Hkey. destruct (decide (key z = R)); [done|].
    destruct (list_find _ l) as [[j x]|]; done.
  - change (alter f (S i) (z :: l)) with (z :: alter f i l). cbn [list_find].
    destruct (decide (key z = R)); [done|].
    rewrite IH. destruct (list_find _ l) as [[j x]|]; [|done]. simpl.
    destruct (decide (j = i)) as [->|Hne].
    + by rewrite decide_True.
    + by rewrite decide_False by lia.
Qed.

Section Accept.
Import Bidding.
Variables (userId : string) (now : Z) (id : string) (s : Store).

(** The replies of [acceptBid] and the store each leaves. *)
Lemma acceptBid_cases :
  (∃ code error, acceptBid userId now id s = (Error code error, s))
  ∨ (∃ bidIndex bid requirementIndex requirement,
       list_find (λ b, Bid.id b = id) (bids s) = Some (bidIndex, bid)
       ∧ list_find (λ r, Requirement.id r = Bid.requirementId bid) (requirements s)
         = Some (requirementIndex, requirement)
       ∧ Requirement.importerId requirement = userId
       ∧ Requirement.status requirement = "active"
       ∧ Bid.status bid = "active"
       ∧ acceptBid userId now id s =
           (Ok 200 "Bid accepted successfully"
              (Some (Bid.accept now bid), Some (Requirement.award id now requirement)),
            mkStore
              (rejectSibling (Bid.requirementId bid) id now
                 <$> alter (Bid.accept now) bidIndex (bids s))
              (alter (Requirement.award id now) requirementIndex (requirements s)))).
Proof.
  unfold acceptBid, JS.find, JS.findIndex.
  destruct (list_find _ (bids s)) as [[bidIndex bid]|] eqn:Hbid; simpl;
    [|left; eauto].
  destruct (list_find _ (requirements s)) as [[requirementIndex requirement]|]
    eqn:Hreq; simpl; [|left; eauto].
  destruct (decide (Requirement.importerId requirement ≠ userId)) as [|Hown];
    [left; eauto|].
  destruct (decide (Requirement.status requirement ≠ "active")) as [|Hact];
    [left; eauto|].
  destruct (decide (Bid.status bid ≠ "active")) as [|Hbact]; [left; eauto|].
  apply dec_stable in Hown, Hact, Hbact.
  right. exists bidIndex, bid, requirementIndex, requirement.
  repeat (split; [done|]).
  apply list_find_Some in Hbid as (Hbi & Hid & _).
  apply list_find_Some in Hreq as (Hri & _ & _).
  rewrite list_lookup_fmap, list_lookup_alter_eq, Hbi. simpl.
  rewrite list_lookup_alter_eq, Hri. simpl.
  unfold rejectSibling at 1. simpl.
  rewrite decide_False; [done|]. intros (_ & Hne & _). done.
Qed.

Lemma acceptBid_not_active bid requirement :
  JS.find (λ b, Bid.id b = id) (bids s) = Some bid →
  JS.find (λ r, Requirement.id r = Bid.requirementId bid) (requirements s)
    = Some requirement →
  Requirement.status requirement ≠ "active" →
  acceptBid userId now id s =
    (if decide (Requirement.importerId requirement = userId)
     then Error 400 "Requirement is not active"
     else Error 403 "Unauthorized to accept this bid", s).
Proof.
  intros Hbid Hreq Hst. unfold acceptBid. rewrite Hbid, Hreq.
  destruct (decide (Requirement.importerId requirement ≠ userId)) as [Hne|Heq].
  - by rewrite decide_False.
  - apply dec_stable in Heq. rewrite decide_True by done.
    by rewrite decide_True.
Qed.
End Accept.

Lemma rejectSibling_fixed R id now b :
  Bid.id (Bidding.rejectSibling R id now b) = Bid.id b
  ∧ Bid.requirementId (Bidding.rejectSibling R id now b) = Bid.requirementId b
  ∧ (Bid.status (Bidding.rejectSibling R id now b) = "accepted"
     ↔ Bid.status b = "accepted").
Proof.
  unfold Bidding.rejectSibling. destruct (decide _) as [(_ & _ & Hact)|]; [|done].
  simpl. rewrite Hact. done.
Qed.

Lemma rejectSibling_not_active R id now b :
  Bid.requirementId b = R → Bid.id b ≠ id →
  Bid.status (Bidding.rejectSibling R id now b) ≠ "active".
Proof.
  intros HR Hid. unfold Bidding.rejectSibling.
  destruct (decide _) as [|Hno]; [done|]. intros Hact. by apply Hno.
Qed.

(** C1. When the bid exists and is active, its requirement exists and is
    active and the caller is the requirement's importer, one call of
    [acceptBid] answers 200 and leaves a store in which the bid is accepted
    with [acceptedAt] set, every other bid on the requirement that was active
    is rejected, every remaining bid is as it was, the requirement is
    awarded with [awardedBidId] the bid's identifier, and no bid on the
    requirement with another identifier is active (no bid on it at all, when
    the identifiers in the store are distinct).  A call that does not answer
    200 leaves the store as it was. *)
Theorem acceptBid_cascade userId now id s bid requirement :
  JS.find (λ b, Bid.id b = id) (Bidding.bids s) = Some bid →
  Bid.status bid = "active" →
  JS.find (λ r, Requirement.id r = Bid.requirementId bid) (Bidding.requirements s)
    = Some requirement →
  Requirement.status requirement = "active" →
  Requirement.importerId requirement = userId →
  ∃ bidIndex requirementIndex s',
    Bidding.acceptBid userId now id s =
      (Ok 200 "Bid accepted successfully"
         (Some (Bid.accept now bid), Some (Requirement.award id now requirement)),
       s')
    ∧ Bidding.bids s !! bidIndex = Some bid
    ∧ Bidding.bids s' !! bidIndex = Some (Bid.accept now bid)
    ∧ Bid.status (Bid.accept now bid) = "accepted"
    ∧ Bid.acceptedAt (Bid.accept now bid) = Some now
    ∧ (∀ i b, i ≠ bidIndex → Bidding.bids s !! i = Some b →
         Bidding.bids s' !! i =
           Some (if decide (Bid.requirementId b = Bid.requirementId bid
                            ∧ Bid.id b ≠ id ∧ Bid.status b = "active")
                 then Bid.set_status "rejected" now b
                 else b))
    ∧ length (Bidding.bids s') = length (Bidding.bids s)
    ∧ Bidding.requirements s !! requirementIndex = Some requirement
    ∧ Bidding.requirements s' !! requirementIndex
      = Some (Requirement.award id now requirement)
    ∧ Requirement.status (Requirement.award id now requirement) = "awarded"
    ∧ Requirement.awardedBidId (Requirement.award id now requirement) = Some id
    ∧ (∀ j, j ≠ requirementIndex →
         Bidding.requirements s' !! j = Bidding.requirements s !! j)
    ∧ (∀ b, b ∈ Bidding.bids s' →
         Bid.requirementId b = Bid.requirementId bid → Bid.id b ≠ id →
         Bid.status b ≠ "active")
    ∧ (NoDup (Bid.id <$> Bidding.bids s) →
       (∀ i b, i ≠ bidIndex → Bidding.bids s !! i = Some b →
          Bid.requirementId b = Bid.requirementId bid → Bid.status b = "active" →
          Bidding.bids s' !! i = Some (Bid.set_status "rejected" now b))
       ∧ ∀ b, b ∈ Bidding.bids s' →
           Bid.requirementId b = Bid.requirementId bid → Bid.status b ≠ "active")
    ∧ (∀ userId' now' id' s0,
         replyCode (fst (Bidding.acceptBid userId' now' id' s0)) ≠ 200 →
         snd (Bidding.acceptBid userId' now' id' s0) = s0).
Proof.
  intros Hbid Hbact Hreq Hract Hown.
  destruct (acceptBid_cases userId now id s)
    as [(code & error & Herr)
       |(bidIndex & bid' & requirementIndex & requirement' & Hfb & Hfr & _ & _ & _ & Hok)].
  { exfalso. unfold Bidding.acceptBid in Herr. rewrite Hbid, Hreq in Herr.
    rewrite decide_False in Herr by (by intros []).
    rewrite decide_False in Herr by (by intros []).
    rewrite decide_False in Herr by (by intros []).
    destruct (JS.findIndex _ _) eqn:Hidx; [done|].
    apply find_findIndex in Hbid as (i & Hi & _). congruence. }
  assert (bid' = bid) as ->.
  { unfold JS.find in Hbid. rewrite Hfb in Hbid. by injection Hbid. }
  assert (requirement' = requirement) as ->.
  { unfold JS.find in Hreq. rewrite Hfr in Hreq. by injection Hreq. }
  apply list_find_Some in Hfb as (Hbi & Hid & _).
  apply list_find_Some in Hfr as (Hri & _ & _).
  eexists bidIndex, requirementIndex, _. split; [exact Hok|]. simpl.
  split; [done|]. split.
  { rewrite list_lookup_fmap, list_lookup_alter_eq, Hbi. simpl.
    unfold Bidding.rejectSibling. simpl.
    rewrite decide_False; [done|]. by intros (_ & Hne & _). }
  split; [done|]. split; [done|]. split.
  { intros i b Hne Hb.
    by rewrite list_lookup_fmap, list_lookup_alter_ne, Hb. }
  split; [by rewrite length_fmap, length_alter|].
  split; [done|]. split; [by rewrite list_lookup_alter_eq, Hri|].
  split; [done|]. split; [done|]. split.
  { intros j Hne. by rewrite list_lookup_alter_ne. }
  assert (Hsiblings : ∀ b,
            b ∈ Bidding.rejectSibling (Bid.requirementId bid) id now
                  <$> alter (Bid.accept now) bidIndex (Bidding.bids s) →
            Bid.requirementId b = Bid.requirementId bid → Bid.id b ≠ id →
            Bid.status b ≠ "active").
  { intros b Hb HR Hne.
    apply list_elem_of_lookup in Hb as [i Hi].
    rewrite list_lookup_fmap in Hi.
    destruct (alter (Bid.accept now) bidIndex (Bidding.bids s) !! i)
      as [b0|] eqn:Hb0; [|done].
    simpl in Hi. injection Hi as <-.
    destruct (rejectSibling_fixed (Bid.requirementId bid) id now b0)
      as (Hid0 & HR0 & _).
    apply rejectSibling_not_active; congruence. }
  split; [exact Hsiblings|]. split.
  - intros Hnodup.
    assert (Hother : ∀ i b, i ≠ bidIndex → Bidding.bids s !! i = Some b →
                            Bid.id b ≠ id).
    { intros i b Hne Hb Heq. apply Hne.
      apply (NoDup_lookup _ _ _ id Hnodup); rewrite list_lookup_fmap.
      - by rewrite Hb; simpl; rewrite Heq.
      - by rewrite Hbi; simpl; rewrite Hid. }
    split.
    + intros i b Hne Hb HR Hact.
      rewrite list_lookup_fmap, list_lookup_alter_ne, Hb by done. simpl.
      unfold Bidding.rejectSibling. rewrite decide_True; [done|].
      split; [done|]. split; [by apply (Hother i)|done].
    + intros b Hb HR Hact.
      destruct (decide (Bid.id b = id)) as [Heq|Hne];
        [|by apply (Hsiblings b Hb HR Hne)].
      apply list_elem_of_lookup in Hb as [i Hi].
      rewrite list_lookup_fmap in Hi.
      destruct (decide (i = bidIndex)) as [->|Hi'].
      * rewrite list_lookup_alter_eq, Hbi in Hi. simpl in Hi.
        injection Hi as <-.
        destruct (rejectSibling_fixed (Bid.requirementId bid) id now
                    (Bid.accept now bid)) as (_ & _ & Hacc).
        rewrite (proj2 Hacc) in Hact; done.
      * rewrite list_lookup_alter_ne in Hi by done.
        destruct (Bidding.bids s !! i) as [b0|] eqn:Hb0; [|done].
        simpl in Hi. injection Hi as <-.
        destruct (rejectSibling_fixed (Bid.requirementId bid) id now b0)
          as (Hid0 & _ & _).
        apply (Hother i b0 Hi' Hb0). congruence.
  - intros userId' now' id' s0 Hcode.
    destruct (acceptBid_cases userId' now' id' s0)
      as [(code & error & ->)|(? & ? & ? & ? & _ & _ & _ & _ & _ & Hok')];
      [done|].
    rewrite Hok' in Hcode. by destruct Hcode.
Qed.

Lemma acceptBid_cascade_witness :
  JS.find (λ b, Bid.id b = "bid-a") (Bidding.bids Sample.twoBids)
    = Some (Sample.bidFor "bid-a" "exp-1" 4.25 "USD" 3 "weeks" "active")
  ∧ JS.find (λ r, Requirement.id r = Sample.reqId)
      (Bidding.requirements Sample.twoBids) = Some Sample.requirement
  ∧ Bid.status <$> Bidding.bids
      (snd (Bidding.acceptBid "imp-1" Sample.now "bid-a" Sample.twoBids))
    = ["accepted"; "rejected"].
Proof.
  split; [reflexivity|]. split; [reflexivity|].
  destruct (acceptBid_cascade "imp-1" Sample.now "bid-a" Sample.twoBids
              (Sample.bidFor "bid-a" "exp-1" 4.25 "USD" 3 "weeks" "active")
              Sample.requirement eq_refl eq_refl eq_refl eq_refl eq_refl)
    as (bidIndex & requirementIndex & s' & Hok & _).
  rewrite Hok. simpl.
  injection Hok as <-. reflexivity.
Defined.

(** ** One accepted bid per requirement *)

Lemma requirementsChange_find reqs reqs' R r :
  Bidding.requirementsChange reqs reqs' →
  JS.find (λ r, Requirement.id r = R) reqs = Some r →
  ∃ r', JS.find (λ r, Requirement.id r = R) reqs' = Some r'
        ∧ (Requirement.status r' = Requirement.status r
           ∨ Requirement.status r' = "awarded").
Proof.
  destruct 1 as [|f i Hid Hst]; intros Hfind; [by exists r; split; [|left]|].
  unfold JS.find in *.
  rewrite (list_find_alter_key Requirement.id f R i reqs Hid).
  destruct (list_find _ reqs) as [[j x]|]; [|done].
  simpl in *. injection Hfind as ->.
  destruct (decide (j = i)); eexists; (split; [reflexivity|]); auto.
Qed.

Lemma awardedOnce_kept s s' :
  Bidding.awardedOnce s →
  Bidding.requirementsChange (Bidding.requirements s) (Bidding.requirements s') →
  (∀ R, count (Bidding.acceptedFor R) (Bidding.bids s')
        = count (Bidding.acceptedFor R) (Bidding.bids s)) →
  Bidding.awardedOnce s'.
Proof.
  intros Hinv Hreqs Hbids R. rewrite Hbids.
  destruct (Hinv R) as [Hle Hfound]. split; [done|].
  intros Hpos. destruct (Hfound Hpos) as (r & Hr & Hst).
  destruct (requirementsChange_find _ _ _ _ Hreqs Hr) as (r' & Hr' & [Heq|Heq]).
  - exists r'. split; [done|]. congruence.
  - exists r'. split; [done|]. by rewrite Heq.
Qed.

Section BidSteps.
Import Bidding.

Lemma submitBid_requirements userId now uuid body s :
  requirementsChange (requirements s)
    (requirements (snd (submitBid userId now uuid body s))).
Proof.
  unfold submitBid.
  destruct (bidValidation body); simpl; [|constructor].
  destruct (JS.find _ (requirements s)); [|constructor].
  destruct (decide _); [constructor|].
  destruct (deadlinePassed _ _); [constructor|].
  destruct (decide _); [constructor|].
  destruct (validateBidIntegrity _ _ _); [|constructor]. simpl.
  destruct (JS.findIndex _ _); [|constructor].
  apply requirements_alter; intros r; [done|by left].
Qed.

Lemma withdrawBid_requirements userId now id s :
  requirementsChange (requirements s)
    (requirements (snd (withdrawBid userId now id s))).
Proof.
  unfold withdrawBid.
  destruct (list_find _ (bids s)) as [[i bid]|]; [|constructor].
  destruct (decide _); [constructor|]. simpl.
  destruct (JS.findIndex _ _); [|constructor].
  apply requirements_alter; intros r; [done|by left].
Qed.

Lemma updateBid_requirements userId now id body s :
  requirements (snd (updateBid userId now id body s)) = requirements s.
Proof.
  unfold updateBid.
  destruct (list_find _ (bids s)) as [[i bid]|]; [|done].
  destruct (decide _); [done|].
  destruct (JS.find _ (requirements s)); [|done].
  destruct (decide _); [done|].
  destruct (deadlinePassed _ _); [done|].
  by destruct (bidValidation body).
Qed.

Lemma acceptBid_requirements userId now id s :
  requirementsChange (requirements s)
    (requirements (snd (acceptBid userId now id s))).
Proof.
  destruct (acceptBid_cases userId now id s)
    as [(code & error & ->)|(? & ? & ? & ? & _ & _ & _ & _ & _ & ->)];
    [constructor|]. simpl.
  apply requirements_alter; intros r; [done|by right].
Qed.

Lemma submitBid_count userId now uuid body s R :
  count (acceptedFor R) (bids (snd (submitBid userId now uuid body s)))
  = count (acceptedFor R) (bids s).
Proof.
  unfold submitBid.
  destruct (bidValidation body); simpl; [|done].
  destruct (JS.find _ (requirements s)); [|done].
  destruct (decide _); [done|].
  destruct (deadlinePassed _ _); [done|].
  destruct (decide _); [done|].
  destruct (validateBidIntegrity _ _ _); [|done]. simpl.
  rewrite count_app, count_cons.
  rewrite one_if_False by (by intros [_ ?]).
  unfold count at 2. simpl. lia.
Qed.

Lemma updateBid_count userId now id body s R :
  count (acceptedFor R) (bids (snd (updateBid userId now id body s)))
  = count (acceptedFor R) (bids s).
Proof.
  unfold updateBid.
  destruct (list_find _ (bids s)) as [[i bid]|] eqn:Hfind; [|done].
  destruct (decide _); [done|].
  destruct (JS.find _ (requirements s)); [|done].
  destruct (decide _); [done|].
  destruct (deadlinePassed _ _); [done|].
  destruct (bidValidation body); [|done]. simpl.
  apply list_find_Some in Hfind as (Hi & _ & _).
  match goal with
  | |- count _ (<[i := ?u]> _) = _ =>
      pose proof (count_insert (acceptedFor R) (bids s) i bid u Hi) as Hcount;
      assert (one_if (acceptedFor R) u = one_if (acceptedFor R) bid) as Hsame
  end.
  { destruct (decide (acceptedFor R bid)) as [Hacc|Hacc].
    - rewrite !one_if_True; done.
    - rewrite !one_if_False; done. }
  lia.
Qed.

Lemma withdrawBid_count userId now id s R :
  count (acceptedFor R) (bids (snd (withdrawBid userId now id s)))
  = count (acceptedFor R) (bids s).
Proof.
  unfold withdrawBid.
  destruct (list_find _ (bids s)) as [[i bid]|] eqn:Hfind; [|done].
  destruct (decide (Bid.status bid ≠ "active")) as [|Hact]; [done|].
  apply dec_stable in Hact. simpl.
  apply list_find_Some in Hfind as (Hi & _ & _).
  pose proof (count_alter (acceptedFor R) (Bid.set_status "withdrawn" now)
                (bids s) i bid Hi) as Hcount.
  rewrite !one_if_False in Hcount; [lia| |].
  - by intros [_ ?].
  - intros [_ ?]. congruence.
Qed.

Lemma acceptBid_keeps userId now id s :
  awardedOnce s → awardedOnce (snd (acceptBid userId now id s)).
Proof.
  intros Hinv.
  destruct (acceptBid_cases userId now id s)
    as [(code & error & ->)
       |(i & bid & j & requirement & Hfb & Hfr & _ & Hract & Hbact & ->)];
    [done|]. simpl.
  apply list_find_Some in Hfb as (Hi & _ & _).
  assert (Hzero : count (acceptedFor (Bid.requirementId bid)) (bids s) = 0%nat).
  { destruct (Hinv (Bid.requirementId bid)) as [_ Hfound].
    destruct (count (acceptedFor (Bid.requirementId bid)) (bids s)); [done|].
    destruct Hfound as (r & Hr & Hst); [lia|].
    unfold JS.find in Hr. rewrite Hfr in Hr. simpl in Hr. congruence. }
  intros R. simpl.
  rewrite count_fmap by (intros b; unfold acceptedFor;
    destruct (rejectSibling_fixed (Bid.requirementId bid) id now b)
      as (_ & -> & ->); done).
  pose proof (count_alter (acceptedFor R) (Bid.accept now) (bids s) i bid Hi)
    as Hcount.
  rewrite (one_if_False _ bid) in Hcount by (intros [_ ?]; congruence).
  destruct (Hinv R) as [Hle Hfound].
  unfold JS.find.
  rewrite (list_find_alter_key Requirement.id _ R j (requirements s)) by done.
  destruct (decide (Bid.requirementId bid = R)) as [<-|Hne].
  - rewrite one_if_True in Hcount by done. split; [lia|]. intros _.
    rewrite Hfr. simpl. rewrite decide_True by done. by eexists.
  - rewrite one_if_False in Hcount by (by intros [? _]).
    split; [lia|]. intros Hpos.
    destruct Hfound as (r & Hr & Hst); [lia|].
    unfold JS.find in Hr.
    destruct (list_find (λ x, Requirement.id x = R) (requirements s))
      as [[j' x]|]; [|done].
    simpl in Hr. injection Hr as ->. simpl.
    destruct (decide (j' = j)); eexists; (split; [done|]); done.
Qed.

(** Every handler keeps the invariant. *)
Lemma step_keeps s s' : step s s' → awardedOnce s → awardedOnce s'.
Proof.
  destruct 1 as [userId now uuid body s|userId now id body s
                |userId now id s|userId now id s]; intros Hinv.
  - apply (awardedOnce_kept s); [done|apply submitBid_requirements|].
    intros R. apply submitBid_count.
  - apply (awardedOnce_kept s); [done| |].
    + rewrite updateBid_requirements. constructor.
    + intros R. apply updateBid_count.
  - apply (awardedOnce_kept s); [done|apply withdrawBid_requirements|].
    intros R. apply withdrawBid_count.
  - by apply acceptBid_keeps.
Qed.

Lemma step_requirements s s' :
  step s s' → requirementsChange (requirements s) (requirements s').
Proof.
  destruct 1.
  - apply submitBid_requirements.
  - rewrite updateBid_requirements. constructor.
  - apply withdrawBid_requirements.
  - apply acceptBid_requirements.
Qed.

Lemma initial_awardedOnce s : initial s → awardedOnce s.
Proof.
  intros Hinit R.
  assert (count (acceptedFor R) (bids s) = 0%nat) as ->.
  { apply count_zero. intros b Hb [_ Hacc]. by apply (Hinit b Hb). }
  split; lia.
Qed.

Lemma reachable_awardedOnce s : reachable s → awardedOnce s.
Proof.
  intros (s0 & Hinit & Hsteps). apply initial_awardedOnce in Hinit.
  induction Hsteps as [|s1 s2 s3 Hstep _ IH]; [done|].
  apply IH. by apply (step_keeps s1).
Qed.

(** An awarded requirement stays awarded. *)
Lemma steps_awarded s s' R r :
  rtc step s s' →
  JS.find (λ r, Requirement.id r = R) (requirements s) = Some r →
  Requirement.status r = "awarded" →
  ∃ r', JS.find (λ r, Requirement.id r = R) (requirements s') = Some r'
        ∧ Requirement.status r' = "awarded".
Proof.
  intros Hsteps. revert r. induction Hsteps as [|s1 s2 s3 Hstep _ IH];
    intros r Hr Hst; [by exists r|].
  destruct (requirementsChange_find _ _ R r (step_requirements _ _ Hstep) Hr)
    as (r2 & Hr2 & Hst2).
  apply (IH r2 Hr2). destruct Hst2; congruence.
Qed.
End BidSteps.

(** C2. In every store the four bid handlers can build from a store without
    accepted bids, each requirement has at most one accepted bid.  An accept
    on a bid whose requirement is already awarded is refused with the 400
    error "Requirement is not active" when the caller is the requirement's
    importer (with 403 otherwise) and leaves the store as it was, and an
    awarded requirement stays awarded along every further sequence of
    calls. *)
Theorem one_accepted_bid s :
  Bidding.reachable s →
  (∀ R, (length (Bidding.acceptedOn R s) <= 1)%nat)
  ∧ (∀ userId now id bid requirement,
       JS.find (λ b, Bid.id b = id) (Bidding.bids s) = Some bid →
       JS.find (λ r, Requirement.id r = Bid.requirementId bid)
         (Bidding.requirements s) = Some requirement →
       Requirement.status requirement = "awarded" →
       Bidding.acceptBid userId now id s =
         (if decide (Requirement.importerId requirement = userId)
          then Error 400 "Requirement is not active"
          else Error 403 "Unauthorized to accept this bid", s))
  ∧ (∀ s' R r,
       rtc Bidding.step s s' →
       JS.find (λ r, Requirement.id r = R) (Bidding.requirements s) = Some r →
       Requirement.status r = "awarded" →
       ∃ r', JS.find (λ r, Requirement.id r = R) (Bidding.requirements s') = Some r'
             ∧ Requirement.status r' = "awarded").
Proof.
  intros Hreach. split; [|split].
  - intros R. by destruct (reachable_awardedOnce s Hreach R) as [Hle _].
  - intros userId now id bid requirement Hbid Hreq Hst.
    apply (acceptBid_not_active _ _ _ _ bid); [done|done|]. by rewrite Hst.
  - intros s' R r. apply steps_awarded.
Qed.

Lemma one_accepted_bid_witness :
  Bidding.reachable Sample.awarded
  ∧ (length (Bidding.acceptedOn Sample.reqId Sample.awarded) <= 1)%nat
  ∧ Bidding.acceptBid "imp-1" (Sample.now + 1000) "bid-b" Sample.awarded
    = (Error 400 "Requirement is not active", Sample.awarded).
Proof.
  assert (Hreach : Bidding.reachable Sample.awarded).
  { exists Sample.twoBids. split.
    - intros b Hb. vm_compute in Hb.
      repeat (apply elem_of_cons in Hb as [-> | Hb]); try discriminate.
      by apply elem_of_nil in Hb.
    - apply rtc_once.
      exact (Bidding.step_accept "imp-1" Sample.now "bid-a" Sample.twoBids). }
  split; [exact Hreach|].
  destruct (one_accepted_bid Sample.awarded Hreach) as (Hone & Hagain & _).
  split; [exact (Hone Sample.reqId)|].
  exact (Hagain "imp-1" (Sample.now + 1000) "bid-b"
           (Bid.set_status "rejected" Sample.now
              (Sample.bidFor "bid-b" "exp-2" 4.5 "USD" 2 "weeks" "active"))
           (Requirement.award "bid-a" Sample.now Sample.requirement)
           eq_refl eq_refl eq_refl).
Defined.

(** ** Ranking *)

Section Keys.
Import Bidding.
Local Open Scope float_scope.

Lemma beforeb_spec a b :
  beforeb a b = true
  ↔ (priceOf a <? priceOf b) = true
    ∨ ((priceOf a =? priceOf b) = true ∧ (daysOf a <? daysOf b) = true).
Proof. unfold beforeb. rewrite orb_true_iff, andb_true_iff. tauto. Qed.

Lemma tieb_spec a b :
  tieb a b = true
  ↔ (priceOf a =? priceOf b) = true ∧ (daysOf a =? daysOf b) = true.
Proof. unfold tieb. by rewrite andb_true_iff. Qed.

Lemma keys_trichotomy a b :
  numbered a → numbered b →
  beforeb a b = true ∨ beforeb b a = true ∨ tieb a b = true.
Proof.
  intros [Hpa Hda] [Hpb Hdb]. rewrite !beforeb_spec, tieb_spec.
  destruct (trichotomy (priceOf a) (priceOf b) Hpa Hpb) as [Hlt|[Heq|Hgt]];
    [tauto| |tauto].
  destruct (trichotomy (daysOf a) (daysOf b) Hda Hdb) as [Hd|[Hd|Hd]].
  - tauto.
  - tauto.
  - right. left. right. by rewrite eqb_sym.
Qed.

Lemma beforeb_keyLe a b : beforeb a b = true → keyLe a b.
Proof.
  intros [Hlt|[Heq Hd]]%beforeb_spec; [by left|]. right. split; [done|].
  by rewrite leb_ltb_eqb, Hd.
Qed.

Lemma tieb_keyLe a b : tieb a b = true → keyLe a b.
Proof.
  intros [Hp Hd]%tieb_spec. right. split; [done|].
  rewrite leb_ltb_eqb, Hd. apply orb_true_r.
Qed.

Lemma tieb_sym a b : tieb a b = tieb b a.
Proof. unfold tieb. by rewrite (eqb_sym (priceOf a)), (eqb_sym (daysOf a)). Qed.

Lemma not_beforeb_keyLe a b :
  numbered a → numbered b → beforeb a b = false → keyLe b a.
Proof.
  intros Ha Hb Hnot.
  destruct (keys_trichotomy a b Ha Hb) as [Hab|[Hba|Htie]].
  - congruence.
  - by apply beforeb_keyLe.
  - apply tieb_keyLe. by rewrite tieb_sym.
Qed.

Lemma keyLe_trans a b c : keyLe a b → keyLe b c → keyLe a c.
Proof.
  unfold keyLe. intros [H1|[H1 H1']] [H2|[H2 H2']].
  - left. by eapply ltb_trans.
  - left. by eapply ltb_eqb_trans.
  - left. by eapply eqb_ltb_trans.
  - right. split; [by eapply eqb_trans|by eapply leb_trans].
Qed.

Lemma before_keyLe_before a b c :
  beforeb a b = true → keyLe b c → beforeb a c = true.
Proof.
  rewrite !beforeb_spec. unfold keyLe.
  intros [H1|[H1 H1']] [H2|[H2 H2']].
  - left. by eapply ltb_trans.
  - left. by eapply ltb_eqb_trans.
  - left. by eapply eqb_ltb_trans.
  - right. split; [by eapply eqb_trans|by eapply ltb_leb_trans].
Qed.

Lemma keyLe_before_before a b c :
  keyLe a b → beforeb b c = true → beforeb a c = true.
Proof.
  rewrite !beforeb_spec. unfold keyLe.
  intros [H1|[H1 H1']] [H2|[H2 H2']].
  - left. by eapply ltb_trans.
  - left. by eapply ltb_eqb_trans.
  - left. by eapply eqb_ltb_trans.
  - right. split; [by eapply eqb_trans|by eapply leb_ltb_trans].
Qed.

Lemma beforeb_asym a b : beforeb a b = true → beforeb b a = false.
Proof.
  intros [Hlt|[Heq Hd]]%beforeb_spec; unfold beforeb.
  - by rewrite (ltb_asym _ _ Hlt), (gtb_not_eqb _ _ Hlt).
  - rewrite eqb_sym in Heq.
    destruct (eqb_not_ltb _ _ Heq) as [-> _]. by rewrite Heq, (ltb_asym _ _ Hd).
Qed.

Lemma tieb_trans a b c : tieb a b = true → tieb b c = true → tieb a c = true.
Proof.
  rewrite !tieb_spec. intros [H1 H1'] [H2 H2'].
  split; by eapply eqb_trans.
Qed.

Lemma beforeb_not_tie a b : beforeb a b = true → tieb a b = false.
Proof.
  intros [Hlt|[Heq Hd]]%beforeb_spec; unfold tieb.
  - by rewrite (ltb_not_eqb _ _ Hlt).
  - by rewrite (ltb_not_eqb _ _ Hd), andb_false_r.
Qed.

Lemma tieb_not_before a b : tieb a b = true → beforeb a b = false.
Proof.
  intros Htie. destruct (beforeb a b) eqn:Hb; [|done].
  apply beforeb_not_tie in Hb. congruence.
Qed.

Variables (users : list User.t) (now : Z).

(** What [compareBids] returns, by the order of the two keys. *)
Lemma compare_untied a b w :
  tieb a b = false →
  ∃ v, compareBids users now a b w = (v, w) ∧ (v <? 0) = beforeb a b.
Proof.
  intros Htie. unfold compareBids, tieb, beforeb in *.
  fold (priceOf a) (priceOf b) (daysOf a) (daysOf b).
  destruct (priceOf a =? priceOf b) eqn:Hp; simpl in *.
  - rewrite Htie. simpl. eexists. split; [done|].
    destruct (eqb_not_ltb _ _ Hp) as [-> _]. simpl. by apply sub_sign.
  - eexists. split; [done|]. rewrite orb_false_r. by apply sub_sign.
Qed.

Lemma compare_before a b w :
  beforeb a b = true →
  ∃ v, compareBids users now a b w = (v, w) ∧ (v <? 0) = true.
Proof.
  intros Hb. destruct (compare_untied a b w) as (v & Hv & Hsign).
  - by apply beforeb_not_tie.
  - exists v. split; [done|congruence].
Qed.

Lemma compare_after a b w :
  beforeb b a = true →
  ∃ v, compareBids users now a b w = (v, w) ∧ (0 <? v) = true.
Proof.
  intros [Hlt|[Heq Hd]]%beforeb_spec; unfold compareBids;
    fold (priceOf a) (priceOf b) (daysOf a) (daysOf b).
  - rewrite (gtb_not_eqb _ _ Hlt). simpl. eexists. split; [done|].
    by apply sub_positive.
  - rewrite eqb_sym in Heq. rewrite Heq, (gtb_not_eqb _ _ Hd). simpl.
    eexists. split; [done|]. by apply sub_positive.
Qed.

Lemma compare_tie a b w :
  tieb a b = true →
  compareBids users now a b w =
    (let '(aReliability, w1) := getExporterReliability users now (Bid.exporterId a) w in
     let '(bReliability, w2) := getExporterReliability users now (Bid.exporterId b) w1 in
     (bReliability - aReliability, w2)).
Proof.
  intros [Hp Hd]%tieb_spec. unfold compareBids.
  fold (priceOf a) (priceOf b) (daysOf a) (daysOf b).
  by rewrite Hp, Hd.
Qed.

Lemma compare_tie_unscored a b w :
  tieb a b = true → unknownExporter users a → unknownExporter users b →
  compareBids users now a b w = (5 - 5, w).
Proof.
  intros Htie Ha Hb. rewrite compare_tie by done.
  unfold getExporterReliability, unknownExporter in *. by rewrite Ha, Hb.
Qed.

(** A bid with a price that is NaN compares as NaN with every bid. *)
Lemma compare_NaN a b w :
  JS.isNaN (priceOf a) = true ∨ JS.isNaN (priceOf b) = true →
  ∃ v, compareBids users now a b w = (v, w) ∧ JS.isNaN v = true.
Proof.
  intros Hnan. unfold compareBids.
  fold (priceOf a) (priceOf b) (daysOf a) (daysOf b).
  destruct (priceOf a =? priceOf b) eqn:Hp.
  - apply eqb_not_NaN in Hp as [? ?]. destruct Hnan; congruence.
  - simpl. eexists. split; [done|]. by apply sub_NaN.
Qed.

(** The sign of the result agrees with the order of the keys, whatever the
    draws. *)
Lemma compare_negative a b w :
  (fst (compareBids users now a b w) <? 0) = true →
  beforeb a b = true ∨ tieb a b = true.
Proof.
  intros Hneg. destruct (tieb a b) eqn:Htie; [by right|]. left.
  destruct (compare_untied a b w Htie) as (v & Hv & Hsign).
  rewrite Hv in Hneg. simpl in Hneg. congruence.
Qed.

Lemma compare_not_negative a b w :
  (fst (compareBids users now a b w) <? 0) = false → beforeb a b = false.
Proof.
  intros Hneg. destruct (beforeb a b) eqn:Hb; [|done].
  destruct (compare_before a b w Hb) as (v & Hv & Hlt).
  rewrite Hv in Hneg. simpl in Hneg. congruence.
Qed.

(** Between bids whose keys are numbers, [notAfter] is the order of the
    keys. *)
Lemma notAfter_keyLe bids :
  Forall numbered bids →
  StronglySorted notAfter bids → StronglySorted keyLe bids.
Proof.
  intros Hnum. induction 1 as [|a rest Hrest IH Ha]; [constructor|].
  apply Forall_cons in Hnum as [Hnuma Hnumrest].
  constructor; [by apply IH|].
  rewrite list.Forall_forall in Ha, Hnumrest. apply list.Forall_forall.
  intros b Hb. apply not_beforeb_keyLe; [by apply Hnumrest|done|by apply Ha].
Qed.
End Keys.

Section Sorting.
Import Bidding.
Local Open Scope float_scope.
Variables (users : list User.t) (now : Z).
Local Abbreviation comparefn := (compareBids users now).

Lemma sort_insert_perm x placed w :
  fst (sort_insert comparefn x placed w) ≡ₚ x :: placed.
Proof.
  revert w. induction placed as [|y rest IH]; intros w; [done|]. simpl.
  destruct (comparefn x y w) as [v w1].
  destruct (v <? 0); [done|].
  specialize (IH w1). destruct (sort_insert comparefn x rest w1) as [rest' w2].
  simpl in *. rewrite IH. apply Permutation_swap.
Qed.

Lemma sort_insert_sorted x placed w :
  StronglySorted notAfter placed →
  StronglySorted notAfter (fst (sort_insert comparefn x placed w)).
Proof.
  revert w. induction placed as [|y rest IH]; intros w Hsorted; simpl.
  - repeat constructor.
  - apply StronglySorted_inv in Hsorted as [Hrest Hy].
    destruct (comparefn x y w) as [v w1] eqn:Hcmp.
    destruct (v <? 0) eqn:Hneg; simpl.
    + assert (keyLe x y) as Hxy.
      { destruct (compare_negative users now x y w) as [Hb|Ht];
          [by rewrite Hcmp|by apply beforeb_keyLe|by apply tieb_keyLe]. }
      assert (beforeb y x = false) as Hyx.
      { destruct (beforeb y x) eqn:Hb; [|done].
        assert (beforeb y y = true) as Hyy by (by eapply before_keyLe_before).
        pose proof (beforeb_asym _ _ Hyy). congruence. }
      constructor; [by constructor|].
      constructor; [done|].
      eapply Forall_impl; [exact Hy|]. intros e He. unfold notAfter in *.
      destruct (beforeb e x) eqn:Hex; [|done].
      rewrite <- He. symmetry. by eapply before_keyLe_before.
    + assert (notAfter y x) as Hyx.
      { apply (compare_not_negative users now x y w). by rewrite Hcmp. }
      specialize (IH w1 Hrest).
      pose proof (sort_insert_perm x rest w1) as Hperm.
      destruct (sort_insert comparefn x rest w1) as [rest' w2]. simpl in *.
      constructor; [done|].
      rewrite Hperm. by constructor.
Qed.

Lemma sort_from_perm placed todo w :
  fst (sort_from comparefn placed todo w) ≡ₚ placed ++ todo.
Proof.
  revert placed w. induction todo as [|x todo IH]; intros placed w; simpl.
  - by rewrite app_nil_r.
  - pose proof (sort_insert_perm x placed w) as Hperm.
    destruct (sort_insert comparefn x placed w) as [placed' w1]. simpl in *.
    rewrite IH, Hperm. simpl. apply Permutation_middle.
Qed.

Lemma sort_from_sorted placed todo w :
  StronglySorted notAfter placed →
  StronglySorted notAfter (fst (sort_from comparefn placed todo w)).
Proof.
  revert placed w. induction todo as [|x todo IH]; intros placed w Hsorted;
    simpl; [done|].
  pose proof (sort_insert_sorted x placed w Hsorted) as Hplaced.
  destruct (sort_insert comparefn x placed w) as [placed' w1]. simpl in *.
  by apply IH.
Qed.

(** Whatever the draws, [rankBids] returns the bids it was given; when
    their keys are numbers, in ascending order of price and then of
    delivery time. *)
Lemma rankBids_sorted bids w :
  fst (rankBids users now bids w) ≡ₚ bids
  ∧ (Forall numbered bids →
     StronglySorted keyLe (fst (rankBids users now bids w))).
Proof.
  assert (fst (rankBids users now bids w) ≡ₚ bids) as Hperm
    by apply (sort_from_perm [] bids w).
  split; [done|]. intros Hnum.
  apply notAfter_keyLe; [by rewrite Hperm|].
  apply sort_from_sorted. constructor.
Qed.
End Sorting.

(** A key the table inherits makes the product NaN. *)
Lemma convertToUSD_inherited price code :
  JS.prop Normalizer.exchangeRates code = JS.Inherited →
  JS.isNaN (Normalizer.convertToUSD price code) = true.
Proof.
  intros Hcode. unfold Normalizer.convertToUSD. rewrite Hcode. apply mul_NaN.
Qed.

Lemma convertToDays_inherited time unit :
  JS.prop Normalizer.multipliers unit = JS.Inherited →
  JS.isNaN (Normalizer.convertToDays time unit) = true.
Proof.
  intros Hunit. unfold Normalizer.convertToDays. rewrite Hunit. apply mul_NaN.
Qed.

(** C5, what the code does instead.  A code or a unit that names a member
    of [Object.prototype] is found in the table, and the price or the
    delivery time becomes NaN, not the number itself.  And the products are
    rounded: 3 EUR is worth 3.3000000000000003, so a bid of 3.3 USD in 30
    days is ranked before a bid of 3 EUR in 1 day, although the two prices
    are equal and the second is faster; 100 EUR is worth
    110.00000000000001, so a bid at 110.00000000000001 USD in 1 day is
    ranked before a bid of 100 EUR in 30 days, although the second is
    cheaper. *)
Lemma rankBids_rounding_and_inherited_keys :
  JS.isNaN (Normalizer.convertToUSD 5 "constructor") = true
  ∧ JS.isNaN (Normalizer.convertToDays 5 "toString") = true
  ∧ (Spec.inBase 3 "EUR" == Spec.inBase 3.3 "USD")%Q
  ∧ (∀ users now w,
       fst (Bidding.rankBids users now
              [ Sample.bidFor "bid-1" "exp-1" 3 "EUR" 1 "days" "active";
                Sample.bidFor "bid-2" "exp-2" 3.3 "USD" 30 "days" "active" ] w)
       = [ Sample.bidFor "bid-2" "exp-2" 3.3 "USD" 30 "days" "active";
           Sample.bidFor "bid-1" "exp-1" 3 "EUR" 1 "days" "active" ])
  ∧ (Spec.inBase 100 "EUR" < Spec.inBase 110.00000000000001 "USD")%Q
  ∧ (∀ users now w,
       fst (Bidding.rankBids users now
              [ Sample.bidFor "bid-1" "exp-1" 100 "EUR" 30 "days" "active";
                Sample.bidFor "bid-2" "exp-2" 110.00000000000001 "USD" 1 "days"
                  "active" ] w)
       = [ Sample.bidFor "bid-2" "exp-2" 110.00000000000001 "USD" 1 "days"
             "active";
           Sample.bidFor "bid-1" "exp-1" 100 "EUR" 30 "days" "active" ]).
Proof.
  split; [by vm_compute|]. split; [by vm_compute|]. split; [by vm_compute|].
  split; [intros users now w; by vm_compute|]. split; [by vm_compute|].
  intros users now w. by vm_compute.
Qed.

(** C5. In binary64 arithmetic, the price of a bid in USD is its price times
    the rate of its currency (1 for USD, 1.1 for EUR, 0.012 for INR, and 1
    for a code that neither the table nor [Object.prototype] has; NaN for a
    name of [Object.prototype]) and its delivery time in days is its
    delivery time times the multiplier of its unit (days 1, weeks 7, months
    30, and 1 or NaN for another unit, likewise).  The comparison function
    of [rankBids] answers a negative number when the first bid is cheaper, a
    positive one when it is more expensive and, when the prices are equal,
    a negative or a positive number as the first bid is faster or slower;
    it answers NaN when a price is NaN.  [rankBids] returns its input, and
    when the keys of all bids are numbers, in ascending order of price and
    then of delivery time.  Bids of 5 USD, 4 EUR and 450 INR are worth 5,
    4.4000000000000004 and 5.4000000000000004 and are ranked 4 EUR, 5 USD,
    450 INR; 5 CHF are worth 5 and 2 quarters count 2 days. *)
Theorem rankBids_comparator :
  (∀ price,
     Normalizer.convertToUSD price "USD" = (price * 1)%float
     ∧ Normalizer.convertToUSD price "EUR" = (price * 1.1)%float
     ∧ Normalizer.convertToUSD price "INR" = (price * 0.012)%float
     ∧ (∀ code, JS.prop Normalizer.exchangeRates code = JS.Undefined →
                Normalizer.convertToUSD price code = (price * 1)%float)
     ∧ (∀ code, JS.prop Normalizer.exchangeRates code = JS.Inherited →
                JS.isNaN (Normalizer.convertToUSD price code) = true))
  ∧ (∀ time,
       Normalizer.convertToDays time "days" = (time * 1)%float
       ∧ Normalizer.convertToDays time "weeks" = (time * 7)%float
       ∧ Normalizer.convertToDays time "months" = (time * 30)%float
       ∧ (∀ unit, JS.prop Normalizer.multipliers unit = JS.Undefined →
                  Normalizer.convertToDays time unit = (time * 1)%float)
       ∧ (∀ unit, JS.prop Normalizer.multipliers unit = JS.Inherited →
                  JS.isNaN (Normalizer.convertToDays time unit) = true))
  ∧ (∀ users now a b w,
       let result := fst (Bidding.compareBids users now a b w) in
       ((Bidding.priceOf a <? Bidding.priceOf b)%float = true →
        (result <? 0)%float = true)
       ∧ ((Bidding.priceOf b <? Bidding.priceOf a)%float = true →
          (0 <? result)%float = true)
       ∧ ((Bidding.priceOf a =? Bidding.priceOf b)%float = true →
          ((Bidding.daysOf a <? Bidding.daysOf b)%float = true →
           (result <? 0)%float = true)
          ∧ ((Bidding.daysOf b <? Bidding.daysOf a)%float = true →
             (0 <? result)%float = true))
       ∧ (JS.isNaN (Bidding.priceOf a) = true
          ∨ JS.isNaN (Bidding.priceOf b) = true →
          JS.isNaN result = true))
  ∧ (∀ users now bids w,
       fst (Bidding.rankBids users now bids w) ≡ₚ bids
       ∧ (Forall Bidding.numbered bids →
          StronglySorted Bidding.keyLe (fst (Bidding.rankBids users now bids w))))
  ∧ Bidding.priceOf Sample.bidA = 5%float
  ∧ Bidding.priceOf Sample.bidB = 4.4000000000000004%float
  ∧ Bidding.priceOf Sample.bidC = 5.4000000000000004%float
  ∧ Normalizer.convertToUSD 5 "CHF" = 5%float
  ∧ Normalizer.convertToDays 2 "quarters" = 2%float
  ∧ (∀ users now w,
       fst (Bidding.rankBids users now [Sample.bidA; Sample.bidB; Sample.bidC] w)
       = [Sample.bidB; Sample.bidA; Sample.bidC]).
Proof.
  split; [|split; [|split; [|split]]].
  - intros price. split; [done|]. split; [done|]. split; [done|]. split.
    + intros code Hcode. unfold Normalizer.convertToUSD. by rewrite Hcode.
    + intros code. apply convertToUSD_inherited.
  - intros time. split; [done|]. split; [done|]. split; [done|]. split.
    + intros unit Hunit. unfold Normalizer.convertToDays. by rewrite Hunit.
    + intros unit. apply convertToDays_inherited.
  - intros users now a b w result. subst result.
    split; [|split; [|split; [split|]]].
    + intros Hlt.
      destruct (compare_before users now a b w) as (v & -> & Hv);
        [apply beforeb_spec; by left|done].
    + intros Hlt.
      destruct (compare_after users now a b w) as (v & -> & Hv);
        [apply beforeb_spec; by left|done].
    + intros Hd.
      destruct (compare_before users now a b w) as (v & -> & Hv);
        [apply beforeb_spec; by right|done].
    + intros Hd.
      destruct (compare_after users now a b w) as (v & -> & Hv);
        [apply beforeb_spec; right; split; [by rewrite eqb_sym|done]|done].
    + intros Hnan.
      by destruct (compare_NaN users now a b w Hnan) as (v & -> & Hv).
  - intros users now bids w. apply rankBids_sorted.
  - do 5 (split; [by vm_compute|]).
    intros users now w. by vm_compute.
Qed.

Lemma rankBids_comparator_witness :
  (Bidding.priceOf Sample.bidB <? Bidding.priceOf Sample.bidA)%float = true
  ∧ (fst (Bidding.compareBids Sample.users Sample.now Sample.bidB Sample.bidA
            Sample.highLow) <? 0)%float = true.
Proof.
  assert (Hlt : (Bidding.priceOf Sample.bidB <? Bidding.priceOf Sample.bidA)%float
                = true) by reflexivity.
  split; [exact Hlt|].
  destruct rankBids_comparator as (_ & _ & Hcompare & _).
  exact (proj1 (Hcompare Sample.users Sample.now Sample.bidB Sample.bidA
                  Sample.highLow) Hlt).
Defined.

(** ** Determinism and stability of the ranking *)

Section Stable.
Import Bidding.
Local Open Scope list_scope.

Lemma placeByKey_perm x placed : placeByKey x placed ≡ₚ x :: placed.
Proof.
  induction placed as [|y rest IH]; [done|]. simpl.
  destruct (beforeb x y); [done|]. rewrite IH. apply Permutation_swap.
Qed.

Lemma placeByKey_sorted x placed :
  StronglySorted notAfter placed → StronglySorted notAfter (placeByKey x placed).
Proof.
  induction placed as [|y rest IH]; intros Hsorted; simpl.
  - repeat constructor.
  - apply StronglySorted_inv in Hsorted as [Hrest Hy].
    destruct (beforeb x y) eqn:Hxy.
    + constructor; [by constructor|]. constructor; [by apply beforeb_asym|].
      eapply Forall_impl; [exact Hy|]. intros e He. unfold notAfter in *.
      destruct (beforeb e x) eqn:Hex; [|done].
      rewrite <- He. symmetry.
      eapply before_keyLe_before; [done|by apply beforeb_keyLe].
    + constructor; [by apply IH|].
      rewrite placeByKey_perm. by constructor.
Qed.

Lemma tiedWith_cons z x l :
  tiedWith z (x :: l) = if tieb z x then x :: tiedWith z l else tiedWith z l.
Proof.
  unfold tiedWith. rewrite filter_cons.
  by destruct (tieb z x).
Qed.

Lemma tiedWith_app z l1 l2 : tiedWith z (l1 ++ l2) = tiedWith z l1 ++ tiedWith z l2.
Proof. apply filter_app. Qed.

Lemma tiedWith_none z l :
  Forall (λ e, tieb z e = false) l → tiedWith z l = [].
Proof.
  induction 1 as [|e l He _ IH]; [done|]. by rewrite tiedWith_cons, He.
Qed.

(** A bid is placed after the placed bids it ties with. *)
Lemma placeByKey_tiedWith z x placed :
  StronglySorted notAfter placed →
  tiedWith z (placeByKey x placed) = tiedWith z placed ++ tiedWith z [x].
Proof.
  induction placed as [|y rest IH]; intros Hsorted; [done|]. simpl.
  apply StronglySorted_inv in Hsorted as [Hrest Hy].
  destruct (beforeb x y) eqn:Hxy.
  - rewrite (tiedWith_cons z x (y :: rest)).
    rewrite (tiedWith_cons z x []).
    destruct (tieb z x) eqn:Hzx; [|by rewrite app_nil_r].
    rewrite (tiedWith_none z (y :: rest)); [done|].
    assert (∀ e, tieb z e = true → beforeb e y = true) as Hbefore.
    { intros e Hze. eapply keyLe_before_before; [|exact Hxy].
      apply tieb_keyLe. rewrite tieb_sym in Hze. by eapply tieb_trans. }
    constructor.
    + destruct (tieb z y) eqn:Hzy; [|done].
      pose proof (beforeb_asym _ _ (Hbefore y Hzy)) as Hyy.
      rewrite (Hbefore y Hzy) in Hyy. done.
    + eapply Forall_impl; [exact Hy|]. intros e He. unfold notAfter in He.
      destruct (tieb z e) eqn:Hze; [|done].
      rewrite <- He. symmetry. by apply Hbefore.
  - rewrite !(tiedWith_cons z y). rewrite (IH Hrest).
    by destruct (tieb z y).
Qed.

Lemma sortByKeyFrom_perm placed todo :
  sortByKeyFrom placed todo ≡ₚ placed ++ todo.
Proof.
  revert placed. induction todo as [|x todo IH]; intros placed; simpl.
  - by rewrite app_nil_r.
  - rewrite IH, placeByKey_perm. simpl. apply Permutation_middle.
Qed.

Lemma sortByKeyFrom_sorted placed todo :
  StronglySorted notAfter placed →
  StronglySorted notAfter (sortByKeyFrom placed todo).
Proof.
  revert placed. induction todo as [|x todo IH]; intros placed Hsorted;
    simpl; [done|].
  by apply IH, placeByKey_sorted.
Qed.

Lemma sortByKeyFrom_tiedWith z placed todo :
  StronglySorted notAfter placed →
  tiedWith z (sortByKeyFrom placed todo) = tiedWith z placed ++ tiedWith z todo.
Proof.
  revert placed. induction todo as [|x todo IH]; intros placed Hsorted; simpl.
  - by rewrite app_nil_r.
  - rewrite IH by (by apply placeByKey_sorted).
    rewrite placeByKey_tiedWith by done.
    rewrite <- app_assoc. f_equal.
    by rewrite <- tiedWith_app.
Qed.

Variables (users : list User.t) (now : Z).
Local Abbreviation comparefn := (compareBids users now).

(** When the ties of [x] with the placed bids are between exporters without
    a user record, no draw is taken and [x] goes where [placeByKey] puts
    it. *)
Lemma sort_insert_placeByKey x placed w :
  Forall (λ y, tieb y x = true →
               unknownExporter users y ∧ unknownExporter users x) placed →
  sort_insert comparefn x placed w = (placeByKey x placed, w).
Proof.
  induction 1 as [|y rest Hy _ IH]; [done|]. simpl.
  destruct (tieb x y) eqn:Htie.
  - destruct Hy as [Hy Hx]; [by rewrite tieb_sym|].
    rewrite (compare_tie_unscored users now x y w Htie Hx Hy).
    assert ((5 - 5 <? 0)%float = false) as -> by done.
    by rewrite (tieb_not_before x y Htie), IH.
  - destruct (compare_untied users now x y w Htie) as (v & -> & ->).
    destruct (beforeb x y); [done|]. by rewrite IH.
Qed.

Lemma sort_from_sortByKeyFrom placed todo w :
  Forall (λ x, Forall (λ y, tieb y x = true →
                            unknownExporter users y ∧ unknownExporter users x)
                 placed) todo →
  tiesUnscored users todo →
  sort_from comparefn placed todo w = (sortByKeyFrom placed todo, w).
Proof.
  revert placed w. induction todo as [|x todo IH]; intros placed w Hcross Hties;
    [done|]. simpl.
  apply Forall_cons in Hcross as [Hx Hcross].
  inversion Hties as [|? ? Hxtodo Htodo]; subst.
  rewrite (sort_insert_placeByKey x placed w Hx).
  apply IH; [|done].
  rewrite list.Forall_forall in Hcross, Hxtodo.
  apply list.Forall_forall. intros x' Hx'.
  rewrite placeByKey_perm. constructor; [|by apply Hcross].
  intros Htie. by apply Hxtodo.
Qed.

(** Without scored ties, [rankBids] is the stable sort by the two keys and
    takes no draw. *)
Lemma rankBids_sortByKey bids w :
  tiesUnscored users bids → rankBids users now bids w = (sortByKey bids, w).
Proof.
  intros Hties. unfold rankBids, Array_sort, sortByKey.
  apply sort_from_sortByKeyFrom; [|done].
  apply list.Forall_forall. intros x _. constructor.
Qed.

Lemma addRanking_bids index ranked w :
  bid <$> fst (addRanking users now index ranked w) = ranked
  ∧ ∀ i entry,
      fst (addRanking users now index ranked w) !! i = Some entry →
      rank entry = index + Z.of_nat i + 1
      ∧ priceUSD entry = priceOf (bid entry)
      ∧ deliveryDays entry = daysOf (bid entry).
Proof.
  revert index w. induction ranked as [|b rest IH]; intros index w; [done|].
  simpl. destruct (getExporterReliability users now (Bid.exporterId b) w) as [rel w1].
  specialize (IH (index + 1) w1).
  destruct (addRanking users now (index + 1) rest w1) as [rest' w2].
  simpl in *. destruct IH as [IHbids IHfields]. split; [by f_equal|].
  intros [|i] entry Hi; simpl in Hi.
  - injection Hi as <-. simpl. split; [lia|done].
  - destruct (IHfields i entry Hi) as (Hrank & Hp & Hd).
    split; [lia|done].
Qed.
End Stable.

(** C6, as stated, fails: two bids with the same price and delivery time,
    of exporters with a user record, are compared by scores that depend on
    the draws of [Math.random]: in whichever order the two are handed to the
    comparison function, it answers a negative number under one pair of
    draws and a positive one under the other.  [rankBids] returns the two in
    either order accordingly, and in the reverse of their input order under
    the first pair of draws. *)
Lemma rankBids_depends_on_draws :
  Bidding.tieb Sample.bidX Sample.bidY = true
  ∧ (fst (Bidding.compareBids Sample.users Sample.now Sample.bidX Sample.bidY
            Sample.highLow) <? 0)%float = true
  ∧ (0 <? fst (Bidding.compareBids Sample.users Sample.now Sample.bidX Sample.bidY
                 Sample.lowHigh))%float = true
  ∧ (fst (Bidding.compareBids Sample.users Sample.now Sample.bidY Sample.bidX
            Sample.highLow) <? 0)%float = true
  ∧ (0 <? fst (Bidding.compareBids Sample.users Sample.now Sample.bidY Sample.bidX
                 Sample.lowHigh))%float = true
  ∧ fst (Bidding.rankBids Sample.users Sample.now [Sample.bidX; Sample.bidY]
           Sample.highLow) = [Sample.bidY; Sample.bidX]
  ∧ fst (Bidding.rankBids Sample.users Sample.now [Sample.bidX; Sample.bidY]
           Sample.lowHigh) = [Sample.bidX; Sample.bidY].
Proof. by vm_compute. Qed.

(** C6, amended. [rankBids] returns the bids it was given, each unchanged,
    and the ranked view adds to each its rank position, normalized price and
    normalized delivery days (and a reliability score).  When no two bids of
    the input tie on both the binary64 normalized price and the binary64
    normalized delivery days, unless their exporters have no user record,
    two invocations give the same order; when moreover the keys of all bids
    are numbers, that order is the stable sort by the two keys: ascending
    by price and then by delivery days, and bids with equal keys keep their
    relative input order. *)
Theorem rankBids_deterministic_without_scored_ties users now bids :
  (∀ w,
     let ranked := fst (Bidding.rankBids users now bids w) in
     ranked ≡ₚ bids
     ∧ Bidding.bid <$> fst (Bidding.rankedBids users now bids w) = ranked
     ∧ ∀ i entry,
         fst (Bidding.rankedBids users now bids w) !! i = Some entry →
         Bidding.rank entry = Z.of_nat i + 1
         ∧ Bidding.priceUSD entry = Bidding.priceOf (Bidding.bid entry)
         ∧ Bidding.deliveryDays entry = Bidding.daysOf (Bidding.bid entry))
  ∧ (Bidding.tiesUnscored users bids →
     (∀ w1 w2, fst (Bidding.rankBids users now bids w1)
               = fst (Bidding.rankBids users now bids w2))
     ∧ (Forall Bidding.numbered bids →
        ∀ w,
          let ranked := fst (Bidding.rankBids users now bids w) in
          ranked = Bidding.sortByKey bids
          ∧ StronglySorted Bidding.keyLe ranked
          ∧ ∀ z, Bidding.tiedWith z ranked = Bidding.tiedWith z bids)).
Proof.
  split.
  - intros w ranked. subst ranked.
    split; [apply rankBids_sorted|].
    unfold Bidding.rankedBids.
    destruct (Bidding.rankBids users now bids w) as [ranked w1]. simpl.
    destruct (addRanking_bids users now 0 ranked w1) as [Hbids Hfields].
    split; [done|]. intros i entry Hi.
    destruct (Hfields i entry Hi) as (Hrank & Hp & Hd). split; [lia|done].
  - intros Hties. split.
    + intros w1 w2. by rewrite !rankBids_sortByKey.
    + intros Hnum w ranked. subst ranked.
      split; [by rewrite rankBids_sortByKey|]. split.
      * by apply rankBids_sorted.
      * intros z. rewrite rankBids_sortByKey by done. simpl.
        unfold Bidding.sortByKey.
        rewrite sortByKeyFrom_tiedWith by constructor. done.
Qed.

Lemma rankBids_deterministic_without_scored_ties_witness :
  Bidding.tiesUnscored Sample.users [Sample.bidA; Sample.bidB; Sample.bidC]
  ∧ fst (Bidding.rankBids Sample.users Sample.now
           [Sample.bidA; Sample.bidB; Sample.bidC] Sample.highLow)
    = fst (Bidding.rankBids Sample.users Sample.now
             [Sample.bidA; Sample.bidB; Sample.bidC] Sample.lowHigh).
Proof.
  assert (Hties : Bidding.tiesUnscored Sample.users
                    [Sample.bidA; Sample.bidB; Sample.bidC]).
  { unfold Bidding.tiesUnscored.
    repeat match goal with
           | |- ForallOrdPairs _ _ => constructor
           | |- Forall _ _ => constructor
           | |- _ = true → _ => intros Htie; vm_compute in Htie; discriminate Htie
           end. }
  split; [exact Hties|].
  destruct (rankBids_deterministic_without_scored_ties Sample.users Sample.now
              [Sample.bidA; Sample.bidB; Sample.bidC]) as [_ Hdet].
  exact (proj1 (Hdet Hties) Sample.highLow Sample.lowHigh).
Defined.

(** ** Order histories *)

Section Effects.
Import Orders.

Lemma step_effect orders orders' : step orders orders' → effect orders orders'.
Proof.
  destruct 1 as [bids requirements users now uuid bidId orders
                | userId now id body files orders
                | userId now id phase files orders
                | userId now id reason orders].
  - unfold createOrderFromBid.
    destruct (JS.find _ bids) as [bid|]; [|constructor].
    destruct (JS.find _ requirements) as [requirement|]; [|constructor].
    destruct (JS.find _ users) as [exporter|]; [|constructor].
    destruct (JS.find _ users) as [importer|]; [|constructor].
    destruct (JS.timeClip _) as [estimatedDelivery|]; [|constructor].
    simpl. apply effect_push. unfold created. simpl.
    split; [done|]. split; [done|]. split; [by eexists|].
    split; [by intros []|done].
  - destruct (updateOrderPhase_store userId now id body files orders)
      as [-> | (i & o & Hfind & Hact & Hrange & ->)]; [constructor|].
    apply list_find_Some in Hfind as (Hi & _ & _).
    eapply effect_revise; [done..|]. by constructor.
  - unfold uploadOrderDocuments.
    destruct (phaseOfName phase) as [ph|]; [|constructor].
    destruct (list_find _ orders) as [[i o]|] eqn:Hfind; [|constructor].
    destruct (decide _) as [|Hact]; [constructor|]. apply dec_stable in Hact.
    destruct (decide _) as [|Hdocs]; [constructor|]. simpl.
    apply list_find_Some in Hfind as (Hi & _ & _).
    eapply effect_revise; [done..|]. constructor.
    intros Hnil. apply Hdocs. by rewrite Hnil.
  - unfold cancelOrder.
    destruct (list_find _ orders) as [[i o]|] eqn:Hfind; [|constructor].
    destruct (decide _) as [|Hact]; [constructor|]. apply dec_stable in Hact.
    destruct (Z.ltb_spec 2 (JS.indexOf ORDER_PHASES (Order.currentPhase o)));
      [constructor|]. simpl.
    apply list_find_Some in Hfind as (Hi & _ & _).
    eapply effect_revise; [done..|]. by constructor.
Qed.

(** A property of orders that creation establishes and every revision of an
    active order keeps holds of every order of a reachable store. *)
Lemma reachable_all (I : Order.t → Prop) :
  (∀ o, created o → I o) →
  (∀ o o', Order.status o = "active" → revision o o' → I o → I o') →
  ∀ orders, reachable orders → Forall I orders.
Proof.
  intros Hcreated Hrevision. unfold reachable.
  apply rtc_ind_r; [constructor|]. intros orders1 orders2 _ Hstep IH.
  apply step_effect in Hstep.
  destruct Hstep as [|i o o' Hi Hact Hrev|o Hnew]; [done|..].
  - apply Forall_insert; [done|].
    eapply Hrevision; [done..|]. by eapply Forall_lookup_1.
  - apply Forall_app. split; [done|]. repeat constructor. by apply Hcreated.
Qed.

(** A preorder on orders that every revision of an active order respects
    relates each stored order to what later stands at its index. *)
Lemma steps_related (R : Order.t → Order.t → Prop) :
  (∀ o, R o o) → (∀ o1 o2 o3, R o1 o2 → R o2 o3 → R o1 o3) →
  (∀ o o', Order.status o = "active" → revision o o' → R o o') →
  ∀ orders orders' j o,
    rtc step orders orders' → orders !! j = Some o →
    ∃ o', orders' !! j = Some o' ∧ R o o'.
Proof.
  intros Hrefl Htrans Hrevision orders orders' j o Hsteps. revert o.
  induction Hsteps as [|s1 s2 s3 Hstep _ IH]; intros o Hj.
  - by exists o.
  - apply step_effect in Hstep.
    assert (∃ o2, s2 !! j = Some o2 ∧ R o o2) as (o2 & Hj2 & HR).
    { destruct Hstep as [|i oi o' Hi Hact Hrev|onew _].
      - by exists o.
      - destruct (decide (i = j)) as [->|Hne].
        + exists o'. rewrite list_lookup_insert_eq by (by eapply lookup_lt_Some).
          split; [done|]. simplify_eq. by apply Hrevision.
        + exists o. by rewrite list_lookup_insert_ne.
      - exists o. by rewrite lookup_app_l by (by eapply lookup_lt_Some). }
    destruct (IH _ Hj2) as (o3 & Hj3 & HR3).
    exists o3. split; [done|]. by eapply Htrans.
Qed.
End Effects.

Section Revisions.
Import Orders.

Lemma advance_get userId now phase o p :
  Phases.get (Order.phases (advance userId now phase o)) p =
  if (phaseIndex o <? JS.indexOf ORDER_PHASES phase) && bool_decide (p = phase)
  then PhaseRecord.start now userId (Phases.get (Order.phases o) p)
  else if bool_decide (p = Order.currentPhase o)
          && bool_decide (phaseStatus o p = "pending")
       then PhaseRecord.complete now userId (Phases.get (Order.phases o) p)
       else Phases.get (Order.phases o) p.
Proof.
  unfold advance, phaseIndex, phaseStatus.
  destruct (Z.ltb_spec (JS.indexOf ORDER_PHASES (Order.currentPhase o))
              (JS.indexOf ORDER_PHASES phase)) as [Hlt|Hge];
    destruct (decide (PhaseRecord.status
                        (Phases.get (Order.phases o) (Order.currentPhase o))
                      = "pending")) as [Hpen|Hpen];
    simpl; repeat case_bool_decide; simplify_eq; simpl;
    rewrite ?get_alter_eq; try done;
    repeat (rewrite get_alter_ne by congruence; rewrite ?get_alter_eq);
    try done.
  all: try (rewrite !get_alter_ne by (intros Heq; rewrite Heq in *; lia)).
  all: by rewrite ?get_alter_eq.
Qed.

Lemma annotate_documents userId now body documents o p :
  documentsOf (annotate userId now body documents o) p =
  (documentsOf o p
   ++ if decide (p = Order.currentPhase o) then documents else [])%list.
Proof.
  unfold annotate, documentsOf.
  destruct documents as [|d documents];
    destruct (Update.notes body) as [n|]; [destruct (String.eqb n "")| |destruct (String.eqb n "")|];
    destruct (Update.estimatedDelivery body);
    simpl; destruct (decide (_ ∧ _)); simpl;
    destruct (Order.currentPhase o), p; simpl; by rewrite ?app_nil_r.
Qed.

Lemma annotate_terms userId now body documents o :
  terms (annotate userId now body documents o) = terms o.
Proof.
  unfold annotate.
  destruct (Update.notes body) as [n|]; [destruct (String.eqb n "")|];
    destruct (0 <? _); destruct (Update.estimatedDelivery body);
    simpl; destruct (decide _); done.
Qed.

Lemma annotate_cancellation userId now body documents o :
  let o' := annotate userId now body documents o in
  Order.cancellationReason o' = Order.cancellationReason o
  ∧ Order.cancelledBy o' = Order.cancelledBy o
  ∧ Order.cancelledAt o' = Order.cancelledAt o.
Proof.
  unfold annotate.
  destruct (Update.notes body) as [n|]; [destruct (String.eqb n "")|];
    destruct (0 <? _); destruct (Update.estimatedDelivery body);
    simpl; destruct (decide _); done.
Qed.

Lemma advance_terms userId now phase o :
  terms (advance userId now phase o) = terms o
  ∧ Order.cancellationReason (advance userId now phase o) = Order.cancellationReason o
  ∧ Order.cancelledBy (advance userId now phase o) = Order.cancelledBy o
  ∧ Order.cancelledAt (advance userId now phase o) = Order.cancelledAt o.
Proof. unfold advance. destruct (decide _); destruct (_ <? _); done. Qed.

Lemma advance_documents userId now phase o p :
  documentsOf (advance userId now phase o) p = documentsOf o p.
Proof.
  unfold documentsOf. rewrite advance_get.
  destruct (_ && _); [done|]. by destruct (_ && _).
Qed.

(** The order [updateOrderPhase] stores, field by field. *)
Lemma updated_fields userId now body files o :
  let o1 := match Update.phase body ≫= phaseOfName with
            | Some phase => advance userId now phase o
            | None => o
            end in
  let o' := updated userId now body files o in
  Order.currentPhase o' = Order.currentPhase o1
  ∧ (∀ p, phaseStatus o' p = phaseStatus o1 p)
  ∧ Order.status o' = (if decide (delivered o1) then "completed" else Order.status o)
  ∧ terms o' = terms o
  ∧ Order.cancellationReason o' = Order.cancellationReason o
  ∧ Order.cancelledBy o' = Order.cancelledBy o
  ∧ Order.cancelledAt o' = Order.cancelledAt o.
Proof.
  intros o1 o'. subst o'. unfold updated. fold o1.
  split; [apply annotate_currentPhase|].
  split; [intros p; apply annotate_phase|].
  split.
  { rewrite annotate_status. unfold delivered.
    repeat destruct (decide _); try tauto.
    subst o1. destruct (Update.phase body ≫= phaseOfName); [|done].
    apply advance_fixed. }
  rewrite annotate_terms.
  destruct (annotate_cancellation userId now body
              match files with Some fs => toDocument userId now <$> fs | None => [] end
              o1) as (-> & -> & ->).
  subst o1. destruct (Update.phase body ≫= phaseOfName); [|done].
  apply advance_terms.
Qed.

Lemma start_dated now userId r :
  PhaseRecord.status r = "not_started" → dated r →
  dated (PhaseRecord.start now userId r).
Proof.
  intros Hst [(_ & _ & Hc)|[(Hs & _)|(Hs & _)]]; [|congruence..].
  right; left. simpl. by split; [|split; [eexists|]].
Qed.

Lemma complete_dated now userId r :
  PhaseRecord.status r = "pending" → dated r →
  dated (PhaseRecord.complete now userId r).
Proof.
  intros Hst [(Hs & _)|[(_ & Hstart & _)|(Hs & _)]]; [congruence| |congruence].
  right; right. simpl. by split; [|split; [|eexists]].
Qed.

Lemma dated_ext r r' :
  PhaseRecord.status r' = PhaseRecord.status r →
  PhaseRecord.startedAt r' = PhaseRecord.startedAt r →
  PhaseRecord.completedAt r' = PhaseRecord.completedAt r →
  dated r → dated r'.
Proof. unfold dated. by intros -> -> ->. Qed.

Lemma created_consistent o : created o → consistent o.
Proof.
  intros (Hact & Hcur & (now & Hconf) & Hrest & Hr & Hb & Ha).
  assert (∀ p, phaseStatus o p = if decide (p = Phase.confirmation)
                                 then "pending" else "not_started") as Hst.
  { intros p. unfold phaseStatus. destruct (decide _) as [->|Hne].
    - simpl. by rewrite Hconf.
    - by rewrite Hrest. }
  split.
  { unfold phasesShape, phaseIndex. rewrite Hcur, !Hst. simpl.
    split; [by left|]. split; [|split]; intros p; rewrite Hst, ?indexOf_phase;
      destruct p; simpl; (done || lia). }
  split.
  { intros p. destruct (decide (p = Phase.confirmation)) as [->|Hne].
    - right; left. simpl. rewrite Hconf. simpl. by split; [|split; [eexists|]].
    - left. by rewrite Hrest. }
  split; [by left|].
  split.
  { unfold delivered. rewrite Hact, Hcur. split; [done|]. by intros []. }
  split; [by rewrite Hact|done].
Qed.

Lemma revision_consistent o o' :
  Order.status o = "active" → revision o o' → consistent o → consistent o'.
Proof.
  intros Hact Hrev (Hshape & Hdated & Hstatus & Hdone & Hcancelled & Hopen).
  assert (¬ delivered o) as Hnot by (rewrite <- Hdone, Hact; done).
  destruct (Hopen ltac:(by rewrite Hact)) as (Hr & Hb & Ha).
  destruct Hrev as [userId now body files Hrange
                   | userId now documents phase Hdocs
                   | reason userId now Hwindow].
  - pose proof (updated_fields userId now body files o) as Hf. simpl in Hf.
    destruct Hf as (Hcur' & Hst' & Hstatus' & _ & Hr' & Hb' & Ha').
    split; [by apply updated_keeps|].
    split.
    { intros p. unfold updated.
      eapply dated_ext; [apply annotate_phase..|].
      destruct (Update.phase body ≫= phaseOfName) as [ph|] eqn:Hph; [|done].
      specialize (Hrange ph eq_refl).
      rewrite advance_get.
      destruct (Z.ltb_spec (phaseIndex o) (JS.indexOf ORDER_PHASES ph)) as [Hlt|Hge];
        simpl; repeat case_bool_decide; simplify_eq; simpl; try done.
      - apply start_dated; [|done].
        destruct Hshape as (_ & _ & _ & Hafter). by apply Hafter.
      - by apply complete_dated.
      - by apply complete_dated. }
    rewrite Hstatus', Hact.
    assert (delivered (updated userId now body files o)
            ↔ delivered match Update.phase body ≫= phaseOfName with
                        | Some phase => advance userId now phase o
                        | None => o
                        end) as Hiff.
    { unfold delivered. by rewrite Hcur', Hst'. }
    destruct (decide _) as [Hd|Hd].
    + split; [auto|]. split; [tauto|]. split; [done|].
      intros _. by rewrite Hr', Hb', Ha'.
    + split; [auto|]. split; [split; [done|tauto]|]. split; [done|].
      intros _. by rewrite Hr', Hb', Ha'.
  - split.
    { revert Hshape. apply phasesShape_ext; [done|].
      intros p. unfold phaseStatus. simpl.
      destruct (decide (phase = p)) as [->|Hne].
      - by rewrite get_alter_eq.
      - by rewrite get_alter_ne. }
    split.
    { intros p. simpl. destruct (decide (phase = p)) as [->|Hne].
      - rewrite get_alter_eq. by eapply dated_ext; [| | |apply Hdated].
      - by rewrite get_alter_ne. }
    simpl. split; [auto|]. split; [|split; [by rewrite Hact|done]].
    rewrite Hdone. unfold delivered, phaseStatus. by destruct phase.
  - split; [by revert Hshape; apply phasesShape_ext|].
    split; [done|]. simpl.
    split; [auto|]. split; [split; [done|]|].
    { intros Hd. by destruct Hnot. }
    split; [|done]. intros _. by repeat split; try eexists.
Qed.

Lemma reachable_consistent orders :
  reachable orders → Forall consistent orders.
Proof.
  apply reachable_all.
  - apply created_consistent.
  - apply revision_consistent.
Qed.

Lemma revision_terms o o' : revision o o' → terms o' = terms o.
Proof.
  destruct 1 as [userId now body files _|userId now documents phase _|reason userId now _];
    [|done..].
  apply (updated_fields userId now body files o).
Qed.

Lemma revision_documents o o' p :
  revision o o' → documentsOf o p `prefix_of` documentsOf o' p.
Proof.
  destruct 1 as [userId now body files _|userId now documents phase _|reason userId now _].
  - unfold updated. rewrite annotate_documents.
    destruct (Update.phase body ≫= phaseOfName) as [ph|].
    + rewrite advance_documents. by eexists.
    + by eexists.
  - unfold documentsOf. simpl. destruct (decide (phase = p)) as [->|Hne].
    + rewrite get_alter_eq. simpl. by eexists.
    + by rewrite get_alter_ne.
  - done.
Qed.
End Revisions.

Lemma phaseOfName_inv name p :
  Orders.phaseOfName name = Some p → name = Orders.phaseName p.
Proof.
  unfold Orders.phaseOfName. intros Hfind.
  apply find_Some in Hfind as (i & Hfind).
  by apply list_find_Some in Hfind as (_ & <- & _).
Qed.

(** X1. The statuses an order can have.  In every store the handlers can build,
    an order is active, completed or cancelled (no handler stores
    'disputed'); it is completed exactly when delivery is its current phase
    and is completed; it is cancelled exactly when its cancellation fields
    are set, and then its current phase is confirmation, payment or
    production. *)
Theorem reachable_order_status orders o :
  Orders.reachable orders → o ∈ orders →
  (Order.status o = "active" ∨ Order.status o = "completed"
   ∨ Order.status o = "cancelled")
  ∧ (Order.status o = "completed"
     ↔ Order.currentPhase o = Phase.delivery
       ∧ Orders.phaseStatus o Phase.delivery = "completed")
  ∧ (Order.status o = "cancelled"
     ↔ is_Some (Order.cancelledBy o))
  ∧ (Order.status o = "cancelled" →
     Orders.inWindow (Order.currentPhase o)
     ∧ is_Some (Order.cancellationReason o) ∧ is_Some (Order.cancelledAt o))
  ∧ (Order.status o ≠ "cancelled" →
     Order.cancellationReason o = None ∧ Order.cancelledAt o = None).
Proof.
  intros Hreach Ho.
  apply reachable_consistent in Hreach.
  rewrite list.Forall_forall in Hreach.
  destruct (Hreach o Ho) as (_ & _ & Hstatus & Hdone & Hcancelled & Hopen).
  split; [done|]. split; [done|]. split; [|split].
  - split.
    + intros Hc. by apply Hcancelled.
    + intros Hby. destruct (decide (Order.status o = "cancelled")) as [|Hne]; [done|].
      destruct (Hopen Hne) as (_ & Hnone & _). rewrite Hnone in Hby.
      by destruct Hby.
  - intros Hc. destruct (Hcancelled Hc) as (Hidx & Hr & _ & Ha).
    split; [|done]. by apply inWindow_index.
  - intros Hne. by destruct (Hopen Hne) as (? & _ & ?).
Qed.

Lemma reachable_order_status_witness :
  Orders.reachable Sample.orders
  ∧ Sample.order ∈ Sample.orders
  ∧ (Order.status Sample.order = "completed"
     ↔ Order.currentPhase Sample.order = Phase.delivery
       ∧ Orders.phaseStatus Sample.order Phase.delivery = "completed").
Proof.
  split; [apply reachable_sample|].
  split; [by constructor|].
  apply (reachable_order_status Sample.orders Sample.order).
  - apply reachable_sample.
  - by constructor.
Defined.

(** X2. Phase records and their instants.  In every store the handlers can
    build, a phase that has not started has no instant, a pending phase has a
    start instant and no completion instant, and a completed phase has both;
    a completed order has all six phases completed. *)
Theorem reachable_phase_instants orders o :
  Orders.reachable orders → o ∈ orders →
  (∀ p,
     let r := Phases.get (Order.phases o) p in
     (PhaseRecord.status r = "not_started"
      ∧ PhaseRecord.startedAt r = None ∧ PhaseRecord.completedAt r = None)
     ∨ (PhaseRecord.status r = "pending"
        ∧ is_Some (PhaseRecord.startedAt r) ∧ PhaseRecord.completedAt r = None)
     ∨ (PhaseRecord.status r = "completed"
        ∧ is_Some (PhaseRecord.startedAt r)
        ∧ is_Some (PhaseRecord.completedAt r)))
  ∧ (Order.status o = "completed" →
     ∀ p,
       let r := Phases.get (Order.phases o) p in
       PhaseRecord.status r = "completed"
       ∧ is_Some (PhaseRecord.startedAt r) ∧ is_Some (PhaseRecord.completedAt r)).
Proof.
  intros Hreach Ho.
  apply reachable_consistent in Hreach.
  rewrite list.Forall_forall in Hreach.
  destruct (Hreach o Ho) as (Hshape & Hdated & _ & Hdone & _).
  split; [exact Hdated|].
  intros Hcompleted p. simpl.
  apply Hdone in Hcompleted as [Hcur Hdel].
  destruct Hshape as (_ & _ & Hbefore & _).
  assert (PhaseRecord.status (Phases.get (Order.phases o) p) = "completed") as Hp.
  { destruct (decide (p = Phase.delivery)) as [->|Hne]; [done|].
    apply Hbefore. unfold Orders.phaseIndex. rewrite Hcur, !indexOf_phase.
    by destruct p; try lia. }
  destruct (Hdated p) as [(Hs & _)|[(Hs & _)|(_ & ? & ?)]]; [congruence..|done].
Qed.

Lemma reachable_phase_instants_witness :
  Orders.reachable Sample.ordersConfirmed
  ∧ (∀ o, o ∈ Sample.ordersConfirmed →
       PhaseRecord.status (Phases.confirmation (Order.phases o)) = "completed"
       ∧ is_Some (PhaseRecord.completedAt (Phases.confirmation (Order.phases o)))).
Proof.
  split; [apply reachable_confirmed|].
  intros o Ho.
  destruct (reachable_phase_instants Sample.ordersConfirmed o
              reachable_confirmed Ho) as [Hdated _].
  specialize (Hdated Phase.confirmation). simpl in Hdated.
  apply list_elem_of_singleton in Ho. subst o.
  destruct Hdated as [(Hs & _)|[(Hs & _)|(Hs & _ & Hc)]];
    [discriminate Hs..|done].
Defined.

(** X3. Closed orders are final.  An order that is completed or cancelled is
    never changed again: whatever calls follow, the same order stands at the
    same index of the array. *)
Theorem closed_order_is_final orders orders' j o :
  rtc Orders.step orders orders' →
  orders !! j = Some o → Order.status o ≠ "active" →
  orders' !! j = Some o.
Proof.
  intros Hsteps Hj Hclosed.
  destruct (steps_related (λ o o', Order.status o ≠ "active" → o' = o))
    with (orders := orders) (orders' := orders') (j := j) (o := o)
    as (o' & Hj' & Heq); try done.
  - intros o1 o2 o3 H12 H23 Hc. specialize (H12 Hc). subst o2. by apply H23.
  - by rewrite Hj', (Heq Hclosed).
Qed.

Lemma closed_order_is_final_witness :
  ∃ o, Sample.ordersCancelled !! 0%nat = Some o
       ∧ Order.status o = "cancelled"
       ∧ snd (Orders.updateOrderPhase "imp-1" (Sample.now + 5000) "order-1"
                Sample.toPayment None Sample.ordersCancelled) !! 0%nat
         = Some o.
Proof.
  eexists. split; [reflexivity|]. split; [reflexivity|].
  apply (closed_order_is_final Sample.ordersCancelled).
  - apply rtc_once. constructor.
  - reflexivity.
  - discriminate.
Defined.

(** X4. The terms of an order are fixed.  No handler assigns the identifier, the
    bid, the requirement, the parties, the goods, the price, the total value,
    the delivery terms or the creation instant of a stored order: after any
    calls the order at an index still has the ones it was created with. *)
Theorem order_terms_are_fixed orders orders' j o :
  rtc Orders.step orders orders' → orders !! j = Some o →
  ∃ o', orders' !! j = Some o'
        ∧ Order.id o' = Order.id o
        ∧ Order.bidId o' = Order.bidId o
        ∧ Order.requirementId o' = Order.requirementId o
        ∧ Order.exporterId o' = Order.exporterId o
        ∧ Order.importerId o' = Order.importerId o
        ∧ Order.title o' = Order.title o
        ∧ Order.description o' = Order.description o
        ∧ Order.category o' = Order.category o
        ∧ Order.quantity o' = Order.quantity o
        ∧ Order.unit o' = Order.unit o
        ∧ Order.price o' = Order.price o
        ∧ Order.currency o' = Order.currency o
        ∧ Order.totalValue o' = Order.totalValue o
        ∧ Order.deliveryLocation o' = Order.deliveryLocation o
        ∧ Order.deliveryTime o' = Order.deliveryTime o
        ∧ Order.deliveryTimeUnit o' = Order.deliveryTimeUnit o
        ∧ Order.paymentTerms o' = Order.paymentTerms o
        ∧ Order.deliveryTerms o' = Order.deliveryTerms o
        ∧ Order.createdAt o' = Order.createdAt o.
Proof.
  intros Hsteps Hj.
  destruct (steps_related (λ o o', Orders.terms o' = Orders.terms o))
    with (orders := orders) (orders' := orders') (j := j) (o := o)
    as (o' & Hj' & Heq); try done.
  - intros o1 o2 o3 H12 H23. congruence.
  - intros o1 o2 _. apply revision_terms.
  - exists o'. split; [done|]. unfold Orders.terms in Heq.
    by simplify_eq.
Qed.

Lemma order_terms_are_fixed_witness :
  ∃ o', snd (Orders.updateOrderPhase "imp-1" Sample.now "order-1"
               Sample.toPayment None Sample.orders) !! 0%nat = Some o'
        ∧ Order.currentPhase o' = Phase.payment
        ∧ Order.totalValue o' = Order.totalValue Sample.order.
Proof.
  destruct (order_terms_are_fixed Sample.orders
              (snd (Orders.updateOrderPhase "imp-1" Sample.now "order-1"
                      Sample.toPayment None Sample.orders))
              0%nat Sample.order) as (o' & Ho' & Hterms).
  - apply rtc_once. constructor.
  - reflexivity.
  - exists o'. split; [done|]. split; [by injection Ho' as <-|].
    apply Hterms.
Defined.

(** X5. Documents are only ever added.  Whatever calls follow, the documents a
    phase of a stored order has are still there, in the same order, at the
    front of the documents that phase has later. *)
Theorem documents_are_append_only orders orders' j o p :
  rtc Orders.step orders orders' → orders !! j = Some o →
  ∃ o' added,
    orders' !! j = Some o'
    ∧ PhaseRecord.documents (Phases.get (Order.phases o') p)
      = (PhaseRecord.documents (Phases.get (Order.phases o) p) ++ added)%list.
Proof.
  intros Hsteps Hj.
  destruct (steps_related
              (λ o o', Orders.documentsOf o p `prefix_of` Orders.documentsOf o' p))
    with (orders := orders) (orders' := orders') (j := j) (o := o)
    as (o' & Hj' & added & Heq); try done.
  - intros o1 o2 o3 H12 H23. by etrans.
  - intros o1 o2 _. apply revision_documents.
  - by exists o', added.
Qed.

Lemma documents_are_append_only_witness :
  ∃ o' added,
    snd (Orders.cancelOrder "imp-1" (Sample.now + 3000) "order-1" None
           Sample.ordersWithInvoice) !! 0%nat = Some o'
    ∧ PhaseRecord.documents (Phases.get (Order.phases o') Phase.payment)
      = (Orders.toDocument "exp-1" (Sample.now + 2000) Sample.invoice :: added)%list.
Proof.
  destruct (documents_are_append_only Sample.ordersWithInvoice
              (snd (Orders.cancelOrder "imp-1" (Sample.now + 3000) "order-1" None
                      Sample.ordersWithInvoice))
              0%nat
              (Order.set_updatedAt (Sample.now + 2000)
                 (Order.alter_phase
                    (λ r, PhaseRecord.set_updatedBy "exp-1"
                            (PhaseRecord.push_documents
                               [Orders.toDocument "exp-1" (Sample.now + 2000)
                                  Sample.invoice] r))
                    Phase.payment Sample.order))
              Phase.payment) as (o' & added & Ho' & Hdocs).
  - apply rtc_once. constructor.
  - reflexivity.
  - by exists o', added.
Defined.

Lemma reachable_send phase orders :
  Orders.reachable orders → Orders.reachable (Sample.send phase orders).
Proof. intros Hreach. eapply rtc_r; [exact Hreach|]. constructor. Qed.

Lemma reachable_in_delivery : Orders.reachable Sample.ordersInDelivery.
Proof. unfold Sample.ordersInDelivery. do 5 apply reachable_send. apply reachable_sample. Qed.

(** X6. Completion.  For an active order of a reachable store, a valid request
    of a party stores a completed order exactly when delivery is the current
    phase and the request names delivery; no other request completes an
    order. *)
Theorem order_completes_on_delivery
    userId now id body files orders orderIndex order :
  Orders.reachable orders →
  list_find (Orders.partyTo id userId) orders = Some (orderIndex, order) →
  Order.status order = "active" →
  Orders.orderUpdateValidation body = true →
  let result := Orders.updateOrderPhase userId now id body files orders in
  (∃ order', result = (Ok 200 "Order updated successfully" order',
                       <[orderIndex := order']> orders)
             ∧ Order.status order' = "completed")
  ↔ Order.currentPhase order = Phase.delivery
    ∧ Orders.Update.phase body = Some "delivery".
Proof.
  intros Hreach Hfind Hact Hvalid result.
  pose proof Hfind as Hin. apply list_find_Some in Hin as (Hin & _ & _).
  apply reachable_consistent in Hreach.
  pose proof (Forall_lookup_1 _ _ _ _ Hreach Hin)
    as (Hshape & _ & _ & Hdone & _).
  assert (¬ Orders.delivered order) as Hnot by (rewrite <- Hdone, Hact; done).
  pose proof (updated_fields userId now body files order) as Hf. simpl in Hf.
  destruct Hf as (Hcur' & Hst' & Hstatus' & _).
  split.
  - intros (order' & Hres & Hcompleted).
    assert ((∀ phase, Orders.Update.phase body ≫= Orders.phaseOfName = Some phase →
               Orders.phaseIndex order <= JS.indexOf Orders.ORDER_PHASES phase
                 <= Orders.phaseIndex order + 1)
            ∧ order' = Orders.updated userId now body files order) as [Hrange ->].
    { subst result. unfold Orders.updateOrderPhase, Orders.updated in *.
      rewrite Hvalid, Hfind in Hres. simpl in Hres.
      rewrite decide_False in Hres by (by intros []).
      unfold Orders.phaseIndex.
      destruct (Orders.Update.phase body ≫= Orders.phaseOfName) as [ph|].
      - destruct (Z.ltb_spec (JS.indexOf Orders.ORDER_PHASES ph)
                    (JS.indexOf Orders.ORDER_PHASES (Order.currentPhase order)));
          [discriminate Hres|].
        destruct (Z.ltb_spec (JS.indexOf Orders.ORDER_PHASES (Order.currentPhase order) + 1)
                    (JS.indexOf Orders.ORDER_PHASES ph)); [discriminate Hres|].
        injection Hres as <- _. split; [|done]. intros ? [= <-]. lia.
      - injection Hres as <- _. split; [|done]. intros ? [=]. }
    rewrite Hstatus', Hact in Hcompleted.
    destruct (decide _) as [[Hcur Hdel]|]; [|done].
    destruct (Orders.Update.phase body ≫= Orders.phaseOfName) as [ph|] eqn:Hph;
      [|by destruct Hnot].
    specialize (Hrange ph eq_refl).
    rewrite advance_currentPhase in Hcur.
    unfold Orders.phaseStatus in Hdel. rewrite advance_get in Hdel.
    destruct (Z.ltb_spec (Orders.phaseIndex order)
                (JS.indexOf Orders.ORDER_PHASES ph)) as [Hlt|Hge].
    { subst ph. simpl in Hdel. discriminate Hdel. }
    assert (ph = Order.currentPhase order) as ->.
    { apply indexOf_phase_inj. unfold Orders.phaseIndex in *. lia. }
    split; [done|].
    destruct (Orders.Update.phase body) as [name|]; [|done]. simpl in Hph.
    apply phaseOfName_inv in Hph. by rewrite Hph, Hcur.
  - intros [Hcur Hphase].
    assert (Orders.Update.phase body ≫= Orders.phaseOfName = Some Phase.delivery)
      as Hph by (by rewrite Hphase).
    exists (Orders.updated userId now body files order). split.
    + subst result. apply update_stores; [done..|].
      intros ph. rewrite Hph. intros [= <-].
      unfold Orders.phaseIndex. rewrite Hcur. lia.
    + rewrite Hstatus', Hph. rewrite decide_True; [done|].
      split.
      * rewrite advance_currentPhase, Hcur. unfold Orders.phaseIndex.
        rewrite Hcur. by destruct (_ <? _).
      * destruct Hshape as ([Hpen|Hcomp] & _).
        -- unfold Orders.phaseStatus. rewrite advance_get.
           unfold Orders.phaseIndex. rewrite Hcur, Z.ltb_irrefl. simpl.
           rewrite Hcur in Hpen. unfold Orders.phaseStatus in Hpen.
           by rewrite !bool_decide_eq_true_2 by done.
        -- destruct Hnot. split; [done|]. by rewrite Hcur in Hcomp.
Qed.

Lemma order_completes_on_delivery_witness :
  ∃ order',
    Orders.updateOrderPhase "exp-1" (Sample.now + 9000) "order-1"
      (Sample.naming "delivery") None Sample.ordersInDelivery
    = (Ok 200 "Order updated successfully" order',
       <[0%nat := order']> Sample.ordersInDelivery)
    ∧ Order.status order' = "completed".
Proof.
  apply (order_completes_on_delivery "exp-1" (Sample.now + 9000) "order-1"
           (Sample.naming "delivery") None Sample.ordersInDelivery 0%nat
           Sample.orderInDelivery).
  - apply reachable_in_delivery.
  - vm_compute. reflexivity.
  - reflexivity.
  - reflexivity.
  - split; reflexivity.
Defined.

(** X7. Who reads an order.  [getOrderById] answers with an order only when the
    caller is its exporter or its importer, and names the caller's side (the
    exporter's, for a caller who is both); it answers 404 exactly when no
    order with the identifier has the caller as a party, whether or not the
    identifier exists. *)
Theorem getOrderById_only_for_parties userId id orders :
  (∀ order role,
     Orders.getOrderById userId id orders = Json (order, role) →
     order ∈ orders ∧ Order.id order = id
     ∧ ((role = "exporter" ∧ Order.exporterId order = userId)
        ∨ (role = "importer" ∧ Order.importerId order = userId
           ∧ Order.exporterId order ≠ userId)))
  ∧ (∀ code error,
       Orders.getOrderById userId id orders = Failure code error →
       code = 404 ∧ error = "Order not found or unauthorized")
  ∧ ((∃ error, Orders.getOrderById userId id orders = Failure 404 error)
     ↔ ∀ order, order ∈ orders → Order.id order = id →
                Order.exporterId order ≠ userId ∧ Order.importerId order ≠ userId)
  ∧ Orders.getOrderById "imp-1" "order-1" Sample.orders
    = Json (Sample.order, "importer")
  ∧ Orders.getOrderById "exp-2" "order-1" Sample.orders
    = Failure 404 "Order not found or unauthorized".
Proof.
  unfold Orders.getOrderById.
  split; [|split; [|split; [|split; reflexivity]]].
  - intros order role Hjson.
    destruct (JS.find _ orders) as [o|] eqn:Hfind; [|done].
    injection Hjson as -> <-.
    apply find_Some in Hfind as (i & Hfind).
    apply list_find_Some in Hfind as (Hi & [Hid Hparty] & _).
    split; [by eapply list_elem_of_lookup_2|]. split; [done|].
    destruct (decide _) as [He|He]; [by left|right].
    split; [done|]. by destruct Hparty.
  - intros code error Hfail.
    destruct (JS.find _ orders) as [o|]; [done|]. by injection Hfail as <- <-.
  - destruct (JS.find _ orders) as [o|] eqn:Hfind.
    + split; [by intros [error ?]|]. intros Hnone.
      apply find_Some in Hfind as (i & Hfind).
      apply list_find_Some in Hfind as (Hi & [Hid Hparty] & _).
      destruct (Hnone o) as [? ?]; [by eapply list_elem_of_lookup_2|done|].
      by destruct Hparty.
    + split; [|by eexists]. intros _ order Hin Hid.
      apply find_None in Hfind. rewrite list.Forall_forall in Hfind.
      specialize (Hfind order Hin). unfold Orders.partyTo in Hfind.
      split; intros Heq; apply Hfind; (split; [done|]); [by left|by right].
Qed.

Section Statistics.
Import Orders.


End Statistics.



(** ** Bid histories *)

Section BidHistory.
Import Bidding.

Lemma bidChange_refl b : bidChange b b.
Proof. unfold bidChange. by repeat split; try left. Qed.

Lemma bidChange_trans b1 b2 b3 : bidChange b1 b2 → bidChange b2 b3 → bidChange b1 b3.
Proof.
  intros (Hi & Hr & He & Hc & H12) (Hi' & Hr' & He' & Hc' & H23).
  split; [congruence|]. split; [congruence|]. split; [congruence|].
  split; [congruence|].
  destruct H12 as [->|[Hact Hst]]; [done|].
  destruct H23 as [->|[_ Hst']]; right; done.
Qed.

Lemma step_bid s s' j b :
  step s s' → bids s !! j = Some b →
  ∃ b', bids s' !! j = Some b' ∧ bidChange b b'.
Proof.
  intros Hstep Hj.
  destruct Hstep as [userId now uuid body s|userId now id body s
                    |userId now id s|userId now id s].
  - unfold submitBid.
    destruct (bidValidation body); simpl; [|by exists b; split; [|apply bidChange_refl]].
    destruct (JS.find _ (requirements s));
      [|by exists b; split; [|apply bidChange_refl]].
    destruct (decide _); [by exists b; split; [|apply bidChange_refl]|].
    destruct (deadlinePassed _ _); [by exists b; split; [|apply bidChange_refl]|].
    destruct (decide _); [by exists b; split; [|apply bidChange_refl]|].
    destruct (validateBidIntegrity _ _ _);
      [|by exists b; split; [|apply bidChange_refl]]. simpl.
    exists b. split; [|apply bidChange_refl].
    by rewrite lookup_app_l by (by eapply lookup_lt_Some).
  - unfold updateBid.
    destruct (list_find _ (bids s)) as [[i bid]|] eqn:Hfind;
      [|by exists b; split; [|apply bidChange_refl]].
    destruct (decide _) as [|Hact]; [by exists b; split; [|apply bidChange_refl]|].
    apply dec_stable in Hact.
    destruct (JS.find _ (requirements s));
      [|by exists b; split; [|apply bidChange_refl]].
    destruct (decide _); [by exists b; split; [|apply bidChange_refl]|].
    destruct (deadlinePassed _ _); [by exists b; split; [|apply bidChange_refl]|].
    destruct (bidValidation body); [|by exists b; split; [|apply bidChange_refl]].
    simpl. apply list_find_Some in Hfind as (Hi & _ & _).
    destruct (decide (i = j)) as [->|Hne].
    + simplify_eq. eexists.
      split; [by rewrite list_lookup_insert_eq by (by eapply lookup_lt_Some)|].
      unfold bidChange. simpl. repeat (split; [done|]). right.
      split; [done|]. rewrite Hact. by left.
    + exists b. split; [by rewrite list_lookup_insert_ne|apply bidChange_refl].
  - unfold withdrawBid.
    destruct (list_find _ (bids s)) as [[i bid]|] eqn:Hfind;
      [|by exists b; split; [|apply bidChange_refl]].
    destruct (decide _) as [|Hact]; [by exists b; split; [|apply bidChange_refl]|].
    apply dec_stable in Hact. simpl.
    apply list_find_Some in Hfind as (Hi & _ & _).
    destruct (decide (i = j)) as [->|Hne].
    + simplify_eq. eexists.
      split; [by rewrite list_lookup_alter_eq, Hj|].
      unfold bidChange. simpl. repeat (split; [done|]). right.
      split; [done|]. right. by left.
    + exists b. split; [by rewrite list_lookup_alter_ne|apply bidChange_refl].
  - destruct (acceptBid_cases userId now id s)
      as [(code & error & ->)
         |(bidIndex & bid & ri & r & Hfind & _ & _ & _ & Hact & ->)];
      [by exists b; split; [|apply bidChange_refl]|].
    simpl. apply list_find_Some in Hfind as (Hi & Hid & _).
    rewrite list_lookup_fmap.
    destruct (decide (bidIndex = j)) as [->|Hne].
    + simplify_eq. rewrite list_lookup_alter_eq, Hj. simpl.
      eexists. split; [done|].
      unfold rejectSibling. simpl. rewrite decide_False by (by intros (_ & ? & _)).
      unfold bidChange. simpl. repeat (split; [done|]). right.
      split; [done|]. right. right. by left.
    + rewrite list_lookup_alter_ne, Hj by done. simpl.
      eexists. split; [done|]. unfold rejectSibling.
      destruct (decide _) as [(_ & _ & Hb)|]; [|apply bidChange_refl].
      unfold bidChange. simpl. repeat (split; [done|]). right.
      split; [done|]. do 3 right. by left.
Qed.

Lemma steps_bid s s' j b :
  rtc step s s' → bids s !! j = Some b →
  ∃ b', bids s' !! j = Some b' ∧ bidChange b b'.
Proof.
  intros Hsteps. revert b. induction Hsteps as [|s1 s2 s3 Hstep _ IH]; intros b Hj.
  - exists b. split; [done|apply bidChange_refl].
  - destruct (step_bid _ _ _ _ Hstep Hj) as (b2 & Hj2 & H12).
    destruct (IH _ Hj2) as (b3 & Hj3 & H23).
    exists b3. split; [done|]. by eapply bidChange_trans.
Qed.
End BidHistory.

(** X9. The life of a bid.  Whatever calls of [submitBid], [updateBid],
    [withdrawBid] and [acceptBid] follow, a stored bid stays at its index
    with its identifier, its requirement, its exporter and its creation
    instant; a bid that is withdrawn, accepted or rejected is never changed
    again; and an active bid that is changed is active, withdrawn, accepted
    or rejected afterwards. *)
Theorem bid_lifecycle s s' j b :
  rtc Bidding.step s s' → Bidding.bids s !! j = Some b →
  ∃ b',
    Bidding.bids s' !! j = Some b'
    ∧ Bid.id b' = Bid.id b
    ∧ Bid.requirementId b' = Bid.requirementId b
    ∧ Bid.exporterId b' = Bid.exporterId b
    ∧ Bid.createdAt b' = Bid.createdAt b
    ∧ (Bid.status b ≠ "active" → b' = b)
    ∧ (b' ≠ b →
       Bid.status b' ∈ ["active"; "withdrawn"; "accepted"; "rejected"]).
Proof.
  intros Hsteps Hj.
  destruct (steps_bid s s' j b Hsteps Hj)
    as (b' & Hj' & Hi & Hr & He & Hc & Hchange).
  exists b'. repeat (split; [done|]). split.
  - intros Hclosed. by destruct Hchange as [|[? _]].
  - intros Hne. by destruct Hchange as [|[_ ?]].
Qed.

Lemma bid_lifecycle_witness :
  ∃ b',
    Bidding.bids Sample.awarded !! 1%nat = Some b'
    ∧ Bid.id b' = "bid-b"
    ∧ Bid.status b' = "rejected"
    ∧ Bidding.bids
        (snd (Bidding.withdrawBid "exp-2" (Sample.now + 1000) "bid-b" Sample.awarded))
        !! 1%nat = Some b'.
Proof.
  destruct (bid_lifecycle Sample.awarded
              (snd (Bidding.withdrawBid "exp-2" (Sample.now + 1000) "bid-b"
                      Sample.awarded))
              1%nat
              (Bid.set_status "rejected" Sample.now
                 (Sample.bidFor "bid-b" "exp-2" 4.5 "USD" 2 "weeks" "active")))
    as (b' & Hb' & _ & _ & _ & _ & Hfinal & _).
  - apply rtc_once. constructor.
  - reflexivity.
  - exists (Bid.set_status "rejected" Sample.now
              (Sample.bidFor "bid-b" "exp-2" 4.5 "USD" 2 "weeks" "active")).
    split; [reflexivity|]. split; [reflexivity|]. split; [reflexivity|].
    rewrite Hb'. f_equal. by apply Hfinal.
Defined.

Section BidCount.
Import Bidding.

Lemma find_alter_other (f : Requirement.t → Requirement.t) R R' i reqs r :
  (∀ x, Requirement.id (f x) = Requirement.id x) →
  JS.findIndex (λ r, Requirement.id r = R') reqs = Some i → R ≠ R' →
  JS.find (λ r, Requirement.id r = R) (alter f i reqs) = Some r →
  JS.find (λ r, Requirement.id r = R) reqs = Some r.
Proof.
  intros Hkey Hi Hne. unfold JS.find, JS.findIndex in *.
  rewrite (list_find_alter_key Requirement.id f R i reqs Hkey).
  destruct (list_find (λ r, Requirement.id r = R') reqs) as [[i' r']|] eqn:Hfind';
    [|done]. injection Hi as ->.
  destruct (list_find (λ r, Requirement.id r = R) reqs) as [[j x]|] eqn:Hfind;
    [|done]. simpl.
  destruct (decide (j = i)) as [->|]; [|done].
  apply list_find_Some in Hfind as (Hj & Hid & _).
  apply list_find_Some in Hfind' as (Hj' & Hid' & _). congruence.
Qed.

Lemma find_alter_same (f : Requirement.t → Requirement.t) R i reqs r' :
  (∀ x, Requirement.id (f x) = Requirement.id x) →
  JS.findIndex (λ r, Requirement.id r = R) reqs = Some i →
  JS.find (λ r, Requirement.id r = R) (alter f i reqs) = Some r' →
  ∃ r, JS.find (λ r, Requirement.id r = R) reqs = Some r ∧ r' = f r.
Proof.
  intros Hkey Hi. unfold JS.find, JS.findIndex in *.
  rewrite (list_find_alter_key Requirement.id f R i reqs Hkey).
  destruct (list_find (λ r, Requirement.id r = R) reqs) as [[j x]|]; [|done].
  injection Hi as ->. simpl. rewrite decide_True by done.
  intros [= <-]. by exists x.
Qed.

Ltac or_int_cases :=
  unfold JS.or_int in *;
  repeat match goal with
         | |- context [Z.eqb ?a ?b] => destruct (Z.eqb_spec a b)
         | H : context [Z.eqb ?a ?b] |- _ => destruct (Z.eqb_spec a b)
         end;
  lia.

Lemma step_countsAgree s s' : step s s' → countsAgree s → countsAgree s'.
Proof.
  intros Hstep Hagree.
  destruct Hstep as [userId now uuid body s|userId now id body s
                    |userId now id s|userId now id s].
  - unfold submitBid.
    destruct (bidValidation body); simpl; [|done].
    destruct (JS.find _ (requirements s)) as [requirement|] eqn:Hreq; [|done].
    destruct (decide _); [done|].
    destruct (deadlinePassed _ _); [done|].
    destruct (decide _); [done|].
    destruct (validateBidIntegrity _ _ _); [|done]. simpl.
    apply find_findIndex in Hreq as (i & Hidx & Hi & Hid).
    rewrite Hidx. intros R r Hfind. simpl in *.
    rewrite count_app, count_cons.
    destruct (decide (R = Payload.requirementId body)) as [->|Hne].
    + apply find_alter_same in Hfind as (r0 & Hr0 & ->); [|done..].
      specialize (Hagree _ _ Hr0). simpl.
      rewrite (one_if_True (standing _)) by (by split).
      unfold count at 2. simpl.
      destruct (Requirement.bidCount r0) as [c|]; or_int_cases.
    + eapply find_alter_other in Hfind; [|done..].
      specialize (Hagree _ _ Hfind).
      rewrite (one_if_False (standing _)) by (by intros [? _]).
      unfold count at 2. simpl. lia.
  - unfold updateBid.
    destruct (list_find _ (bids s)) as [[i bid]|] eqn:Hfind; [|done].
    destruct (decide _) as [|Hact]; [done|].
    destruct (JS.find _ (requirements s)); [|done].
    destruct (decide _); [done|].
    destruct (deadlinePassed _ _); [done|].
    destruct (bidValidation body); [|done]. simpl.
    apply list_find_Some in Hfind as (Hi & _ & _).
    intros R r Hr. simpl in *. rewrite (Hagree _ _ Hr). f_equal.
    match goal with
    | |- _ = count _ (<[i := ?u]> _) =>
        pose proof (count_insert (standing R) (bids s) i bid u Hi) as Hcount;
        assert (one_if (standing R) u = one_if (standing R) bid) as Heq
          by (unfold one_if, standing; simpl; done)
    end.
    lia.
  - unfold withdrawBid.
    destruct (list_find _ (bids s)) as [[i bid]|] eqn:Hfind; [|done].
    destruct (decide _) as [|Hact]; [done|]. apply dec_stable in Hact. simpl.
    apply list_find_Some in Hfind as (Hi & _ & _).
    pose proof (λ R, count_alter (standing R) (Bid.set_status "withdrawn" now)
                       (bids s) i bid Hi) as Hcount.
    intros R r Hr. simpl in *. specialize (Hcount R).
    rewrite (one_if_False (standing R) (Bid.set_status _ _ _)) in Hcount
      by (by intros [_ ?]).
    destruct (JS.findIndex _ (requirements s)) as [ri|] eqn:Hidx.
    + destruct (decide (R = Bid.requirementId bid)) as [->|Hne].
      * apply find_alter_same in Hr as (r0 & Hr0 & ->); [|done..].
        specialize (Hagree _ _ Hr0). simpl.
        rewrite (one_if_True (standing _)) in Hcount by (split; [done|by rewrite Hact]).
        destruct (Requirement.bidCount r0) as [c|]; or_int_cases.
      * eapply find_alter_other in Hr; [|done..].
        specialize (Hagree _ _ Hr).
        rewrite (one_if_False (standing _)) in Hcount by (by intros [? _]). lia.
    + specialize (Hagree _ _ Hr).
      destruct (decide (R = Bid.requirementId bid)) as [->|Hne].
      * unfold JS.find, JS.findIndex in *.
        destruct (list_find _ (requirements s)); done.
      * rewrite (one_if_False (standing _)) in Hcount by (by intros [? _]). lia.
  - destruct (acceptBid_cases userId now id s)
      as [(code & error & ->)
         |(bidIndex & bid & ri & requirement & Hfind & Hreq & _ & _ & Hact & ->)];
      [done|].
    simpl. apply list_find_Some in Hfind as (Hi & Hid & _).
    intros R r Hr. simpl in *.
    assert (count (standing R)
              (rejectSibling (Bid.requirementId bid) id now
                 <$> alter (Bid.accept now) bidIndex (bids s))
            = count (standing R) (bids s)) as ->.
    { rewrite count_fmap.
      - pose proof (count_alter (standing R) (Bid.accept now) (bids s) bidIndex
                      bid Hi) as Hcount.
        assert (one_if (standing R) (Bid.accept now bid) = one_if (standing R) bid)
          as Heq.
        { unfold one_if.
          destruct (decide _) as [[? ?]|Hn1], (decide _) as [[? ?]|Hn2]; try done.
          - destruct Hn2. split; [done|by rewrite Hact].
          - destruct Hn1. by split. }
        lia.
      - intros b. unfold rejectSibling, standing.
        destruct (decide _) as [(_ & _ & Hb)|]; [|done]. simpl. rewrite Hb.
        split; intros [? _]; (split; [done|done]). }
    assert (JS.findIndex (λ r, Requirement.id r = Bid.requirementId bid)
              (requirements s) = Some ri) as Hidx.
    { unfold JS.findIndex. by rewrite Hreq. }
    destruct (decide (R = Bid.requirementId bid)) as [->|Hne].
    + apply find_alter_same in Hr as (r0 & Hr0 & ->); [|done..].
      by rewrite <- (Hagree _ _ Hr0).
    + eapply find_alter_other in Hr; [|done..]. by apply Hagree.
Qed.
End BidCount.

(** X10. The bid count of a requirement.  When the [bidCount] of every
    requirement is the number of its bids that were not withdrawn, it is
    still so after any calls of [submitBid], [updateBid], [withdrawBid] and
    [acceptBid]: a submission adds one, a withdrawal takes one, and an
    update or an acceptance leaves the count as it is. *)
Theorem bidCount_counts_standing_bids s s' R r :
  (∀ R r,
     JS.find (λ r, Requirement.id r = R) (Bidding.requirements s) = Some r →
     JS.or_int (Requirement.bidCount r) 0
     = Z.of_nat (count (λ b, Bid.requirementId b = R ∧ Bid.status b ≠ "withdrawn")
                   (Bidding.bids s))) →
  rtc Bidding.step s s' →
  JS.find (λ r, Requirement.id r = R) (Bidding.requirements s') = Some r →
  JS.or_int (Requirement.bidCount r) 0
  = Z.of_nat (count (λ b, Bid.requirementId b = R ∧ Bid.status b ≠ "withdrawn")
                (Bidding.bids s')).
Proof.
  intros Hagree Hsteps. revert R r.
  change (Bidding.countsAgree s') .
  induction Hsteps as [|s1 s2 s3 Hstep _ IH]; [exact Hagree|].
  apply IH. by eapply step_countsAgree.
Qed.

Lemma bidCount_counts_standing_bids_witness :
  rtc Bidding.step Sample.emptyStore Sample.withdrawn
  ∧ ∃ r,
      JS.find (λ r, Requirement.id r = Sample.reqId)
        (Bidding.requirements Sample.withdrawn) = Some r
      ∧ JS.or_int (Requirement.bidCount r) 0
        = Z.of_nat (count (λ b, Bid.requirementId b = Sample.reqId
                                ∧ Bid.status b ≠ "withdrawn")
                      (Bidding.bids Sample.withdrawn)).
Proof.
  assert (rtc Bidding.step Sample.emptyStore Sample.withdrawn) as Hsteps.
  { eapply rtc_l; [|apply rtc_once]; constructor. }
  split; [exact Hsteps|].
  exists (Requirement.set_bidCount 0 (Sample.now + 1000)
            (Requirement.set_bidCount 1 Sample.now Sample.requirement)).
  assert (JS.find (λ r, Requirement.id r = Sample.reqId)
            (Bidding.requirements Sample.withdrawn)
          = Some (Requirement.set_bidCount 0 (Sample.now + 1000)
                    (Requirement.set_bidCount 1 Sample.now Sample.requirement)))
    as Hfind by (by vm_compute).
  split; [exact Hfind|].
  apply (bidCount_counts_standing_bids Sample.emptyStore Sample.withdrawn);
    [|exact Hsteps|exact Hfind].
  intros R r Hr. unfold Sample.emptyStore, JS.find in Hr. simpl in Hr.
  destruct (decide _); [|done]. by injection Hr as <-.
Defined.
